(** * Auxiliary-engine coordination core of lc0 (hans-ekbrand fork)

    A shallow embedding of the parts of
      - src/chess/position.cc  (game results, R-mobility classifier)
      - src/mcts/auxengine.cc  (enqueue gate, purges, query driver, PV encoder)
    that the specification's properties talk about, and the proofs or
    refutations of those properties.

    Conventions of the embedding:
      - a [std::queue<T>] is a [list T]: [front()] is the head, [push] appends
        at the end, [pop] removes the head;
      - a [Node*] is the address it holds ([positive]) together with the
        chain of parents reachable through it; [nullptr] is [None]; the
        mutable per-node tag lives in a finite map keyed by address;
      - a [Move] is its packed 16-bit integer;
      - fixed-width integers are [Z] with the wrap-around written out;
      - a read of an atomic flag or of a helper's output line is an input of
        the model (the value the running thread observed). *)

From Stdlib Require Import Ascii String ZArith List Bool Lia.
From stdpp Require Import gmap strings list fin_maps pretty.

Local Open Scope Z_scope.

(* ===================================================================== *)
(** * chess/position.cc                                                   *)
(* ===================================================================== *)

Module Position.

(** The enumerators of [GameResult] that the sources name
    (selfplay/multigame.cc lists every one of them). *)
Inductive GameResult : Set :=
| UNDECIDED
| BLACK_WON | BLACK_STALEMATE
| BLACK_G1_0 | BLACK_G1_5 | BLACK_G2_0 | BLACK_G2_5 | BLACK_G3_0 | BLACK_G3_5
| BLACK_G4_0 | BLACK_G4_5 | BLACK_G5_0 | BLACK_G5_5 | BLACK_G6_0 | BLACK_G6_5
| BLACK_G7_0 | BLACK_G7_5 | BLACK_G8_0 | BLACK_G8_5 | BLACK_G9_0 | BLACK_G9_5
| DRAW
| WHITE_STALEMATE | WHITE_WON
| WHITE_G1_0 | WHITE_G1_5 | WHITE_G2_0 | WHITE_G2_5 | WHITE_G3_0 | WHITE_G3_5
| WHITE_G4_0 | WHITE_G4_5 | WHITE_G5_0 | WHITE_G5_5 | WHITE_G6_0 | WHITE_G6_5
| WHITE_G7_0 | WHITE_G7_5 | WHITE_G8_0 | WHITE_G8_5 | WHITE_G9_0 | WHITE_G9_5.

Definition GameResult_eqb (a b : GameResult) : bool :=
  match a, b with
  | UNDECIDED, UNDECIDED | BLACK_WON, BLACK_WON
  | BLACK_STALEMATE, BLACK_STALEMATE
  | BLACK_G1_0, BLACK_G1_0 | BLACK_G1_5, BLACK_G1_5
  | BLACK_G2_0, BLACK_G2_0 | BLACK_G2_5, BLACK_G2_5
  | BLACK_G3_0, BLACK_G3_0 | BLACK_G3_5, BLACK_G3_5
  | BLACK_G4_0, BLACK_G4_0 | BLACK_G4_5, BLACK_G4_5
  | BLACK_G5_0, BLACK_G5_0 | BLACK_G5_5, BLACK_G5_5
  | BLACK_G6_0, BLACK_G6_0 | BLACK_G6_5, BLACK_G6_5
  | BLACK_G7_0, BLACK_G7_0 | BLACK_G7_5, BLACK_G7_5
  | BLACK_G8_0, BLACK_G8_0 | BLACK_G8_5, BLACK_G8_5
  | BLACK_G9_0, BLACK_G9_0 | BLACK_G9_5, BLACK_G9_5
  | DRAW, DRAW | WHITE_STALEMATE, WHITE_STALEMATE | WHITE_WON, WHITE_WON
  | WHITE_G1_0, WHITE_G1_0 | WHITE_G1_5, WHITE_G1_5
  | WHITE_G2_0, WHITE_G2_0 | WHITE_G2_5, WHITE_G2_5
  | WHITE_G3_0, WHITE_G3_0 | WHITE_G3_5, WHITE_G3_5
  | WHITE_G4_0, WHITE_G4_0 | WHITE_G4_5, WHITE_G4_5
  | WHITE_G5_0, WHITE_G5_0 | WHITE_G5_5, WHITE_G5_5
  | WHITE_G6_0, WHITE_G6_0 | WHITE_G6_5, WHITE_G6_5
  | WHITE_G7_0, WHITE_G7_0 | WHITE_G7_5, WHITE_G7_5
  | WHITE_G8_0, WHITE_G8_0 | WHITE_G8_5, WHITE_G8_5
  | WHITE_G9_0, WHITE_G9_0 | WHITE_G9_5, WHITE_G9_5 => true
  | _, _ => false
  end.

(** [GameResult operator-(const GameResult& res)]: a chain of two
    conditionals on [res == BLACK_WON] and [res == WHITE_WON]. *)
Definition operator_minus (res : GameResult) : GameResult :=
  if GameResult_eqb res BLACK_WON then WHITE_WON
  else if GameResult_eqb res WHITE_WON then BLACK_WON
  else res.

(** The pairing of winner variants the specification has in mind: every
    white win with the black win of the same kind, and conversely.  The
    sources have no such function; it only serves to state the property. *)
Definition opposite_winner (res : GameResult) : GameResult :=
  match res with
  | UNDECIDED => UNDECIDED | DRAW => DRAW
  | BLACK_WON => WHITE_WON | WHITE_WON => BLACK_WON
  | BLACK_STALEMATE => WHITE_STALEMATE | WHITE_STALEMATE => BLACK_STALEMATE
  | BLACK_G1_0 => WHITE_G1_0 | BLACK_G1_5 => WHITE_G1_5
  | BLACK_G2_0 => WHITE_G2_0 | BLACK_G2_5 => WHITE_G2_5
  | BLACK_G3_0 => WHITE_G3_0 | BLACK_G3_5 => WHITE_G3_5
  | BLACK_G4_0 => WHITE_G4_0 | BLACK_G4_5 => WHITE_G4_5
  | BLACK_G5_0 => WHITE_G5_0 | BLACK_G5_5 => WHITE_G5_5
  | BLACK_G6_0 => WHITE_G6_0 | BLACK_G6_5 => WHITE_G6_5
  | BLACK_G7_0 => WHITE_G7_0 | BLACK_G7_5 => WHITE_G7_5
  | BLACK_G8_0 => WHITE_G8_0 | BLACK_G8_5 => WHITE_G8_5
  | BLACK_G9_0 => WHITE_G9_0 | BLACK_G9_5 => WHITE_G9_5
  | WHITE_G1_0 => BLACK_G1_0 | WHITE_G1_5 => BLACK_G1_5
  | WHITE_G2_0 => BLACK_G2_0 | WHITE_G2_5 => BLACK_G2_5
  | WHITE_G3_0 => BLACK_G3_0 | WHITE_G3_5 => BLACK_G3_5
  | WHITE_G4_0 => BLACK_G4_0 | WHITE_G4_5 => BLACK_G4_5
  | WHITE_G5_0 => BLACK_G5_0 | WHITE_G5_5 => BLACK_G5_5
  | WHITE_G6_0 => BLACK_G6_0 | WHITE_G6_5 => BLACK_G6_5
  | WHITE_G7_0 => BLACK_G7_0 | WHITE_G7_5 => BLACK_G7_5
  | WHITE_G8_0 => BLACK_G8_0 | WHITE_G8_5 => BLACK_G8_5
  | WHITE_G9_0 => BLACK_G9_0 | WHITE_G9_5 => BLACK_G9_5
  end.

(** Modelled from the spec: the numbering of the enumerators, which
    chess/position.h declares and which is not under src/.  It follows the
    [switch] at the end of [ComputeGameResultRmobility], which logs a name for
    every packed value it expects (1..22 and 24..41), and section 3 of the
    specification (1 = black checkmates, 21 = draw, 22 = white by stalemate,
    23 unused, 24..41 white R-mobility wins ascending).  Values without a
    label have no enumerator here. *)
Definition GameResult_of_int (r : Z) : option GameResult :=
  match r with
  | 1 => Some BLACK_WON | 2 => Some BLACK_STALEMATE
  | 3 => Some BLACK_G1_0 | 4 => Some BLACK_G1_5
  | 5 => Some BLACK_G2_0 | 6 => Some BLACK_G2_5
  | 7 => Some BLACK_G3_0 | 8 => Some BLACK_G3_5
  | 9 => Some BLACK_G4_0 | 10 => Some BLACK_G4_5
  | 11 => Some BLACK_G5_0 | 12 => Some BLACK_G5_5
  | 13 => Some BLACK_G6_0 | 14 => Some BLACK_G6_5
  | 15 => Some BLACK_G7_0 | 16 => Some BLACK_G7_5
  | 17 => Some BLACK_G8_0 | 18 => Some BLACK_G8_5
  | 19 => Some BLACK_G9_0 | 20 => Some BLACK_G9_5
  | 21 => Some DRAW | 22 => Some WHITE_STALEMATE
  | 24 => Some WHITE_G1_0 | 25 => Some WHITE_G1_5
  | 26 => Some WHITE_G2_0 | 27 => Some WHITE_G2_5
  | 28 => Some WHITE_G3_0 | 29 => Some WHITE_G3_5
  | 30 => Some WHITE_G4_0 | 31 => Some WHITE_G4_5
  | 32 => Some WHITE_G5_0 | 33 => Some WHITE_G5_5
  | 34 => Some WHITE_G6_0 | 35 => Some WHITE_G6_5
  | 36 => Some WHITE_G7_0 | 37 => Some WHITE_G7_5
  | 38 => Some WHITE_G8_0 | 39 => Some WHITE_G8_5
  | 40 => Some WHITE_G9_0 | 41 => Some WHITE_G9_5
  | _ => None
  end.

(** The variant the convention assigns to a goal: side [white], [L] legal
    moves left to the opponent ([1 <= L <= 9]), opponent in check or not
    (Gk.0 is "k moves, in check", Gk.5 is "k moves, not in check"). *)
Definition goal_variant (white : bool) (L : Z) (in_check : bool) : Z :=
  (if white then 22 else 1) + 2 * L + (if in_check then 0 else 1).

(** What the classifier reads of a [Position]: the size of
    [GetBoard().GenerateLegalMoves()], [GetBoard().IsUnderCheck()],
    [GetRule50Ply()], [IsBlackToMove()] and [GetRepetitions()]. *)
Record Position : Set := mkPosition {
  legal_moves_size : nat;
  IsUnderCheck : bool;
  GetRule50Ply : Z;
  IsBlackToMove : bool;
  GetRepetitions : Z
}.

(** [positions_], root first. *)
Definition PositionHistory : Set := list Position.

Definition b2z (b : bool) : Z := if b then 1 else 0.

(** The packing expression of line 117, stored into a [uint8_t]. *)
Definition result_as_int (is_black_to_move : bool) (L : Z) (in_check : bool) : Z :=
  (1 + b2z is_black_to_move * 2 * L
     + b2z (negb is_black_to_move) * 20
     + b2z (negb is_black_to_move) * 2 * (9 - L)
     + b2z (negb in_check)) mod 256.

(** The state the [for] loop carries: [best_goal.number_of_legal_moves],
    [is_black_to_move] and [result] (as its packed integer). *)
Record RmobilityState : Set := mkRmobilityState {
  best_number_of_legal_moves : Z;
  is_black_to_move : bool;
  result : Z
}.

(** One iteration of the loop, for the position at [GetLength() - i - 1]. *)
Definition Rmobility_step (p : Position) (st : RmobilityState) : RmobilityState :=
  let L := Z.of_nat (legal_moves_size p) in
  let st' :=
    if (L <? 10) && (L <=? best_number_of_legal_moves st)
    then {| best_number_of_legal_moves := L;
            is_black_to_move := is_black_to_move st;
            result := result_as_int (is_black_to_move st) L (IsUnderCheck p) |}
    else st in
  {| best_number_of_legal_moves := best_number_of_legal_moves st';
     is_black_to_move := negb (is_black_to_move st');
     result := result st' |}.

(** [GetPositionAt(idx)]: [None] when [idx] is outside [positions_]
    (undefined behaviour in the source). *)
Definition GetPositionAt (h : PositionHistory) (idx : Z) : option Position :=
  if idx <? 0 then None else h !! Z.to_nat idx.

(** Iterations [i, i+1, ..., i+k-1] of the loop. *)
Fixpoint Rmobility_loop (h : PositionHistory) (k : nat) (i : Z)
    (st : RmobilityState) : option RmobilityState :=
  match k with
  | O => Some st
  | S k' =>
      match GetPositionAt h (Z.of_nat (length h) - i - 1) with
      | None => None
      | Some p => Rmobility_loop h k' (i + 1) (Rmobility_step p st)
      end
  end.

(** [PositionHistory::ComputeGameResultRmobility]; the result is the packed
    integer of the returned enumerator, [21] being [GameResult::DRAW]. *)
Definition ComputeGameResultRmobility (h : PositionHistory) : option Z :=
  match last h with
  | None => None
  | Some l =>
      result <$>
        Rmobility_loop h (Z.to_nat (GetRule50Ply l)) 1
          {| best_number_of_legal_moves := 10;
             is_black_to_move := IsBlackToMove l;
             result := 21 |}
  end.

(** What [ComputeGameResult] returns: an enumerator it names, or the value
    [ComputeGameResultRmobility] produced by [static_cast]. *)
Inductive Outcome : Set :=
| Enumerator (r : GameResult)
| Cast (packed : Z).

(** [PositionHistory::ComputeGameResult] (lines 263-289). *)
Definition ComputeGameResult (h : PositionHistory) : option Outcome :=
  match last h with
  | None => None
  | Some l =>
      if Nat.eqb (legal_moves_size l) 0 then
        if IsUnderCheck l
        then Some (Enumerator (if IsBlackToMove l then WHITE_WON else BLACK_WON))
        else Some (Enumerator (if IsBlackToMove l then WHITE_STALEMATE
                               else BLACK_STALEMATE))
      else if 100 <=? GetRule50Ply l then Cast <$> ComputeGameResultRmobility h
      else if 2 <=? GetRepetitions l then Cast <$> ComputeGameResultRmobility h
      else Some (Enumerator UNDECIDED)
  end.

End Position.

(* ===================================================================== *)
(** * mcts/auxengine.cc                                                   *)
(* ===================================================================== *)

Module AuxEngine.

(** [Move]: the packed 16-bit integer ([as_packed_int()]); [Move()] is 0. *)
Definition Move : Set := Z.
Definition default_Move : Move := 0.

(** What the sources use of chess/bitboard.h, chess/board.h and mcts/node.h,
    none of which is under src/, and one point on which C++ standard
    libraries differ: they are taken as an interface. *)
Class Externals : Type := {
  ChessBoard : Type;
  (** [Move::ParseMove(&m, str, black_to_move)]; [None] when it returns false *)
  ParseMove : string -> bool -> option Move;
  (** [Move::as_string()] *)
  as_string : Move -> string;
  (** [Edge::GetMove(bool as_opponent)] applied to the edge's stored move *)
  Edge_GetMove : Move -> bool -> Move;
  (** [ChessBoard::GetModernMove], [ApplyMove] (its board effect), [Mirror] *)
  GetModernMove : ChessBoard -> Move -> Move;
  ApplyMove : ChessBoard -> Move -> ChessBoard;
  Mirror : ChessBoard -> ChessBoard;
  (** whether [is >> std::ws] sets [failbit] when [eofbit] is already set
      (it does where [std::ws] constructs a sentry, LWG 415) *)
  ws_fails_at_eof : bool
}.

#[local] Set Warnings "-register-all".

(** A [Node*] that is not null: the address it holds, together with what
    the coordination code reads through it, [GetParent()] and the move of
    [GetOwnEdge()] ([None] for a null pointer).  Two pointers are equal when
    their addresses are. *)
Inductive Node : Set :=
  mkNode (addr : positive) (parent : option Node) (own_edge : option Move).

Definition addr_of (n : Node) : positive :=
  match n with mkNode a _ _ => a end.
Definition GetParent (n : Node) : option Node :=
  match n with mkNode _ p _ => p end.
Definition GetOwnEdge (n : Node) : option Move :=
  match n with mkNode _ _ e => e end.

Definition ptr_eqb (a b : Node) : bool := Pos.eqb (addr_of a) (addr_of b).

(** The magic values of the per-node tag ([SetAuxEngineMove]). *)
Definition PENDING : Z := 0xfffe.
Definition NOT_PENDING : Z := 0xffff.

(** The fields of [Search] and [Search::SearchStats] the modelled functions
    touch.  [aux_engine_move] holds, per node address, the value last given
    to [SetAuxEngineMove]. *)
Record Search : Type := mkSearch {
  stop_ : bool;
  root_node_ : Node;
  final_bestmove_ : Move;
  played_history_IsBlackToMove : bool;
  AuxEngineMaxDepth : Z;
  final_purge_run : bool;
  size_of_queue_at_start : Z;
  number_of_times_called_AuxMaybeEnqueueNode_ : Z;
  aux_engine_move : gmap positive Z;
  persistent_queue_of_nodes : list Node;
  fast_track_extend_and_evaluate_queue_ : list (list Move);
  starting_depth_of_PVs_ : list Z;
  amount_of_support_for_PVs_ : list Z;
  my_pv_cache_ : gmap string bool
}.

Definition with_calls (c : Z) (s : Search) : Search :=
  mkSearch (stop_ s) (root_node_ s) (final_bestmove_ s)
    (played_history_IsBlackToMove s) (AuxEngineMaxDepth s) (final_purge_run s)
    (size_of_queue_at_start s) c
    (aux_engine_move s) (persistent_queue_of_nodes s)
    (fast_track_extend_and_evaluate_queue_ s) (starting_depth_of_PVs_ s)
    (amount_of_support_for_PVs_ s) (my_pv_cache_ s).

Definition with_aux_engine_move (t : gmap positive Z) (s : Search) : Search :=
  mkSearch (stop_ s) (root_node_ s) (final_bestmove_ s)
    (played_history_IsBlackToMove s) (AuxEngineMaxDepth s) (final_purge_run s)
    (size_of_queue_at_start s) (number_of_times_called_AuxMaybeEnqueueNode_ s)
    t (persistent_queue_of_nodes s)
    (fast_track_extend_and_evaluate_queue_ s) (starting_depth_of_PVs_ s)
    (amount_of_support_for_PVs_ s) (my_pv_cache_ s).

Definition with_node_queue (q : list Node) (s : Search) : Search :=
  mkSearch (stop_ s) (root_node_ s) (final_bestmove_ s)
    (played_history_IsBlackToMove s) (AuxEngineMaxDepth s) (final_purge_run s)
    (size_of_queue_at_start s) (number_of_times_called_AuxMaybeEnqueueNode_ s)
    (aux_engine_move s) q
    (fast_track_extend_and_evaluate_queue_ s) (starting_depth_of_PVs_ s)
    (amount_of_support_for_PVs_ s) (my_pv_cache_ s).

Definition with_pv_queue (q : list (list Move)) (s : Search) : Search :=
  mkSearch (stop_ s) (root_node_ s) (final_bestmove_ s)
    (played_history_IsBlackToMove s) (AuxEngineMaxDepth s) (final_purge_run s)
    (size_of_queue_at_start s) (number_of_times_called_AuxMaybeEnqueueNode_ s)
    (aux_engine_move s) (persistent_queue_of_nodes s)
    q (starting_depth_of_PVs_ s)
    (amount_of_support_for_PVs_ s) (my_pv_cache_ s).

Definition with_pv_side_queues (d n : list Z) (s : Search) : Search :=
  mkSearch (stop_ s) (root_node_ s) (final_bestmove_ s)
    (played_history_IsBlackToMove s) (AuxEngineMaxDepth s) (final_purge_run s)
    (size_of_queue_at_start s) (number_of_times_called_AuxMaybeEnqueueNode_ s)
    (aux_engine_move s) (persistent_queue_of_nodes s)
    (fast_track_extend_and_evaluate_queue_ s) d n (my_pv_cache_ s).

Definition with_pv_cache (c : gmap string bool) (s : Search) : Search :=
  mkSearch (stop_ s) (root_node_ s) (final_bestmove_ s)
    (played_history_IsBlackToMove s) (AuxEngineMaxDepth s) (final_purge_run s)
    (size_of_queue_at_start s) (number_of_times_called_AuxMaybeEnqueueNode_ s)
    (aux_engine_move s) (persistent_queue_of_nodes s)
    (fast_track_extend_and_evaluate_queue_ s) (starting_depth_of_PVs_ s)
    (amount_of_support_for_PVs_ s) c.

(** [n->SetAuxEngineMove(v)] and the tag a node carries. *)
Definition SetAuxEngineMove (n : Node) (v : Z) (s : Search) : Search :=
  with_aux_engine_move (<[addr_of n := v]> (aux_engine_move s)) s.

Definition GetAuxEngineMove (s : Search) (n : Node) : option Z :=
  aux_engine_move s !! addr_of n.

(** [q.size()] as the source compares it with integer constants. *)
Definition size {A : Type} (q : list A) : Z := Z.of_nat (length q).

(** ** The enqueue gate *)

(** [SearchWorker::AuxMaybeEnqueueNode(Node* n)] (lines 59-88).
    [auxengine_cv_.notify_one()] has no effect on the modelled state. *)
Definition AuxMaybeEnqueueNode (n : Node) (s : Search) : Search :=
  if stop_ s then s
  else
    let s1 := with_calls (number_of_times_called_AuxMaybeEnqueueNode_ s + 1) s in
    if negb (final_purge_run s1) then
      let s2 := SetAuxEngineMove n PENDING s1 in
      if size (persistent_queue_of_nodes s2) <? 15000
      then with_node_queue (persistent_queue_of_nodes s2 ++ [n]) s2
      else s2
    else s1.

(** ** The start-of-move purge (thread zero of [Search::AuxEngineWorker]) *)

(** The loop of lines 281-290: [k] iterations, each taking two entries off
    the front; [None] when [front()] is called on an empty queue. *)
Fixpoint start_purge_loop (root : Node) (k : nat) (q temp : list Node)
    : option (list Node * list Node) :=
  match k with
  | O => Some (q, temp)
  | S k' =>
      match q with
      | n :: n_parent :: q' =>
          start_purge_loop root k' q'
            (if ptr_eqb n_parent root then temp ++ [n] else temp)
      | _ => None
      end
  end.

(** Lines 275-301.  The loop runs for [i = 0, 2, 4, ...] below
    [size_of_queue_at_start]; the kept nodes are then pushed behind whatever
    the loop left in the queue. *)
Definition AuxEngineWorker_purge_nodes (s : Search) : option Search :=
  if final_purge_run s then Some s
  else if 0 <? size_of_queue_at_start s then
    match start_purge_loop (root_node_ s)
            (Z.to_nat ((size_of_queue_at_start s + 1) / 2))
            (persistent_queue_of_nodes s) [] with
    | Some (rest, temp) => Some (with_node_queue (rest ++ temp) s)
    | None => None
    end
  else Some s.

(** The [while] of lines 327-343 over the PV queue. *)
Fixpoint start_purge_pvs (valid_move : Move) (q : list (list Move))
    : list (list Move) :=
  match q with
  | [] => []
  | pv :: q' =>
      match pv with
      | m :: (_ :: _) as rest =>
          if Z.eqb m valid_move
          then rest :: start_purge_pvs valid_move q'
          else start_purge_pvs valid_move q'
      | _ => start_purge_pvs valid_move q'
      end
  end.

(** Lines 303-354 (skipped, like the node purge, when [final_purge_run]);
    [GetMove()] is [GetMove(false)]. *)
Definition AuxEngineWorker_purge_pvs `{Externals} (s : Search) : Search :=
  if final_purge_run s then s
  else
    match GetOwnEdge (root_node_ s) with
    | None => with_pv_queue [] s
    | Some valid_move =>
        if 0 <? size (fast_track_extend_and_evaluate_queue_ s)
        then with_pv_queue
               (start_purge_pvs (Edge_GetMove valid_move false)
                  (fast_track_extend_and_evaluate_queue_ s)) s
        else s
    end.

(** ** The end-of-move purge ([Search::AuxWait]) *)

(** The inner [for] of lines 952-966, entered at [n2]: the node pushed as
    witness behind [n], if [n] is kept. *)
Fixpoint AuxWait_witness `{Externals} (s : Search) (n2 : Node) : option Node :=
  if ptr_eqb n2 (root_node_ s) then None
  else
    match n2 with
    | mkNode _ (Some (mkNode _ (Some g) (Some mv) as p)) _ =>
        if ptr_eqb g (root_node_ s) then
          if Z.eqb (Edge_GetMove mv (played_history_IsBlackToMove s))
                   (final_bestmove_ s)
          then Some n2 else None
        else AuxWait_witness s p
    | _ => None
    end.

(** The outer [for] of lines 947-967: the contents of
    [persistent_queue_of_nodes_temp] once every entry has been popped. *)
Fixpoint AuxWait_node_loop `{Externals} (s : Search) (q : list Node) : list Node :=
  match q with
  | [] => []
  | n :: q' =>
      match AuxWait_witness s n with
      | Some n2 => n :: n2 :: AuxWait_node_loop s q'
      | None => AuxWait_node_loop s q'
      end
  end.

(** Lines 934-982: [size_kept * 2] entries are pushed back, that is all of
    the temporary queue, which has even size. *)
Definition AuxWait_purge_nodes `{Externals} (s : Search) : Search :=
  if 0 <? size (persistent_queue_of_nodes s)
  then with_node_queue (AuxWait_node_loop s (persistent_queue_of_nodes s)) s
  else s.

(** The [for] of lines 1035-1048: [k] iterations over the PV queue [q];
    [None] for [front()] of an empty queue or [pv[0]] of an empty vector.
    [Move m] keeps its default value when [ParseMove] fails. *)
Fixpoint AuxWait_pv_loop `{Externals} (s : Search) (k : nat)
    (q temp : list (list Move)) : option (list (list Move) * list (list Move)) :=
  match k with
  | O => Some (q, temp)
  | S k' =>
      match q with
      | (pv0 :: rest) :: q' =>
          let m := default default_Move
                     (ParseMove (as_string pv0) (played_history_IsBlackToMove s)) in
          AuxWait_pv_loop s k' q'
            (if Z.eqb m (final_bestmove_ s) then temp ++ [rest] else temp)
      | _ => None
      end
  end.

(** Lines 1022-1058.  Line 1028 assigns the empty queue before [my_size] is
    read from it on line 1034. *)
Definition AuxWait_purge_pvs `{Externals} (s : Search) : option Search :=
  match fast_track_extend_and_evaluate_queue_ s with
  | [] => Some s
  | _ :: _ =>
      let s1 := with_pv_queue [] s in
      let my_size := size (fast_track_extend_and_evaluate_queue_ s1) in
      match AuxWait_pv_loop s1 (Z.to_nat my_size)
              (fast_track_extend_and_evaluate_queue_ s1) [] with
      | Some (_, temp) => Some (with_pv_queue temp s1)
      | None => None
      end
  end.

(** The purge the comments of lines 1031-1045 describe, run on the queue as
    it was found: keep the PVs whose first move, rotated, is the move
    played, without that move.  It follows the specification's words and is
    only used to state what the purge was meant to do. *)
Definition purge_pvs_as_specified `{Externals} (s : Search)
    (q : list (list Move)) : list (list Move) :=
  omap (fun pv =>
          match pv with
          | pv0 :: rest =>
              if Z.eqb (default default_Move
                          (ParseMove (as_string pv0) (played_history_IsBlackToMove s)))
                       (final_bestmove_ s)
              then Some rest else None
          | [] => None
          end) q.

(** ** [Search::DoAuxEngine]: admission of a dequeued node *)

(** The [for] of lines 661-663; [None] when the walk leaves the tree
    without meeting the root (a null pointer is dereferenced). *)
Fixpoint depth_below (root n2 : Node) : option Z :=
  if ptr_eqb n2 root then Some 0
  else
    match n2 with
    | mkNode _ (Some p) _ => Z.succ <$> depth_below root p
    | mkNode _ None _ => None
    end.

(** Lines 637-695.  [sample] is the outcome of the comparison
    [float(1.0f)/(depth) < distribution(generator)].  The boolean of the
    result tells whether the function has returned. *)
Definition DoAuxEngine_admission (n : Node) (sample : bool) (s : Search)
    : option (Search * bool) :=
  if stop_ s then Some (s, true)
  else
    match depth_below (root_node_ s) n with
    | None => None
    | Some depth =>
        if stop_ s || final_purge_run s
        then Some (SetAuxEngineMove n NOT_PENDING s, true)
        else if (0 <? size (persistent_queue_of_nodes s))
                && ((0 <? depth) && (AuxEngineMaxDepth s <? depth))
                && sample
        then Some (with_node_queue (persistent_queue_of_nodes s ++ [n]) s, true)
        else Some (s, false)
    end.

(** ** [Search::DoAuxEngine]: reading the helper's output *)

(** What one turn of the [while (std::getline(...))] loop meets: the line
    read, the value [stop_.load()] has during that turn, and whether another
    thread has by then set [auxengine_stopped_[index]]. *)
Record HelperLine : Set := mkHelperLine {
  line : string;
  stop_load : bool;
  stopped_by_other : bool
}.

(** The locals of lines 785-793, the helper slot's [auxengine_stopped_]
    flag, and what the worker has done so far: the commands written to the
    helper and the calls of [AuxEncode_and_Enqueue] (line and
    [require_some_depth]), oldest first. *)
Record ReadState : Set := mkReadState {
  token : string;
  prev_line : string;
  stopping : bool;
  second_stopping : bool;
  third_stopping : bool;
  auxengine_stopped_ : bool;
  written : list string;
  encoded : list (string * bool)
}.

(** State right after [go]: the slot's flag has been cleared (line 781). *)
Definition read_init : ReadState :=
  mkReadState "" "" false false false false [] [].

Inductive ReadStep : Set :=
| Continue (st : ReadState)
| Break (st : ReadState)
| Deadlock (st : ReadState).

(** One turn of the loop, lines 795-867.  [iss >> token] leaves [token] as
    it was when the line has no (further) word.  On [bestmove info] the
    source locks [auxengine_stopped_mutex_] twice in a row. *)
Definition read_step (infinite_exploration : bool) (ev : HelperLine)
    (st : ReadState) : ReadStep :=
  let ws := String.words (line ev) in
  let token1 := match ws with t :: _ => t | [] => token st end in
  if String.eqb token1 "bestmove" then
    let token2 := match ws with _ :: t :: _ => t | _ => token1 end in
    if String.eqb token2 "info"
    then Deadlock (mkReadState token2 (prev_line st) (stopping st)
                     (second_stopping st) (third_stopping st)
                     (auxengine_stopped_ st) (written st ++ ["stop"%string])
                     (encoded st))
    else Break (mkReadState token2 (prev_line st) (stopping st)
                  (second_stopping st) (third_stopping st)
                  (auxengine_stopped_ st) (written st) (encoded st))
  else if negb (stopping st) then
    if stop_load ev then
      if negb (auxengine_stopped_ st || stopped_by_other ev)
      then Continue (mkReadState token1 (line ev) true
                       (second_stopping st) (third_stopping st)
                       true (written st ++ ["stop"%string]) (encoded st))
      else Continue (mkReadState token1 (line ev) true
                       (second_stopping st) (third_stopping st)
                       true (written st) (encoded st))
    else if String.eqb token1 "info" && infinite_exploration
    then Continue (mkReadState token1 (line ev) false
                     (second_stopping st) (third_stopping st)
                     (auxengine_stopped_ st) (written st)
                     (encoded st ++ [(line ev, true)]))
    else Continue (mkReadState token1 (line ev) false
                     (second_stopping st) (third_stopping st)
                     (auxengine_stopped_ st) (written st) (encoded st))
  else if second_stopping st
  then Continue (mkReadState token1 (line ev) true true true
                   (auxengine_stopped_ st) (written st ++ ["stop"%string])
                   (encoded st))
  else Continue (mkReadState token1 (line ev) true true (third_stopping st)
                   (auxengine_stopped_ st) (written st) (encoded st)).

(** The loop over the lines the helper sends; it ends at [break], or, with
    [Continue], when every line has been read and [getline] fails. *)
Fixpoint read_loop (infinite_exploration : bool) (evs : list HelperLine)
    (st : ReadState) : ReadStep :=
  match evs with
  | [] => Continue st
  | ev :: evs' =>
      match read_step infinite_exploration ev st with
      | Continue st' => read_loop infinite_exploration evs' st'
      | r => r
      end
  end.

Inductive QueryResult : Set :=
| Returned (st : ReadState)
| Threw (st : ReadState)
| Stuck (st : ReadState).

(** Lines 785-906: the loop, then the early returns and the final call of
    the encoder on the last line before [bestmove]. *)
Definition DoAuxEngine_read (infinite_exploration child_running : bool)
    (evs : list HelperLine) (st0 : ReadState) : QueryResult :=
  match read_loop infinite_exploration evs st0 with
  | Deadlock st => Stuck st
  | Continue st | Break st =>
      if stopping st then Returned st
      else
        let st1 := mkReadState (token st) (prev_line st) (stopping st)
                     (second_stopping st) (third_stopping st) true
                     (written st) (encoded st) in
        if String.eqb (prev_line st1) "" then Returned st1
        else if negb child_running then Threw st1
        else Returned (mkReadState (token st1) (prev_line st1) (stopping st1)
                         (second_stopping st1) (third_stopping st1) true
                         (written st1) (encoded st1 ++ [(prev_line st1, false)]))
  end.

(** The number of [stop] commands among those written. *)
Definition stops_sent (st : ReadState) : nat :=
  length (filter (fun c => c = "stop"%string) (written st)).

(** ** [Search::AuxEncode_and_Enqueue] *)

(** *** The [std::istringstream] over the helper's line

    The stream is the list of the white-space separated words still to be
    read.  A failed extraction is [None]: every later extraction fails too,
    so each loop reading the stream ends there. *)

Definition is_digit (c : ascii) : bool :=
  (48 <=? Z.of_nat (nat_of_ascii c)) && (Z.of_nat (nat_of_ascii c) <=? 57).

Definition digit_value (c : ascii) : Z := Z.of_nat (nat_of_ascii c) - 48.

(** The digits a word starts with, most significant first, and what
    follows them. *)
Fixpoint digits_prefix (w : string) : list Z * string :=
  match w with
  | EmptyString => ([], EmptyString)
  | String c r =>
      if is_digit c
      then let '(ds, rest) := digits_prefix r in (digit_value c :: ds, rest)
      else ([], w)
  end.

(** What [num_get] accepts at the start of a word for an [int]: an optional
    sign and at least one decimal digit.  The value and the rest of the
    word; [None] when there is no digit. *)
Definition parse_int_prefix (w : string) : option (Z * string) :=
  let '(negative, body) :=
    match w with
    | String c r =>
        if Ascii.eqb c "-" then (true, r)
        else if Ascii.eqb c "+" then (false, r)
        else (false, w)
    | EmptyString => (false, w)
    end in
  match digits_prefix body with
  | ([], _) => None
  | (ds, rest) =>
      let v := fold_left (fun a d => 10 * a + d) ds 0 in
      Some (if negative then - v else v, rest)
  end.

Definition INT_MAX : Z := 2147483647.
Definition INT_MIN : Z := -2147483648.

Definition ends_with_space (s : string) : bool :=
  match String.rev s with
  | String c _ => Ascii.is_space c
  | EmptyString => false
  end.

(** Whether [>> std::ws] fails once the last word of this line has been
    read: the word ended at the end of the input, so [eofbit] is set. *)
Definition ws_fails_at_end `{Externals} (pv_as_string : string) : bool :=
  ws_fails_at_eof && negb (ends_with_space pv_as_string).

(** [>> std::ws] with [toks] left to read. *)
Definition skip_ws (wsf : bool) (toks : list string) : option (list string) :=
  match toks with
  | [] => if wsf then None else Some []
  | _ :: _ => Some toks
  end.

(** [iss >> pv >> std::ws] as a loop condition: the word read and the rest
    of the stream, or [None] when the condition is false. *)
Definition next_token (wsf : bool) (toks : list string)
    : option (string * list string) :=
  match toks with
  | [] => None
  | pv :: rest => (fun r => (pv, r)) <$> skip_ws wsf rest
  end.

(** [iss >> x >> std::ws] for an [int x] holding [cur]: the value of [x]
    afterwards and the stream.  At the end of the input [x] is untouched;
    without a digit [x] becomes 0; out of range it becomes the nearest bound;
    in these three cases the stream has failed.  Otherwise the unread rest
    of the word stays in the stream. *)
Definition extract_int (wsf : bool) (cur : Z) (toks : list string)
    : Z * option (list string) :=
  match toks with
  | [] => (cur, None)
  | w :: rest =>
      match parse_int_prefix w with
      | None => (0, None)
      | Some (v, w') =>
          if INT_MAX <? v then (INT_MAX, None)
          else if v <? INT_MIN then (INT_MIN, None)
          else (v, skip_ws wsf (if String.eqb w' "" then rest else w' :: rest))
      end
  end.

Section Encoder.
Context `{Externals}.

(** The locals of the function that its loops change. *)
Record Encoder : Type := mkEncoder {
  depth_reached : Z;
  nodes_to_support : Z;
  pv_length : Z;
  flip : bool;
  my_board : ChessBoard;
  my_moves_from_the_white_side : list Move;
  pv_moves : list Z
}.

Definition max_pv_length : Z := 99.
Definition min_pv_size : Z := 4.

(** The body of the inner loop, lines 553-572, for a parsed move [m]. *)
Definition encode_move (m : Move) (e : Encoder) : Encoder :=
  let m_in_modern_encoding := GetModernMove (my_board e) m in
  mkEncoder (depth_reached e) (nodes_to_support e) (pv_length e + 1)
    (negb (flip e))
    (Mirror (ApplyMove (my_board e) m_in_modern_encoding))
    (my_moves_from_the_white_side e ++ [m_in_modern_encoding])
    (pv_moves e ++ [m_in_modern_encoding]).

(** The inner [while] of lines 550-573.  The word is read before the two
    length tests are made; [skip_ws] hands back the stream unchanged when it
    does not fail. *)
Fixpoint pv_loop (wsf : bool) (toks : list string) (e : Encoder)
    : Encoder * option (list string) :=
  match toks with
  | [] => (e, None)
  | pv :: rest =>
      match skip_ws wsf rest with
      | None => (e, None)
      | Some _ =>
          if (pv_length e <? depth_reached e) && (pv_length e <? max_pv_length)
          then
            match ParseMove pv (negb (flip e)) with
            | None => (e, Some rest)
            | Some m => pv_loop wsf rest (encode_move m e)
            end
          else (e, Some rest)
      end
  end.

Definition set_depth_reached (v : Z) (e : Encoder) : Encoder :=
  mkEncoder v (nodes_to_support e) (pv_length e) (flip e) (my_board e)
    (my_moves_from_the_white_side e) (pv_moves e).

Definition set_nodes_to_support (v : Z) (e : Encoder) : Encoder :=
  mkEncoder (depth_reached e) v (pv_length e) (flip e) (my_board e)
    (my_moves_from_the_white_side e) (pv_moves e).

(** How the outer loop ends: the line is "not for us" ([return] on the word
    [string]) or the stream is exhausted. *)
Inductive ParseEnd : Type :=
| NotForUs
| Parsed (e : Encoder).

(** The outer [while] of lines 525-575; each turn reads at least one word,
    [fuel] bounds the number of turns ([None] when it is used up).  The
    tests on [pv] are written as separate [if]s in the source; [pv] does not
    change in between, so at most one of them holds. *)
Fixpoint encode_loop (fuel : nat) (wsf require_some_depth : bool)
    (toks : list string) (e : Encoder) : option ParseEnd :=
  match fuel with
  | O => None
  | S fuel' =>
      match next_token wsf toks with
      | None => Some (Parsed e)
      | Some (pv, rest) =>
          if String.eqb pv "info" then
            encode_loop fuel' wsf require_some_depth rest e
          else if String.eqb pv "string" then Some NotForUs
          else if String.eqb pv "depth" then
            let '(v, o) := extract_int wsf (depth_reached e) rest in
            match o with
            | None => Some (Parsed (set_depth_reached v e))
            | Some rest' =>
                encode_loop fuel' wsf require_some_depth rest'
                  (set_depth_reached v e)
            end
          else if String.eqb pv "nodes" then
            let '(v, o) := extract_int wsf (nodes_to_support e) rest in
            match o with
            | None => Some (Parsed (set_nodes_to_support v e))
            | Some rest' =>
                encode_loop fuel' wsf require_some_depth rest'
                  (set_nodes_to_support v e)
            end
          else if String.eqb pv "pv"
                  && (negb require_some_depth
                      || (1000 <=? nodes_to_support e)
                      || (10 <? depth_reached e)) then
            let '(e', o) := pv_loop wsf rest e in
            match o with
            | None => Some (Parsed e')
            | Some rest' => encode_loop fuel' wsf require_some_depth rest' e'
            end
          else encode_loop fuel' wsf require_some_depth rest e
      end
  end.

(** Lines 500-575: the locals as initialised, then the loop over the words
    of the line. *)
Definition encode_line (s : Search) (pv_as_string : string) (depth : Z)
    (board : ChessBoard) (moves : list Move) (require_some_depth : bool)
    : option ParseEnd :=
  let toks := String.words pv_as_string in
  encode_loop (S (length toks)) (ws_fails_at_end pv_as_string)
    require_some_depth toks
    (mkEncoder 0 0 1
       (xorb (played_history_IsBlackToMove s) (Z.rem depth 2 =? 0))
       board moves []).

(** Lines 582-586: the moves as decimal integers, separated by commas. *)
Definition pv_key (moves : list Z) : string :=
  String.concat "," (map pretty moves).

(** Lines 579-631: the cache probe and the push onto the three queues. *)
Definition enqueue_pv (depth : Z) (e : Encoder) (s : Search) : Search :=
  if min_pv_size <=? size (pv_moves e) then
    match my_pv_cache_ s !! pv_key (pv_moves e) with
    | Some _ => s
    | None =>
        let s1 := with_pv_cache (<[pv_key (pv_moves e) := true]> (my_pv_cache_ s)) s in
        if size (fast_track_extend_and_evaluate_queue_ s1) <? 20000 then
          with_pv_side_queues
            (starting_depth_of_PVs_ s1 ++ [depth])
            (amount_of_support_for_PVs_ s1 ++ [nodes_to_support e])
            (with_pv_queue
               (fast_track_extend_and_evaluate_queue_ s1
                  ++ [my_moves_from_the_white_side e]) s1)
        else s1
    end
  else s.

(** [Search::AuxEncode_and_Enqueue].  [my_position], [source] and [thread]
    only feed log messages and are left out. *)
Definition AuxEncode_and_Enqueue (pv_as_string : string) (depth : Z)
    (board : ChessBoard) (moves : list Move) (require_some_depth : bool)
    (s : Search) : Search :=
  if stop_ s then s
  else
    match encode_line s pv_as_string depth board moves require_some_depth with
    | Some (Parsed e) => enqueue_pv depth e s
    | Some NotForUs | None => s
    end.

End Encoder.

End AuxEngine.

(* ===================================================================== *)
(** * Concrete inputs                                                     *)
(* ===================================================================== *)

Module Samples.
Import Position AuxEngine.

(** ** A game history on which the fifty-move counter has run out

    101 positions; white moves first.  Every position has at least ten legal
    moves, except the one before last: black to move, in check, with [L]
    legal moves.  In the last position white is to move and
    [rule50_ply = 100]. *)
Definition quiet_position (i : nat) : Position :=
  mkPosition 20 false (Z.of_nat i) (Nat.odd i) 0.

Definition squeezed_history (L : nat) (in_check : bool) : PositionHistory :=
  map quiet_position (seq 0 99)
    ++ [mkPosition L in_check 99 true 0; mkPosition 20 false 100 false 0].

(** ** Moves in coordinate notation

    A stand-in for chess/bitboard.h: squares are numbered
    [file + 8 * rank], a move is packed as [to + 64 * from], and the move is
    seen from the other side by mirroring both ranks. *)
Definition square_of (f r : ascii) : option Z :=
  let fi := Z.of_nat (nat_of_ascii f) - 97 in
  let ri := Z.of_nat (nat_of_ascii r) - 49 in
  if (0 <=? fi) && (fi <? 8) && (0 <=? ri) && (ri <? 8)
  then Some (fi + 8 * ri) else None.

Definition mirror_move (m : Move) : Move := Z.lxor m 0xe38.

Definition parse_coordinates (w : string) (black_to_move : bool) : option Move :=
  match w with
  | String f1 (String r1 (String f2 (String r2 EmptyString))) =>
      match square_of f1 r1, square_of f2 r2 with
      | Some from, Some to =>
          let m := to + 64 * from in
          Some (if black_to_move then mirror_move m else m)
      | _, _ => None
      end
  | _ => None
  end.

Definition square_name (sq : Z) : string :=
  String (ascii_of_nat (Z.to_nat (97 + sq mod 8)))
    (String (ascii_of_nat (Z.to_nat (49 + sq / 8))) EmptyString).

Definition coordinates (m : Move) : string :=
  String.append (square_name ((m / 64) mod 64)) (square_name (m mod 64)).

#[export] Instance coordinate_externals : Externals := {|
  ChessBoard := unit;
  ParseMove := parse_coordinates;
  as_string := coordinates;
  Edge_GetMove := fun m as_opponent => if as_opponent then mirror_move m else m;
  GetModernMove := fun _ m => m;
  ApplyMove := fun b _ => b;
  Mirror := fun b => b;
  ws_fails_at_eof := false
|}.

Definition e2e4 : Move := 28 + 64 * 12.
Definition e7e5 : Move := 36 + 64 * 52.
Definition g1f3 : Move := 21 + 64 * 6.
Definition b8c6 : Move := 42 + 64 * 57.

Definition c7c5 : Move := 34 + 64 * 50.

(** ** A small tree: root 1, its children 2 (by e2e4) and 3 (by g1f3);
    under 2 the replies 4 (by e7e5) and 7 (by c7c5); 5 under 3, 6 under 4 and
    8 under 7. *)
Definition node1 : Node := mkNode 1 None None.
Definition node2 : Node := mkNode 2 (Some node1) (Some e2e4).
Definition node3 : Node := mkNode 3 (Some node1) (Some g1f3).
Definition node4 : Node := mkNode 4 (Some node2) (Some e7e5).
Definition node5 : Node := mkNode 5 (Some node3) (Some e7e5).
Definition node6 : Node := mkNode 6 (Some node4) (Some g1f3).
Definition node7 : Node := mkNode 7 (Some node2) (Some c7c5).
Definition node8 : Node := mkNode 8 (Some node7) (Some g1f3).

(** 15,000 further nodes below node 6: 150 children, each with 100
    children of its own; the latter are the ones listed. *)
Definition deep_child (i : nat) : Node :=
  mkNode (Z.to_pos (1000 + Z.of_nat i)) (Some node6) (Some (Z.of_nat i)).
Definition deep_grandchild (i j : nat) : Node :=
  mkNode (Z.to_pos (100000 + 100 * Z.of_nat i + Z.of_nat j))
    (Some (deep_child i)) (Some (Z.of_nat j)).
Definition deep_nodes : list Node :=
  flat_map (fun i => map (deep_grandchild i) (seq 0 100)) (seq 0 150).

(** A search in progress at root 1, white to move, nothing queued. *)
Definition idle_search : Search :=
  mkSearch false node1 e2e4 false 2 false 0 0 ∅ [] [] [] [] ∅.

(** The same with the node queue at its cap of 15,000 entries. *)
Definition full_search : Search :=
  with_node_queue deep_nodes idle_search.

(** After the search: nodes 6, 8 and 5 are queued and tagged pending, and
    the move played is e2e4. *)
Definition pending_tags : gmap positive Z :=
  <[6%positive := PENDING]>
    (<[8%positive := PENDING]> (<[5%positive := PENDING]> ∅)).

Definition finished_search : Search :=
  with_node_queue [node6; node8; node5]
    (with_aux_engine_move pending_tags idle_search).

(** At the start of the next move: the queue holds the pairs the purge of
    [finished_search] left; the opponent has replied e7e5, which makes node 4
    the root, so the witness of node 6 is the root and that of node 8, node
    7, is not. *)
Definition next_move_search : Search :=
  mkSearch false node4 e7e5 false 2 false 4 0 pending_tags
    [node6; node4; node8; node7]
    [[e7e5; g1f3; b8c6]; [g1f3; e7e5]] [2; 1] [5000; 4000] ∅.

(** A PV queue holding one line that starts with the move played. *)
Definition pv_search : Search :=
  with_pv_side_queues [0] [5000]
    (with_pv_queue [[e2e4; e7e5; g1f3; b8c6]] idle_search).

(** The PV queue at its cap: 20,000 lines that differ in their last move. *)
Fixpoint numbered_lines (n : nat) (last : Z) : list (list Move) :=
  match n with
  | O => []
  | S n' => [g1f3; e7e5; e2e4; last] :: numbered_lines n' (last + 1)
  end.

Definition pv_full_search : Search :=
  with_pv_queue (numbered_lines (Z.to_nat 20000) 0) idle_search.

Definition info_line : string :=
  "info depth 20 nodes 5000 pv e2e4 e7e5 g1f3 b8c6".

(** What a helper sends when it is stopped in mid-search but goes on for
    a while: the worker sees the stop flag while taking the second line. *)
Definition line1 : HelperLine :=
  mkHelperLine "info depth 1 nodes 20 pv e2e4" false false.
Definition line2 : HelperLine :=
  mkHelperLine "info depth 2 nodes 60 pv e2e4 e7e5" true false.
Definition line3 : HelperLine :=
  mkHelperLine "info depth 3 nodes 150 pv e2e4 e7e5 g1f3" true false.
Definition line4 : HelperLine :=
  mkHelperLine "info depth 4 nodes 400 pv e2e4 e7e5 g1f3 b8c6" true false.
Definition line5 : HelperLine :=
  mkHelperLine "bestmove e2e4 ponder e7e5" true false.

(** The second line again, with the slot's flag already set by the thread
    that stopped the search. *)
Definition line2_stopped : HelperLine :=
  mkHelperLine "info depth 2 nodes 60 pv e2e4 e7e5" true true.

End Samples.

(* ===================================================================== *)
(** * Vocabulary of the statements                                        *)
(* ===================================================================== *)

Module Vocabulary.
Import AuxEngine.

(** A queue of (target, witness) pairs as [std::queue<Node*>] stores it:
    the target on an even place, its witness right behind it. *)
Definition flatten_pairs (pairs : list (Node * Node)) : list Node :=
  flat_map (fun p => [fst p; snd p]) pairs.

(** The targets of the pairs whose witness is the node [root]. *)
Definition targets_witnessed_by (root : Node) (pairs : list (Node * Node))
    : list Node :=
  map fst (filter (fun p => ptr_eqb (snd p) root = true) pairs).

(** The first and the second word of a line of the helper. *)
Definition first_word (l : string) : option string := String.words l !! 0%nat.
Definition second_word (l : string) : option string := String.words l !! 1%nat.

(** A line other than [bestmove ...]. *)
Definition not_bestmove (ev : HelperLine) : Prop :=
  first_word (line ev) <> Some "bestmove"%string.

(** The characters an integer can start with, and a word without them. *)
Definition is_int_char (c : ascii) : bool :=
  is_digit c || Ascii.eqb c "+" || Ascii.eqb c "-".

Fixpoint strip_int_chars (w : string) : string :=
  match w with
  | EmptyString => EmptyString
  | String c r => if is_int_char c then strip_int_chars r else w
  end.

(** A word that is read as the keyword [depth], at once or after an
    integer glued in front of it has been extracted. *)
Definition reports_depth (w : string) : bool :=
  String.eqb (strip_int_chars w) "depth".

(** How often a line reports a depth. *)
Fixpoint depth_reports (toks : list string) : nat :=
  match toks with
  | [] => 0
  | w :: toks' => (if reports_depth w then 1 else 0) + depth_reports toks'
  end.

(** What the loops of the encoder keep true of its locals, [moves] being
    the moves from the root to the target that the caller passed in: the
    encoded moves are one fewer than [pv_length], fewer than 99, and were
    appended to [moves]; and, when [with_depth] is set, no move was encoded
    at or beyond [depth_reached]. *)
Definition encoder_inv `{Externals} (with_depth : bool) (moves : list Move)
    (e : Encoder) : Prop :=
  size (pv_moves e) + 1 = pv_length e
  /\ pv_length e <= max_pv_length
  /\ my_moves_from_the_white_side e = moves ++ pv_moves e
  /\ (with_depth = true -> pv_length e = 1 \/ pv_length e <= depth_reached e).

(** When [with_depth] is set: the rest of the line reports a depth at most
    once, and no depth has been read as long as one is still to come. *)
Definition depth_pending `{Externals} (with_depth : bool) (toks : list string)
    (e : Encoder) : Prop :=
  with_depth = true ->
  (depth_reports toks <= 1)%nat
  /\ (depth_reports toks = 1%nat -> depth_reached e = 0).

(** Before the stop flag has been seen nothing was written to the helper,
    and the word in [token] is never [bestmove] when a turn begins. *)
Definition quiet (st : ReadState) : Prop :=
  token st <> "bestmove"%string
  /\ (stopping st = false ->
      second_stopping st = false /\ written st = []
      /\ auxengine_stopped_ st = false).

(** The caps of the two queues. *)
Definition node_queue_bounded (s : Search) : Prop :=
  size (persistent_queue_of_nodes s) <= 15000.
Definition pv_queue_bounded (s : Search) : Prop :=
  size (fast_track_extend_and_evaluate_queue_ s) <= 20000.

End Vocabulary.

(* ===================================================================== *)
(** * chess/position.cc: the history and the FEN                          *)
(* ===================================================================== *)

Module History.
Import AuxEngine.

(** What position.cc uses of chess/board.h, chess/bitboard.h and
    utils/hashcat.h, none of which is under src/: taken as an interface. *)
Class BoardOps : Type := {
  Board : Type;
  (** [ChessBoard::operator==] *)
  board_eqb : Board -> Board -> bool;
  (** [ChessBoard::ApplyMove]: the board afterwards and the value returned,
      whether the move resets the fifty-move counter *)
  Board_ApplyMove : Board -> Move -> Board * bool;
  Board_Mirror : Board -> Board;
  Board_Hash : Board -> Z;
  (** [HashCat(uint64_t, uint64_t)] and [HashCat(std::initializer_list)] *)
  HashCat : Z -> Z -> Z;
  HashCat_list : list Z -> Z;
  (** the size of [GenerateLegalMoves()], [IsUnderCheck()], [flipped()] *)
  GenerateLegalMoves_size : Board -> nat;
  Board_IsUnderCheck : Board -> bool;
  flipped : Board -> bool;
  (** [ours().get(row, col)] and the like *)
  ours : Board -> Z -> Z -> bool;
  theirs : Board -> Z -> Z -> bool;
  pawns : Board -> Z -> Z -> bool;
  kings : Board -> Z -> Z -> bool;
  bishops : Board -> Z -> Z -> bool;
  queens : Board -> Z -> Z -> bool;
  rooks : Board -> Z -> Z -> bool;
  (** the column of [*en_passant().begin()], [None] when [en_passant()] is
      empty *)
  en_passant_col : Board -> option Z;
  (** [castlings().as_string()] and [BoardSquare(row, col).as_string()] *)
  castlings_as_string : Board -> string;
  BoardSquare_as_string : Z -> Z -> string
}.

Section WithBoards.
Context `{BoardOps}.

(** The members of [Position]. *)
Record HPosition : Type := mkHPosition {
  us_board_ : Board;
  them_board_ : Board;
  rule50_ply_ : Z;
  repetitions_ : Z;
  cycle_length_ : Z;
  ply_count_ : Z
}.

(** [Position::Position(const Position& parent, Move m)] (lines 66-73).
    The constructor does not set [repetitions_] and [cycle_length_];
    [Append] stores them before anything reads them, they are 0 here. *)
Definition Position_after (parent : HPosition) (m : Move) : HPosition :=
  let '(them, is_zeroing) := Board_ApplyMove (us_board_ parent) m in
  mkHPosition (Board_Mirror them) them
    (if is_zeroing then 0 else rule50_ply_ parent + 1)
    0 0 (ply_count_ parent + 1).

(** [Position::Position(const ChessBoard& board, int rule50_ply,
    int game_ply)] (lines 75-80); [cycle_length_] is not set here either. *)
Definition Position_of_board (board : Board) (rule50_ply game_ply : Z)
    : HPosition :=
  mkHPosition board (Board_Mirror board) rule50_ply 0 0 game_ply.

(** [Position::Hash] (lines 82-84). *)
Definition Position_Hash (p : HPosition) : Z :=
  HashCat_list [Board_Hash (us_board_ p); repetitions_ p mod 2 ^ 64].

(** The [for] of lines 313-320, entered with [idx]; the result is the
    value returned and the value left in [*cycle_length].  [fuel] bounds the
    number of turns. *)
Fixpoint repetitions_loop (fuel : nat) (h : list HPosition) (last : HPosition)
    (idx : Z) : option (Z * Z) :=
  match fuel with
  | O => None
  | S fuel' =>
      if idx <? 0 then Some (0, 0)
      else
        match h !! Z.to_nat idx with
        | None => None
        | Some pos =>
            if board_eqb (us_board_ pos) (us_board_ last)
            then Some (1 + repetitions_ pos, Z.of_nat (length h) - 1 - idx)
            else if rule50_ply_ pos <? 2 then Some (0, 0)
            else repetitions_loop fuel' h last (idx - 2)
        end
  end.

(** [PositionHistory::ComputeLastMoveRepetitions] (lines 307-322); [None]
    for [positions_.back()] of an empty vector. *)
Definition ComputeLastMoveRepetitions (h : list HPosition) : option (Z * Z) :=
  match last h with
  | None => None
  | Some l =>
      if rule50_ply_ l <? 4 then Some (0, 0)
      else repetitions_loop (S (length h)) h l (Z.of_nat (length h) - 3)
  end.

(** [Position::SetRepetitions]. *)
Definition SetRepetitions (repetitions cycle_length : Z) (p : HPosition)
    : HPosition :=
  mkHPosition (us_board_ p) (them_board_ p) (rule50_ply_ p)
    repetitions cycle_length (ply_count_ p).

(** [PositionHistory::Reset] (lines 291-295). *)
Definition Reset (board : Board) (rule50_ply game_ply : Z) : list HPosition :=
  [Position_of_board board rule50_ply game_ply].

(** [PositionHistory::Append] (lines 297-305); [None] for [Last()] of an
    empty history. *)
Definition Append (m : Move) (h : list HPosition) : option (list HPosition) :=
  match last h with
  | None => None
  | Some l =>
      let h1 := h ++ [Position_after l m] in
      match ComputeLastMoveRepetitions h1 with
      | None => None
      | Some (repetitions, cycle_length) =>
          Some (h ++ [SetRepetitions repetitions cycle_length
                        (Position_after l m)])
      end
  end.

(** The loop of lines 325-329 over the positions, last first. *)
Fixpoint did_repeat_scan (rs : list HPosition) : bool :=
  match rs with
  | [] => false
  | p :: rs' =>
      if 0 <? repetitions_ p then true
      else if rule50_ply_ p =? 0 then false
      else did_repeat_scan rs'
  end.

(** [PositionHistory::DidRepeatSinceLastZeroingMove] (lines 324-331). *)
Definition DidRepeatSinceLastZeroingMove (h : list HPosition) : bool :=
  did_repeat_scan (rev h).

(** The loop of lines 335-339 over the positions, last first:
    [if (!positions--) break;] then the hash is extended. *)
Fixpoint hash_scan (rs : list HPosition) (positions hash : Z) : Z :=
  match rs with
  | [] => hash
  | p :: rs' =>
      if positions =? 0 then hash
      else hash_scan rs' (positions - 1) (HashCat hash (Position_Hash p))
  end.

(** [PositionHistory::HashLast] (lines 333-341). *)
Definition HashLast (h : list HPosition) (positions : Z) : option Z :=
  match last h with
  | None => None
  | Some l =>
      Some (HashCat (hash_scan (rev h) positions (positions mod 2 ^ 64))
              (rule50_ply_ l))
  end.

(** A game as it is recorded: [Reset], then one [Append] per move. *)
Fixpoint Append_all (moves : list Move) (h : list HPosition)
    : option (list HPosition) :=
  match moves with
  | [] => Some h
  | m :: moves' =>
      match Append m h with
      | None => None
      | Some h' => Append_all moves' h'
      end
  end.

Definition play (board : Board) (rule50_ply game_ply : Z) (moves : list Move)
    : option (list HPosition) :=
  Append_all moves (Reset board rule50_ply game_ply).

(** The number of positions before index [i] whose board equals that of
    [p]. *)
Definition equal_boards_before (h : list HPosition) (i : nat) (p : HPosition)
    : Z :=
  Z.of_nat
    (length (List.filter (fun q => board_eqb (us_board_ q) (us_board_ p))
               (take i h))).

(** What the R-mobility classifier reads of a position; [GetBoard()] is
    [us_board_] and [IsBlackToMove()] is [us_board_.flipped()]. *)
Definition observe (p : HPosition) : Position.Position :=
  Position.mkPosition (GenerateLegalMoves_size (us_board_ p))
    (Board_IsUnderCheck (us_board_ p)) (rule50_ply_ p)
    (flipped (us_board_ p)) (repetitions_ p).

(** ** [GetFen] *)

Definition NUL : ascii := "000"%char.

(** [std::tolower] on the capitals [GetPieceAt] produces. *)
Definition tolower (c : ascii) : ascii :=
  let n := nat_of_ascii c in
  if (Nat.leb 65 n && Nat.leb n 90)%bool then ascii_of_nat (n + 32) else c.

(** [GetPieceAt] (lines 40-61). *)
Definition GetPieceAt (board : Board) (row col : Z) : ascii :=
  if ours board row col || theirs board row col then
    let c :=
      if pawns board row col then "P"%char
      else if kings board row col then "K"%char
      else if bishops board row col then "B"%char
      else if queens board row col then "Q"%char
      else if rooks board row col then "R"%char
      else "N"%char in
    if theirs board row col then tolower c else c
  else NUL.

Definition is_NUL (c : ascii) : bool := Ascii.eqb c NUL.

(** The inner [for] of lines 348-359 over the squares still to come in the
    row, with [emptycounter] and [result] as they stand. *)
Fixpoint fen_row_loop (squares : list ascii) (emptycounter : Z)
    (result : string) : Z * string :=
  match squares with
  | [] => (emptycounter, result)
  | piece :: squares' =>
      let '(emptycounter1, result1) :=
        if (0 <? emptycounter) && negb (is_NUL piece)
        then (0, String.append result (pretty emptycounter))
        else (emptycounter, result) in
      if negb (is_NUL piece)
      then fen_row_loop squares' emptycounter1
             (String.append result1 (String piece EmptyString))
      else fen_row_loop squares' (emptycounter1 + 1) result1
  end.

(** One turn of the outer [for] (lines 347-361), for the squares of one
    row: the text it appends to [result], the [/] apart. *)
Definition fen_row (squares : list ascii) : string :=
  let '(emptycounter, result) := fen_row_loop squares 0 EmptyString in
  if 0 <? emptycounter then String.append result (pretty emptycounter)
  else result.

Definition row_squares (board : Board) (row : Z) : list ascii :=
  map (GetPieceAt board row) [0; 1; 2; 3; 4; 5; 6; 7].

(** The piece placement, rows 7 down to 0 with [/] in between. *)
Definition fen_placement (board : Board) : string :=
  String.concat "/"
    (map (fun row => fen_row (row_squares board row)) [7; 6; 5; 4; 3; 2; 1; 0]).

(** [GetFen] (lines 343-375) of a position whose [GetWhiteBoard()],
    [IsBlackToMove()], [GetRule50Ply()] and [GetGamePly()] are given. *)
Definition GetFen (board : Board) (IsBlackToMove : bool)
    (GetRule50Ply GetGamePly : Z) : string :=
  let enpassant :=
    match en_passant_col board with
    | None => "-"%string
    | Some col => BoardSquare_as_string (if IsBlackToMove then 2 else 5) col
    end in
  String.concat ""
    [fen_placement board;
     if IsBlackToMove then " b" else " w";
     " "; castlings_as_string board;
     " "; enpassant;
     " "; pretty GetRule50Ply;
     " "; pretty (Z.quot (GetGamePly + (if IsBlackToMove then 1 else 2)) 2)]%string.

End WithBoards.

(** Reading a piece-placement row back: a digit stands for that many empty
    squares, any other character for itself.  The sources have no such
    function; it serves to state what [GetFen] preserves. *)
Fixpoint expand_fen_row (row : string) : list ascii :=
  match row with
  | EmptyString => []
  | String c row' =>
      (if is_digit c then repeat "000"%char (Z.to_nat (digit_value c)) else [c])
        ++ expand_fen_row row'
  end.

End History.

(* ===================================================================== *)
(** * Sample boards                                                       *)
(* ===================================================================== *)

Module BoardSamples.
Import AuxEngine History.

(** A stand-in for chess/board.h: a board is a number, a move is added to
    it, moves of 100 and more reset the fifty-move counter, and mirroring
    changes nothing.  The piece placement is that of the initial position
    whatever the number. *)
#[export] Instance counter_boards : BoardOps := {
  Board := Z;
  board_eqb := Z.eqb;
  Board_ApplyMove := fun b m => (b + m, 100 <=? m);
  Board_Mirror := fun b => b;
  Board_Hash := fun b => b;
  HashCat := fun a b => 31 * a + b;
  HashCat_list := fun l => fold_left (fun a b => 31 * a + b) l 0;
  GenerateLegalMoves_size := fun _ => 20%nat;
  Board_IsUnderCheck := fun _ => false;
  flipped := Z.odd;
  ours := fun _ row _ => row <? 2;
  theirs := fun _ row _ => 5 <? row;
  pawns := fun _ row _ => (row =? 1) || (row =? 6);
  kings := fun _ _ col => col =? 4;
  bishops := fun _ _ col => (col =? 2) || (col =? 5);
  queens := fun _ _ col => col =? 3;
  rooks := fun _ _ col => (col =? 0) || (col =? 7);
  en_passant_col := fun _ => None;
  castlings_as_string := fun _ => "KQkq"%string;
  BoardSquare_as_string := fun _ _ => "a1"%string
}.

(** The position of board [b] with the given counters. *)
Definition position (b rule50_ply repetitions cycle_length game_ply : Z)
    : HPosition :=
  @mkHPosition counter_boards b b rule50_ply repetitions cycle_length game_ply.

(** Four moves that bring the first board back. *)
Definition round_trip : list Move := [1; 2; -1; -2].

(** The game in which they are played twice: nine positions, the first
    board three times. *)
Definition repeated_history : list HPosition :=
  default [] (play 0 0 0 (round_trip ++ round_trip)).

End BoardSamples.

(* ===================================================================== *)
(** * mcts/auxengine.cc: the helper threads                                *)
(* ===================================================================== *)

Module Worker.
Import AuxEngine.

Definition with_stop (b : bool) (s : Search) : Search :=
  mkSearch b (root_node_ s) (final_bestmove_ s)
    (played_history_IsBlackToMove s) (AuxEngineMaxDepth s) (final_purge_run s)
    (size_of_queue_at_start s) (number_of_times_called_AuxMaybeEnqueueNode_ s)
    (aux_engine_move s) (persistent_queue_of_nodes s)
    (fast_track_extend_and_evaluate_queue_ s) (starting_depth_of_PVs_ s)
    (amount_of_support_for_PVs_ s) (my_pv_cache_ s).

(** ** Starting the helper: the options and the handshake *)

(** A [std::istringstream] read with [std::getline]: the characters not yet
    extracted and two of the state bits. *)
Record IStream : Set := mkIStream {
  buffer : string;
  eofbit : bool;
  failbit : bool
}.

Definition good (iss : IStream) : bool := negb (eofbit iss) && negb (failbit iss).

(** The characters before the first [delim], and what follows it when
    there is one. *)
Fixpoint split_at_delim (delim : ascii) (s : string) : string * option string :=
  match s with
  | EmptyString => (EmptyString, None)
  | String c r =>
      if Ascii.eqb c delim then (EmptyString, Some r)
      else let '(a, b) := split_at_delim delim r in (String c a, b)
  end.

(** [std::getline(iss, token, delim)]: the stream and [token] afterwards.
    On a stream that is not good the sentry sets [failbit] and [token] is
    left alone; otherwise [token] is erased and filled up to [delim], which
    is extracted and dropped, or up to the end, which sets [eofbit];
    [failbit] is set when nothing at all was extracted. *)
Definition getline (delim : ascii) (iss : IStream) (token : string)
    : IStream * string :=
  if good iss then
    match split_at_delim delim (buffer iss) with
    | (t, Some rest) => (mkIStream rest false false, t)
    | (t, None) => (mkIStream EmptyString true (String.eqb t ""), t)
    end
  else (mkIStream (buffer iss) (eofbit iss) true, token).

(** The [while] of lines 172-180: the commands written so far are [out];
    [fuel] bounds the number of turns. *)
Fixpoint setoption_loop (fuel : nat) (iss : IStream) (token : string)
    (out : list string) : option (list string) :=
  match fuel with
  | O => None
  | S fuel' =>
      let '(iss1, token1) := getline "=" iss token in
      if failbit iss1 then Some out
      else
        let '(iss2, token2) := getline ";" iss1 token1 in
        setoption_loop fuel' iss2 token2
          (out ++ [String.concat ""
                     ["setoption name "; token1; " value "; token2]])
  end.

(** Lines 170-183: what the worker writes to a helper it has just
    started, [bar] being the option string chosen on lines 162-169. *)
Definition send_options (bar : string) : option (list string) :=
  (fun out => out ++ ["uci"%string])
    <$> setoption_loop (S (String.length bar)) (mkIStream bar false false)
          EmptyString [].

(** One turn of the [while] of lines 186-207: whether it ends with [break]
    and what it writes.  [syzygy_paths] is [syzygy_tb_->get_paths()], [None]
    for a null [syzygy_tb_].  An extraction that finds no word leaves [token]
    as it was. *)
Definition handshake_step (syzygy_paths : option string) (l : string)
    : bool * list string :=
  let ws := String.words l in
  let token1 := match ws with t :: _ => t | [] => EmptyString end in
  if String.eqb token1 "uciok" then (true, [])
  else if String.eqb token1 "option" then
    let token2 := match ws with _ :: t :: _ => t | _ => token1 end in
    if String.eqb token2 "name" then
      let token3 := match ws with _ :: _ :: t :: _ => t | _ => token2 end in
      match syzygy_paths with
      | Some paths =>
          if String.eqb token3 "SyzygyPath"
          then (false, [String.append "setoption name SyzygyPath value " paths])
          else (false, [])
      | None => (false, [])
      end
    else (false, [])
  else (false, []).

(** The loop over the lines the helper sends: what is written, and the
    lines left unread when the loop ends. *)
Fixpoint handshake (syzygy_paths : option string) (lines : list string)
    : list string * list string :=
  match lines with
  | [] => ([], [])
  | l :: lines' =>
      let '(stop, out) := handshake_step syzygy_paths l in
      if stop then (out, lines')
      else let '(out', rest) := handshake syzygy_paths lines' in
           (out ++ out', rest)
  end.

(** ** The main loop of a helper thread *)









(** ** What [Search::AuxWait] waits for and records *)

(** How a helper thread ends: it returns from [AuxEngineWorker], or its
    [join] never returns, because the thread waits for a line of its helper
    or for a mutex it holds itself. *)
Inductive ThreadEnd : Set :=
| Returns
| Hangs.

(** What becomes of a mutex [AuxWait] asks for: the threads that hold it,
    if any, release it, or one of them keeps it for ever. *)
Inductive MutexEnd : Set :=
| Released
| Kept.

(** The five mutexes [AuxWait] locks, in the order in which it first asks
    for them. *)
Record Mutexes : Set := mkMutexes {
  threads_mutex_ : MutexEnd;
  my_pv_cache_mutex_ : MutexEnd;
  auxengine_mutex_ : MutexEnd;
  pure_stats_mutex_ : MutexEnd;
  fast_track_extend_and_evaluate_queue_mutex_ : MutexEnd
}.

(** The [while] of lines 912-916 over the threads in the order in which
    they are joined, each one under [threads_mutex_]: whether it comes to an
    end.  Without a thread the mutex is not asked for. *)
Fixpoint join_all (mutex : MutexEnd) (threads : list ThreadEnd) : bool :=
  match threads with
  | [] => true
  | t :: threads' =>
      match mutex, t with
      | Released, Returns => join_all mutex threads'
      | _, _ => false
      end
  end.

(** Whether the four [lock()]s of lines 920, 926, 1016 and 1023 all
    return. *)
Definition locks_return (m : Mutexes) : bool :=
  match my_pv_cache_mutex_ m, auxengine_mutex_ m, pure_stats_mutex_ m,
        fast_track_extend_and_evaluate_queue_mutex_ m with
  | Released, Released, Released, Released => true
  | _, _, _, _ => false
  end.

(** The members of [SearchStats] that [AuxWait] writes. *)
Record AuxStats : Set := mkAuxStats {
  AuxEngineQueueSizeAtMoveSelectionTime : Z;
  AuxEngineQueueSizeAfterPurging : Z;
  Total_number_of_nodes : Z;
  Number_of_nodes_added_by_AuxEngine : Z;
  initial_purge_run : bool
}.

(** How a call of [AuxWait] ends: it never returns, it runs into undefined
    behaviour, or it returns with the statistics and the shared state. *)
Inductive AuxWaitEnd : Type :=
| Blocked
| Undefined
| Finished (st : AuxStats) (s : Search).

(** ** [Search::DoAuxEngine]: the moves from the root to the node *)

Section Moves.
Context `{Externals}.

(** The [for] of lines 727-731, entered at [n2] with [flip]: the two
    vectors in the order of the [push_back]s; [None] when a null parent or
    a null edge is dereferenced. *)
Fixpoint collect_moves (root n2 : Node) (flip : bool)
    : option (list Move * list Move) :=
  if ptr_eqb n2 root then Some ([], [])
  else
    match n2 with
    | mkNode _ (Some p) (Some mv) =>
        (fun r => (Edge_GetMove mv flip :: fst r, Edge_GetMove mv false :: snd r))
          <$> collect_moves root p (negb flip)
    | _ => None
    end.

(** Lines 710-738: [my_moves] and [my_moves_from_the_white_side] once
    reversed, for a node at [depth] below the root. *)
Definition DoAuxEngine_moves (s : Search) (n : Node) (depth : Z)
    : option (list Move * list Move) :=
  let flip := xorb (played_history_IsBlackToMove s) (Z.rem depth 2 =? 0) in
  (fun r => (rev (fst r), rev (snd r)))
    <$> collect_moves (root_node_ s) n flip.

(** The stored moves of the edges on the way from the root down to the
    node, the root's own edge left out.  It only serves to state what
    [DoAuxEngine_moves] collects. *)
Fixpoint edges_below (root n : Node) : option (list Move) :=
  if ptr_eqb n root then Some []
  else
    match n with
    | mkNode _ (Some p) (Some mv) =>
        (fun es => es ++ [mv]) <$> edges_below root p
    | _ => None
    end.

(** ** [Search::AuxWait] as a whole *)

(** Lines 919-1058, once the threads have been joined.  [GetN] is
    [root_node_->GetN()] and [auxengine_num_updates] the member of that name;
    the two sums they enter are only logged before they are reset. *)
Definition AuxWait_after_join (GetN auxengine_num_updates : Z)
    (st : AuxStats) (s : Search) : option (AuxStats * Search) :=
  let s1 := with_pv_cache ∅ s in
  let at_selection := size (persistent_queue_of_nodes s1) in
  let total := GetN - Total_number_of_nodes st in
  let s2 := AuxWait_purge_nodes s1 in
  let after_purging :=
    if 0 <? size (persistent_queue_of_nodes s1)
    then size (AuxWait_node_loop s1 (persistent_queue_of_nodes s1)) / 2
    else AuxEngineQueueSizeAfterPurging st in
  let added := Number_of_nodes_added_by_AuxEngine st + auxengine_num_updates in
  let st1 := mkAuxStats at_selection after_purging total added
               (initial_purge_run st) in
  let st2 := mkAuxStats (AuxEngineQueueSizeAtMoveSelectionTime st1)
               (AuxEngineQueueSizeAfterPurging st1) 0 0 false in
  (fun s3 => (st2, s3)) <$> AuxWait_purge_pvs s2.

(** [Search::AuxWait] (lines 910-1060): the threads are joined from the
    last one; when one of them never returns, or a mutex is never released,
    neither does [AuxWait] return. *)
Definition AuxWait (auxengine_threads_ : list ThreadEnd) (m : Mutexes)
    (GetN auxengine_num_updates : Z) (st : AuxStats) (s : Search)
    : AuxWaitEnd :=
  if join_all (threads_mutex_ m) (rev auxengine_threads_) && locks_return m
  then
    match AuxWait_after_join GetN auxengine_num_updates st s with
    | Some (st', s') => Finished st' s'
    | None => Undefined
    end
  else Blocked.

(** Whether the end-of-move purge stores [r] as the witness of [n]. *)
Definition witnessed_by (s : Search) (r n : Node) : bool :=
  match AuxWait_witness s n with
  | Some w => ptr_eqb w r
  | None => false
  end.

End Moves.

(** A string without the character [c]. *)
Fixpoint lacks (c : ascii) (s : string) : bool :=
  match s with
  | EmptyString => true
  | String c' r => negb (Ascii.eqb c' c) && lacks c r
  end.

(** The option string that lists the given names and values:
    [name=value], joined by [;]. *)
Definition render_options (pairs : list (string * string)) : string :=
  String.concat ";"
    (map (fun p => String.concat "" [fst p; "="; snd p]) pairs).

Definition setoption_command (p : string * string) : string :=
  String.concat "" ["setoption name "; fst p; " value "; snd p].

(** The lines on which a turn of the reading loop finds [info] in [token],
    [token] being what the turn before left in it: the first word of the
    line, or, on a line without any word, [token] as it was. *)
Fixpoint info_turns (token : string) (evs : list HelperLine)
    : list HelperLine :=
  match evs with
  | [] => []
  | ev :: evs' =>
      let t := match String.words (line ev) with
               | w :: _ => w
               | [] => token
               end in
      (if String.eqb t "info" then [ev] else []) ++ info_turns t evs'
  end.

(** A line of the helper that announces the option [SyzygyPath]: its first
    three words are [option], [name] and [SyzygyPath]. *)
Definition announces_SyzygyPath (l : string) : bool :=
  match String.words l with
  | w1 :: w2 :: w3 :: _ =>
      String.eqb w1 "option" && String.eqb w2 "name"
      && String.eqb w3 "SyzygyPath"
  | _ => false
  end.

End Worker.

(* ===================================================================== *)
(** * The usual line of a helper                                          *)
(* ===================================================================== *)

Module Lines.
Import AuxEngine.

(** The words [AuxEncode_and_Enqueue] compares [pv] with. *)
Definition keyword (w : string) : bool :=
  String.eqb w "info" || String.eqb w "string" || String.eqb w "depth"
  || String.eqb w "nodes" || String.eqb w "pv".

(** The words of a line [info depth d ... nodes n ... pv m1 m2 ...]. *)
Definition usual_line (wd wn : string) (mid1 mid2 ws : list string)
    : list string :=
  "info"%string :: "depth"%string :: wd
    :: mid1 ++ "nodes"%string :: wn :: mid2 ++ "pv"%string :: ws.

Section Conversion.
Context `{Externals}.

(** The words of a PV converted one after the other, as the encoder
    converts those it accepts: each is parsed for the side [negb flip],
    brought to the modern encoding on the board reached so far, and applied
    to that board, which is then mirrored.  [None] when a word is not a
    move.  It serves to state which moves the encoder stores. *)
Fixpoint convert_moves (board : ChessBoard) (flip : bool) (ws : list string)
    : option (list Move) :=
  match ws with
  | [] => Some []
  | w :: ws' =>
      match ParseMove w (negb flip) with
      | None => None
      | Some m =>
          let mm := GetModernMove board m in
          (fun ms => mm :: ms)
            <$> convert_moves (Mirror (ApplyMove board mm)) (negb flip) ws'
      end
  end.

(** The room the inner loop of the encoder has left: the number of moves
    it can still store before [pv_length] reaches [depth_reached] or 99. *)
Definition room (e : Encoder) : nat :=
  Z.to_nat (Z.min (depth_reached e) max_pv_length - pv_length e).

End Conversion.

End Lines.

(* ===================================================================== *)
(** * Sample lines                                                        *)
(* ===================================================================== *)

Module LineSamples.
Import AuxEngine Samples.

(** The moves in coordinate notation again, on a standard library whose
    [std::ws] fails at the end of the input. *)
Definition sentry_externals : Externals := {|
  ChessBoard := unit;
  ParseMove := parse_coordinates;
  as_string := coordinates;
  Edge_GetMove := fun m as_opponent => if as_opponent then mirror_move m else m;
  GetModernMove := fun _ m => m;
  ApplyMove := fun b _ => b;
  Mirror := fun b => b;
  ws_fails_at_eof := true
|}.

(** A line that reports depth 5 and a PV of six moves, with a space at its
    end. *)
Definition six_move_line : string :=
  "info depth 5 seldepth 7 nodes 5000 nps 900 pv e2e4 e7e5 g1f3 b8c6 f1b5 a7a6 ".

(** The same line with a second, smaller depth after its PV. *)
Definition two_depths_line : string :=
  "info depth 5 nodes 5000 pv e2e4 e7e5 g1f3 b8c6 f1b5 a7a6 depth 3 ".

(** A line that reports depth 9 and a PV of six moves, and ends with its last
    move. *)
Definition open_line : string :=
  "info depth 9 seldepth 7 nodes 5000 nps 900 pv e2e4 e7e5 g1f3 b8c6 f1b5 a7a6".

(** Mutexes that are all released. *)
Definition free_mutexes : Worker.Mutexes :=
  Worker.mkMutexes Worker.Released Worker.Released Worker.Released
    Worker.Released Worker.Released.

End LineSamples.
(* ===================================================================== *)
(** * Properties                                                          *)
(* ===================================================================== *)

Import Position AuxEngine Samples Vocabulary.

(** ** Game results *)

(** C7, as the code has it: negation exchanges [WHITE_WON] and [BLACK_WON]
    and leaves every other variant where it is, so [UNDECIDED], [DRAW], both
    stalemate variants and all 36 R-mobility wins are fixed points; applied
    twice it is the identity. *)
Theorem operator_minus_swaps_checkmates_only (res : GameResult) :
  operator_minus res =
    match res with
    | BLACK_WON => WHITE_WON
    | WHITE_WON => BLACK_WON
    | _ => res
    end
  /\ operator_minus (operator_minus res) = res.
Proof. destruct res; split; reflexivity. Qed.

(** C7 as stated fails: the white R-mobility win G1.0 is not mapped to the
    black win G1.0, it is left unchanged. *)
Lemma operator_minus_keeps_rmobility_winner :
  opposite_winner WHITE_G1_0 = BLACK_G1_0
  /\ operator_minus WHITE_G1_0 = WHITE_G1_0
  /\ operator_minus WHITE_G1_0 <> opposite_winner WHITE_G1_0.
Proof. repeat split. discriminate. Qed.

(** For a goal reached by black the packing expression gives the variant
    of the convention. *)
Lemma result_as_int_black (L : Z) (in_check : bool) :
  0 <= L < 10 ->
  result_as_int true L in_check = goal_variant false L in_check.
Proof.
  intros HL. unfold result_as_int, goal_variant, b2z. simpl.
  destruct in_check; simpl; rewrite Z.mod_small; lia.
Qed.

(** For a goal reached by white it counts downwards from 39 instead of
    upwards from 22. *)
Lemma result_as_int_white (L : Z) (in_check : bool) :
  0 <= L < 10 ->
  result_as_int false L in_check = 39 - 2 * L + (if in_check then 0 else 1).
Proof.
  intros HL. unfold result_as_int, b2z. simpl.
  destruct in_check; simpl; rewrite Z.mod_small; lia.
Qed.

(** The packing expression never gives the same value to two goals. *)
Lemma result_as_int_inj (b1 b2 : bool) (L1 L2 : Z) (c1 c2 : bool) :
  0 <= L1 < 10 -> 0 <= L2 < 10 ->
  result_as_int b1 L1 c1 = result_as_int b2 L2 c2 ->
  b1 = b2 /\ L1 = L2 /\ c1 = c2.
Proof.
  intros H1 H2.
  destruct b1, b2;
    rewrite ?result_as_int_black, ?result_as_int_white by assumption;
    unfold goal_variant; destruct c1, c2; intros; repeat split; lia.
Qed.

(** The goals of white, L = 1..9, are packed onto 21..38: they meet the
    values of [DRAW], [WHITE_STALEMATE] and the unused 23, and leave 39..41
    out. *)
Lemma result_as_int_white_range (L : Z) (in_check : bool) :
  1 <= L <= 9 -> 21 <= result_as_int false L in_check <= 38.
Proof.
  intros HL. rewrite result_as_int_white by lia. destruct in_check; lia.
Qed.

(** C6 on the code: a history in which white has reached the goal G9.0
    (black in check with nine legal moves) is classified with the packed
    value 21, which is [DRAW] and not the variant 40 of the convention; with
    eight legal moves the value is 23, which names no variant. *)
Theorem Rmobility_packs_white_goal_as_draw :
  ComputeGameResult (squeezed_history 9 true) = Some (Cast 21)
  /\ GameResult_of_int 21 = Some DRAW
  /\ GameResult_of_int (goal_variant true 9 true) = Some WHITE_G9_0
  /\ ComputeGameResult (squeezed_history 8 true) = Some (Cast 23)
  /\ GameResult_of_int 23 = None
  /\ GameResult_of_int (goal_variant true 8 true) = Some WHITE_G8_0.
Proof. repeat split; vm_compute; reflexivity. Qed.

(** ** The end-of-move purge of the PV queue *)

(** Whatever the queue holds, [AuxWait] leaves it empty: the queue is
    assigned the empty queue before the loop reads its size. *)
Lemma AuxWait_purge_pvs_empties `{Externals} (s : Search) :
  exists s', AuxWait_purge_pvs s = Some s'
             /\ fast_track_extend_and_evaluate_queue_ s' = [].
Proof.
  unfold AuxWait_purge_pvs.
  destruct (fast_track_extend_and_evaluate_queue_ s) eqn:Hq.
  - exists s. split; [reflexivity | exact Hq].
  - eexists. split; reflexivity.
Qed.

(** C1 on the code: the queue holds one PV whose first move is the move
    played, e2e4.  The purge the comments describe keeps it without that
    move; the purge as written drops it. *)
Theorem AuxWait_purge_pvs_loses_played_line :
  final_bestmove_ pv_search = e2e4
  /\ fast_track_extend_and_evaluate_queue_ pv_search = [[e2e4; e7e5; g1f3; b8c6]]
  /\ purge_pvs_as_specified pv_search
       (fast_track_extend_and_evaluate_queue_ pv_search) = [[e7e5; g1f3; b8c6]]
  /\ fast_track_extend_and_evaluate_queue_ <$> AuxWait_purge_pvs pv_search
     = Some [].
Proof. repeat split. Qed.

(** ** Tags under the purges *)

Lemma start_purge_loop_spec (root : Node) (pairs : list (Node * Node))
    (rest temp : list Node) :
  start_purge_loop root (length pairs) (flatten_pairs pairs ++ rest) temp
  = Some (rest, temp ++ targets_witnessed_by root pairs).
Proof.
  revert temp. induction pairs as [| [n w] pairs IH]; intros temp; simpl.
  - unfold targets_witnessed_by. simpl. by rewrite app_nil_r.
  - rewrite IH. unfold targets_witnessed_by. rewrite filter_cons. simpl.
    destruct (ptr_eqb w root) eqn:Hw.
    + rewrite decide_True by reflexivity. simpl. by rewrite <- app_assoc.
    + rewrite decide_False by discriminate. reflexivity.
Qed.

Lemma start_purge_loop_length (root : Node) (k : nat) (q temp rest temp' : list Node) :
  start_purge_loop root k q temp = Some (rest, temp') ->
  (length rest + 2 * k = length q /\ length temp' <= length temp + k)%nat.
Proof.
  revert q temp. induction k as [| k IH]; intros q temp; simpl.
  - intros [= -> ->]. lia.
  - destruct q as [| n [| w q']]; try discriminate.
    intros Hl. apply IH in Hl. destruct Hl as [H1 H2].
    destruct (ptr_eqb w root); rewrite ?length_app in H2; simpl in *; lia.
Qed.

(** C2, as the code has it: neither purge of the node queue writes a tag.
    Every node, dropped or kept, carries after the purge the tag it carried
    before; a dropped node that was pending stays pending. *)
Theorem purges_leave_tags_untouched `{Externals} (s : Search) (n : Node) :
  (forall s', AuxEngineWorker_purge_nodes s = Some s' ->
              GetAuxEngineMove s' n = GetAuxEngineMove s n)
  /\ GetAuxEngineMove (AuxWait_purge_nodes s) n = GetAuxEngineMove s n.
Proof.
  split.
  - intros s'. unfold AuxEngineWorker_purge_nodes.
    destruct (final_purge_run s); [by intros [= <-] |].
    destruct (0 <? size_of_queue_at_start s); [| by intros [= <-]].
    destruct (start_purge_loop _ _ _ _) as [[rest temp] |]; [| discriminate].
    by intros [= <-].
  - unfold AuxWait_purge_nodes.
    by destruct (0 <? size (persistent_queue_of_nodes s)).
Qed.

Lemma purges_leave_tags_untouched_witness :
  exists s', AuxEngineWorker_purge_nodes next_move_search = Some s'
             /\ GetAuxEngineMove s' node8
                = GetAuxEngineMove next_move_search node8.
Proof.
  eexists. split; [reflexivity |].
  apply (proj1 (purges_leave_tags_untouched next_move_search node8)).
  reflexivity.
Defined.

(** C2 as stated fails.  At the end of the move node 5 is dropped, not
    lying under the move played; at the start of the next move node 8 is
    dropped, its witness not being the root.  Both were tagged pending and
    still are after the purge that dropped them. *)
Lemma purges_leave_dropped_node_pending :
  persistent_queue_of_nodes finished_search = [node6; node8; node5]
  /\ GetAuxEngineMove finished_search node5 = Some PENDING
  /\ persistent_queue_of_nodes (AuxWait_purge_nodes finished_search)
     = [node6; node4; node8; node7]
  /\ GetAuxEngineMove (AuxWait_purge_nodes finished_search) node5
     = Some PENDING
  /\ persistent_queue_of_nodes next_move_search = [node6; node4; node8; node7]
  /\ GetAuxEngineMove next_move_search node8 = Some PENDING
  /\ exists s', AuxEngineWorker_purge_nodes next_move_search = Some s'
                /\ persistent_queue_of_nodes s' = [node6]
                /\ GetAuxEngineMove s' node8 = Some PENDING.
Proof.
  do 6 (split; [reflexivity |]). eexists. repeat split.
Qed.

(** ** The enqueue gate *)

(** The gate on a queue that is full: the tag is written, nothing is
    pushed. *)
Lemma AuxMaybeEnqueueNode_full (n : Node) (s : Search) :
  stop_ s = false -> final_purge_run s = false ->
  15000 <= size (persistent_queue_of_nodes s) ->
  GetAuxEngineMove (AuxMaybeEnqueueNode n s) n = Some PENDING
  /\ persistent_queue_of_nodes (AuxMaybeEnqueueNode n s)
     = persistent_queue_of_nodes s.
Proof.
  intros Hstop Hpurge Hfull. unfold AuxMaybeEnqueueNode.
  rewrite Hstop. simpl. rewrite Hpurge. simpl.
  destruct (Z.ltb_spec (size (persistent_queue_of_nodes s)) 15000) as [Hlt | _];
    [lia |].
  split; [| reflexivity].
  unfold GetAuxEngineMove. simpl. apply lookup_insert_eq.
Qed.

(** C3, as the code has it.  When the gate does not push because the final
    purge has run, it leaves every tag and the queue as they were.  When it
    does not push because the queue holds 15,000 entries or more, it has
    already tagged the node pending and returns with that tag set; the queue
    is as it was. *)
Theorem AuxMaybeEnqueueNode_push_failure (n : Node) (s : Search) :
  stop_ s = false ->
  (final_purge_run s = true ->
     aux_engine_move (AuxMaybeEnqueueNode n s) = aux_engine_move s
     /\ persistent_queue_of_nodes (AuxMaybeEnqueueNode n s)
        = persistent_queue_of_nodes s)
  /\ (final_purge_run s = false ->
      15000 <= size (persistent_queue_of_nodes s) ->
      GetAuxEngineMove (AuxMaybeEnqueueNode n s) n = Some PENDING
      /\ persistent_queue_of_nodes (AuxMaybeEnqueueNode n s)
         = persistent_queue_of_nodes s).
Proof.
  intros Hstop. split.
  - intros Hpurge. unfold AuxMaybeEnqueueNode. rewrite Hstop. simpl.
    rewrite Hpurge. simpl. split; reflexivity.
  - intros Hpurge Hfull. by apply AuxMaybeEnqueueNode_full.
Qed.

Lemma AuxMaybeEnqueueNode_push_failure_witness :
  GetAuxEngineMove (AuxMaybeEnqueueNode node5 full_search) node5 = Some PENDING
  /\ persistent_queue_of_nodes (AuxMaybeEnqueueNode node5 full_search)
     = persistent_queue_of_nodes full_search.
Proof.
  pose proof (AuxMaybeEnqueueNode_push_failure node5 full_search eq_refl)
    as [_ Hfull].
  apply Hfull.
  - reflexivity.
  - vm_compute. discriminate.
Defined.

(** C3 as stated fails: with 15,000 entries queued the gate does not push
    node 5, which carried no pending tag, and returns with the tag set. *)
Lemma AuxMaybeEnqueueNode_leaves_pending_on_full_queue :
  size (persistent_queue_of_nodes full_search) = 15000
  /\ GetAuxEngineMove full_search node5 = None
  /\ persistent_queue_of_nodes (AuxMaybeEnqueueNode node5 full_search)
     = persistent_queue_of_nodes full_search
  /\ GetAuxEngineMove (AuxMaybeEnqueueNode node5 full_search) node5
     = Some PENDING.
Proof.
  split; [vm_compute; reflexivity |]. split; [reflexivity |].
  destruct (AuxMaybeEnqueueNode_full node5 full_search) as [Htag Hq];
    [reflexivity | reflexivity | vm_compute; discriminate |].
  split; [exact Hq | exact Htag].
Qed.

(** What the gate does when it pushes. *)
Lemma AuxMaybeEnqueueNode_push (n : Node) (s : Search) :
  stop_ s = false -> final_purge_run s = false ->
  size (persistent_queue_of_nodes s) < 15000 ->
  persistent_queue_of_nodes (AuxMaybeEnqueueNode n s)
  = persistent_queue_of_nodes s ++ [n].
Proof.
  intros Hstop Hpurge Hsize. unfold AuxMaybeEnqueueNode.
  rewrite Hstop. simpl. rewrite Hpurge. simpl.
  destruct (size (persistent_queue_of_nodes s) <? 15000) eqn:Hlt; [| lia].
  reflexivity.
Qed.

Lemma half_of_twice (k : nat) : Z.to_nat ((2 * Z.of_nat k + 1) / 2) = k.
Proof.
  replace ((2 * Z.of_nat k + 1) / 2) with (Z.of_nat k).
  - apply Nat2Z.id.
  - apply Z.div_unique with (r := 1); lia.
Qed.

(** The surviving targets are those paired with the root, and no other. *)
Lemma targets_witnessed_by_In (root t : Node) (pairs : list (Node * Node)) :
  In t (targets_witnessed_by root pairs)
  <-> exists w, In (t, w) pairs /\ addr_of w = addr_of root.
Proof.
  unfold targets_witnessed_by. rewrite in_map_iff. split.
  - intros [[t' w] [<- Hin]]. exists w.
    apply list_elem_of_In, list_elem_of_filter in Hin. destruct Hin as [Hw Hin].
    split; [by apply list_elem_of_In |].
    unfold ptr_eqb in Hw. by apply Pos.eqb_eq.
  - intros [w [Hin Hw]]. exists (t, w). split; [reflexivity |].
    apply list_elem_of_In, list_elem_of_filter. split.
    + unfold ptr_eqb. simpl. by apply Pos.eqb_eq.
    + by apply list_elem_of_In.
Qed.

(** C4, as the code has it.  The gate pushes the target alone: the queue
    grows by that one entry and no witness is stored with it.  At the start
    of a move the first [size_of_queue_at_start] entries are read as (target,
    witness) pairs; the targets whose witness is the current root survive, in
    order and without their witness, behind the entries that were pushed
    later, and no other target does. *)
Theorem gate_pushes_target_and_purge_keeps_root_witnessed
    (n : Node) (s : Search) (pairs : list (Node * Node)) (rest : list Node) :
  (stop_ s = false -> final_purge_run s = false ->
   size (persistent_queue_of_nodes s) < 15000 ->
   persistent_queue_of_nodes (AuxMaybeEnqueueNode n s)
   = persistent_queue_of_nodes s ++ [n])
  /\ (final_purge_run s = false ->
      persistent_queue_of_nodes s = flatten_pairs pairs ++ rest ->
      size_of_queue_at_start s = 2 * size pairs ->
      (exists s', AuxEngineWorker_purge_nodes s = Some s'
                  /\ persistent_queue_of_nodes s'
                     = rest ++ targets_witnessed_by (root_node_ s) pairs)
      /\ (forall t, In t (targets_witnessed_by (root_node_ s) pairs)
                    <-> exists w, In (t, w) pairs
                                  /\ addr_of w = addr_of (root_node_ s))).
Proof.
  split; [apply AuxMaybeEnqueueNode_push |].
  intros Hpurge Hq Hsize.
  split; [| intros t; apply targets_witnessed_by_In].
  unfold AuxEngineWorker_purge_nodes.
  rewrite Hpurge, Hsize. unfold size.
  destruct pairs as [| p pairs].
  - simpl. exists s. split; [reflexivity |].
    rewrite Hq. unfold targets_witnessed_by. simpl. by rewrite app_nil_r.
  - destruct (Z.ltb_spec 0 (2 * Z.of_nat (length (p :: pairs)))) as [_ | Hge];
      [| simpl length in Hge; lia].
    rewrite Hq, half_of_twice, start_purge_loop_spec.
    eexists. split; reflexivity.
Qed.

Lemma gate_pushes_target_and_purge_keeps_root_witnessed_witness :
  persistent_queue_of_nodes (AuxMaybeEnqueueNode node6 idle_search) = [node6]
  /\ exists s', AuxEngineWorker_purge_nodes next_move_search = Some s'
                /\ persistent_queue_of_nodes s' = [node6].
Proof.
  pose proof (gate_pushes_target_and_purge_keeps_root_witnessed
                node6 idle_search [] []) as [Hgate _].
  pose proof (gate_pushes_target_and_purge_keeps_root_witnessed
                node6 next_move_search [(node6, node4); (node8, node7)] [])
    as [_ Hpurge].
  split.
  - apply Hgate; [reflexivity | reflexivity | vm_compute; reflexivity].
  - destruct Hpurge as [[s' [Hs' Hq]] _]; [reflexivity .. |].
    exists s'. split; [exact Hs' | exact Hq].
Defined.

(** C4 as stated fails on its first half: pushed onto the empty queue, node
    6 is the only entry; the root, node 1, is not stored behind it. *)
Lemma gate_pushes_no_witness :
  stop_ idle_search = false
  /\ persistent_queue_of_nodes idle_search = []
  /\ root_node_ idle_search = node1
  /\ persistent_queue_of_nodes (AuxMaybeEnqueueNode node6 idle_search) = [node6]
  /\ persistent_queue_of_nodes (AuxMaybeEnqueueNode node6 idle_search)
     <> flatten_pairs [(node6, node1)].
Proof. repeat split. discriminate. Qed.

(** ** Queue bounds *)

Lemma AuxMaybeEnqueueNode_bounded (n : Node) (s : Search) :
  node_queue_bounded s -> node_queue_bounded (AuxMaybeEnqueueNode n s).
Proof.
  unfold node_queue_bounded, AuxMaybeEnqueueNode. intros Hb.
  destruct (stop_ s); [exact Hb |]. simpl.
  destruct (final_purge_run s); simpl; [exact Hb |].
  destruct (Z.ltb_spec (size (persistent_queue_of_nodes s)) 15000) as [Hlt | _];
    simpl; [| exact Hb].
  unfold size in *. rewrite length_app. simpl. lia.
Qed.

Lemma AuxEngineWorker_purge_nodes_shrinks (s s' : Search) :
  AuxEngineWorker_purge_nodes s = Some s' ->
  size (persistent_queue_of_nodes s') <= size (persistent_queue_of_nodes s).
Proof.
  unfold AuxEngineWorker_purge_nodes.
  destruct (final_purge_run s); [intros [= <-]; lia |].
  destruct (0 <? size_of_queue_at_start s); [| intros [= <-]; lia].
  destruct (start_purge_loop _ _ _ _) as [[rest temp] |] eqn:Hloop; [| discriminate].
  intros [= <-]. apply start_purge_loop_length in Hloop. simpl in *.
  unfold size. rewrite length_app. lia.
Qed.

Lemma AuxWait_node_loop_length `{Externals} (s : Search) (q : list Node) :
  (length (AuxWait_node_loop s q) <= 2 * length q)%nat.
Proof.
  induction q as [| n q IH]; simpl; [lia |].
  destruct (AuxWait_witness s n); simpl; lia.
Qed.

Lemma AuxWait_purge_nodes_at_most_doubles `{Externals} (s : Search) :
  size (persistent_queue_of_nodes (AuxWait_purge_nodes s))
  <= 2 * size (persistent_queue_of_nodes s).
Proof.
  unfold AuxWait_purge_nodes.
  destruct (0 <? size (persistent_queue_of_nodes s)); simpl.
  - pose proof (AuxWait_node_loop_length s (persistent_queue_of_nodes s)).
    unfold size. lia.
  - unfold size. lia.
Qed.


(** A node deeper than [AuxEngineMaxDepth] that the sampling sends back is
    pushed whatever the size of the queue. *)
Lemma DoAuxEngine_admission_reinserts (n : Node) (s : Search) (depth : Z) :
  stop_ s = false -> final_purge_run s = false ->
  depth_below (root_node_ s) n = Some depth ->
  0 < size (persistent_queue_of_nodes s) ->
  0 < depth -> AuxEngineMaxDepth s < depth ->
  DoAuxEngine_admission n true s
  = Some (with_node_queue (persistent_queue_of_nodes s ++ [n]) s, true).
Proof.
  intros Hstop Hpurge Hdepth Hq Hpos Hmax. unfold DoAuxEngine_admission.
  rewrite Hstop, Hdepth, Hpurge. simpl.
  destruct (Z.ltb_spec 0 (size (persistent_queue_of_nodes s))); [| lia].
  destruct (Z.ltb_spec 0 depth); [| lia].
  destruct (Z.ltb_spec (AuxEngineMaxDepth s) depth); [| lia].
  reflexivity.
Qed.

Section EncoderBounds.
Context `{Externals}.

Lemma enqueue_pv_bounded (depth : Z) (e : Encoder) (s : Search) :
  pv_queue_bounded s -> pv_queue_bounded (enqueue_pv depth e s).
Proof.
  unfold pv_queue_bounded, enqueue_pv. intros Hb.
  destruct (min_pv_size <=? size (pv_moves e)); [| exact Hb].
  destruct (my_pv_cache_ s !! pv_key (pv_moves e)); [exact Hb |]. simpl.
  destruct (Z.ltb_spec (size (fast_track_extend_and_evaluate_queue_ s)) 20000)
    as [Hlt | _]; simpl; [| exact Hb].
  unfold size in *. rewrite length_app. simpl. lia.
Qed.

Lemma AuxEncode_and_Enqueue_bounded (pv_as_string : string) (depth : Z)
    (board : ChessBoard) (moves : list Move) (require_some_depth : bool)
    (s : Search) :
  pv_queue_bounded s ->
  pv_queue_bounded
    (AuxEncode_and_Enqueue pv_as_string depth board moves require_some_depth s).
Proof.
  intros Hb. unfold AuxEncode_and_Enqueue.
  destruct (stop_ s); [exact Hb |].
  destruct (encode_line _ _ _ _ _ _) as [[| e] |]; try exact Hb.
  by apply enqueue_pv_bounded.
Qed.

Lemma start_purge_pvs_length (valid_move : Move) (q : list (list Move)) :
  (length (start_purge_pvs valid_move q) <= length q)%nat.
Proof.
  induction q as [| pv q IH]; simpl; [lia |].
  destruct pv as [| m [| m' rest]]; simpl; try lia.
  destruct (Z.eqb m valid_move); simpl; lia.
Qed.

Lemma AuxEngineWorker_purge_pvs_shrinks (s : Search) :
  size (fast_track_extend_and_evaluate_queue_ (AuxEngineWorker_purge_pvs s))
  <= size (fast_track_extend_and_evaluate_queue_ s).
Proof.
  unfold AuxEngineWorker_purge_pvs.
  destruct (final_purge_run s); [lia |].
  destruct (GetOwnEdge (root_node_ s)) as [valid_move |]; simpl.
  - destruct (0 <? size (fast_track_extend_and_evaluate_queue_ s)); simpl; [| lia].
    pose proof (start_purge_pvs_length (Edge_GetMove valid_move false)
                  (fast_track_extend_and_evaluate_queue_ s)).
    unfold size. lia.
  - unfold size. simpl. lia.
Qed.

End EncoderBounds.

(** C5, as the code has it.  The gate keeps the node queue within 15,000
    entries and the start-of-move purge does not lengthen it; the PV encoder
    keeps the PV queue within 20,000 entries and neither purge lengthens it.
    The end-of-move purge stores a witness behind every target it keeps, so
    it can leave up to twice as many entries as it found. *)
Theorem queue_bounds_of_every_push `{Externals} (s : Search) (n : Node)
    (pv_as_string : string) (depth : Z) (board : ChessBoard)
    (moves : list Move) (require_some_depth : bool) :
  (node_queue_bounded s -> node_queue_bounded (AuxMaybeEnqueueNode n s))
  /\ (forall s', AuxEngineWorker_purge_nodes s = Some s' ->
        size (persistent_queue_of_nodes s') <= size (persistent_queue_of_nodes s))
  /\ size (persistent_queue_of_nodes (AuxWait_purge_nodes s))
     <= 2 * size (persistent_queue_of_nodes s)
  /\ (pv_queue_bounded s ->
      pv_queue_bounded
        (AuxEncode_and_Enqueue pv_as_string depth board moves
           require_some_depth s))
  /\ size (fast_track_extend_and_evaluate_queue_ (AuxEngineWorker_purge_pvs s))
     <= size (fast_track_extend_and_evaluate_queue_ s)
  /\ (forall s', AuxWait_purge_pvs s = Some s' ->
        size (fast_track_extend_and_evaluate_queue_ s')
        <= size (fast_track_extend_and_evaluate_queue_ s)).
Proof.
  split; [apply AuxMaybeEnqueueNode_bounded |].
  split; [intros s'; apply AuxEngineWorker_purge_nodes_shrinks |].
  split; [apply AuxWait_purge_nodes_at_most_doubles |].
  split; [apply AuxEncode_and_Enqueue_bounded |].
  split; [apply AuxEngineWorker_purge_pvs_shrinks |].
  intros s' Hs'. destruct (AuxWait_purge_pvs_empties s) as [s'' [Hs'' Hq]].
  rewrite Hs' in Hs''. injection Hs'' as <-. rewrite Hq. unfold size. simpl. lia.
Qed.

Lemma queue_bounds_of_every_push_witness :
  node_queue_bounded (AuxMaybeEnqueueNode node5 full_search)
  /\ pv_queue_bounded
       (AuxEncode_and_Enqueue info_line 0 tt [] false pv_full_search)
  /\ exists s', AuxEngineWorker_purge_nodes next_move_search = Some s'
                /\ size (persistent_queue_of_nodes s')
                   <= size (persistent_queue_of_nodes next_move_search).
Proof.
  pose proof (@queue_bounds_of_every_push coordinate_externals
                full_search node5 info_line 0 tt [] false)
    as (Hgate & _).
  pose proof (@queue_bounds_of_every_push coordinate_externals
                pv_full_search node5 info_line 0 tt [] false)
    as (_ & _ & _ & Hencode & _).
  pose proof (@queue_bounds_of_every_push coordinate_externals
                next_move_search node5 info_line 0 tt [] false)
    as (_ & Hpurge & _).
  split; [| split].
  - apply Hgate. unfold node_queue_bounded. vm_compute. discriminate.
  - apply Hencode. unfold pv_queue_bounded. vm_compute. discriminate.
  - eexists. split; [reflexivity |]. apply Hpurge. reflexivity.
Defined.

(** C5 as stated fails for the node queue: with 15,000 entries queued, all
    of them under the move played, the end-of-move purge leaves 30,000
    entries. *)
Lemma node_queue_exceeds_its_cap :
  node_queue_bounded full_search
  /\ size (persistent_queue_of_nodes (AuxWait_purge_nodes full_search)) = 30000
  /\ ~ node_queue_bounded (AuxWait_purge_nodes full_search).
Proof.
  assert (size (persistent_queue_of_nodes (AuxWait_purge_nodes full_search))
          = 30000) as Hpurge by (vm_compute; reflexivity).
  split; [unfold node_queue_bounded; vm_compute; discriminate |].
  split; [exact Hpurge |].
  unfold node_queue_bounded. rewrite Hpurge. lia.
Qed.

(** The reinsertion in [DoAuxEngine] has no size test either: sent back by
    the sampling, node 6 becomes entry 15,001 of a full queue. *)
Remark reinsertion_ignores_the_cap :
  exists s', DoAuxEngine_admission node6 true full_search = Some (s', true)
             /\ size (persistent_queue_of_nodes s') = 15001.
Proof.
  exists (with_node_queue (persistent_queue_of_nodes full_search ++ [node6])
            full_search).
  split; [| vm_compute; reflexivity].
  apply (DoAuxEngine_admission_reinserts node6 full_search 3);
    try reflexivity; vm_compute; reflexivity.
Qed.

(** ** The PV cache and the cap of the PV queue *)

Section CacheAndCap.
Context `{Externals}.

(** A PV whose key is in the cache is not pushed, whatever room the queue
    has, and the cache stays as it is. *)
Lemma enqueue_pv_known_key (depth : Z) (e : Encoder) (s : Search) :
  is_Some (my_pv_cache_ s !! pv_key (pv_moves e)) ->
  enqueue_pv depth e s = s.
Proof.
  intros [b Hb]. unfold enqueue_pv. rewrite Hb.
  by destruct (min_pv_size <=? size (pv_moves e)).
Qed.

(** The encoder never takes a key out of the cache. *)
Lemma AuxEncode_and_Enqueue_keeps_keys (pv_as_string : string) (depth : Z)
    (board : ChessBoard) (moves : list Move) (require_some_depth : bool)
    (s : Search) (key : string) :
  is_Some (my_pv_cache_ s !! key) ->
  is_Some (my_pv_cache_
             (AuxEncode_and_Enqueue pv_as_string depth board moves
                require_some_depth s) !! key).
Proof.
  intros Hkey. unfold AuxEncode_and_Enqueue.
  destruct (stop_ s); [exact Hkey |].
  destruct (encode_line _ _ _ _ _ _) as [[| e] |]; try exact Hkey.
  unfold enqueue_pv.
  destruct (min_pv_size <=? size (pv_moves e)); [| exact Hkey].
  destruct (my_pv_cache_ s !! pv_key (pv_moves e)) eqn:Hc; [exact Hkey |].
  assert (is_Some (<[pv_key (pv_moves e) := true]> (my_pv_cache_ s) !! key)) as Hins.
  { rewrite lookup_insert. case_decide; [by eexists | exact Hkey]. }
  simpl. by destruct (_ <? 20000).
Qed.

(** C10: the key is stored before the size of the PV queue is looked at.
    A PV that is new to the cache and meets a queue of 20,000 entries or more
    is dropped, nothing is pushed on any of the three queues, and its key is
    in the cache afterwards.  From then on every line that encodes to the
    same moves is turned away at the cache, in any state whose cache still
    holds the key, even when the queue has room again. *)
Theorem dropped_pv_leaves_its_key_in_the_cache
    (pv_as_string : string) (depth : Z) (board : ChessBoard)
    (moves : list Move) (require_some_depth : bool) (s : Search) (e : Encoder) :
  stop_ s = false ->
  encode_line s pv_as_string depth board moves require_some_depth
    = Some (Parsed e) ->
  min_pv_size <= size (pv_moves e) ->
  my_pv_cache_ s !! pv_key (pv_moves e) = None ->
  20000 <= size (fast_track_extend_and_evaluate_queue_ s) ->
  let s' := AuxEncode_and_Enqueue pv_as_string depth board moves
              require_some_depth s in
  fast_track_extend_and_evaluate_queue_ s'
    = fast_track_extend_and_evaluate_queue_ s
  /\ starting_depth_of_PVs_ s' = starting_depth_of_PVs_ s
  /\ amount_of_support_for_PVs_ s' = amount_of_support_for_PVs_ s
  /\ my_pv_cache_ s' = <[pv_key (pv_moves e) := true]> (my_pv_cache_ s)
  /\ forall (line2 : string) (depth2 : Z) (board2 : ChessBoard)
            (moves2 : list Move) (require2 : bool) (s2 : Search) (e2 : Encoder),
       encode_line s2 line2 depth2 board2 moves2 require2 = Some (Parsed e2) ->
       pv_moves e2 = pv_moves e ->
       is_Some (my_pv_cache_ s2 !! pv_key (pv_moves e)) ->
       AuxEncode_and_Enqueue line2 depth2 board2 moves2 require2 s2 = s2.
Proof.
  intros Hstop Henc Hlen Hnew Hfull s'. subst s'.
  unfold AuxEncode_and_Enqueue. rewrite Hstop, Henc.
  unfold enqueue_pv. rewrite Hnew.
  destruct (Z.leb_spec min_pv_size (size (pv_moves e))) as [_ | Hlt]; [| lia].
  simpl.
  destruct (Z.ltb_spec (size (fast_track_extend_and_evaluate_queue_ s)) 20000)
    as [Hlt | _]; [lia |].
  repeat split.
  intros line2 depth2 board2 moves2 require2 s2 e2 Henc2 Hsame Hkey.
  destruct (stop_ s2); [reflexivity |].
  rewrite Henc2. apply enqueue_pv_known_key. by rewrite Hsame.
Qed.

End CacheAndCap.

Lemma dropped_pv_leaves_its_key_in_the_cache_witness :
  fast_track_extend_and_evaluate_queue_
    (AuxEncode_and_Enqueue info_line 0 tt [] false pv_full_search)
  = fast_track_extend_and_evaluate_queue_ pv_full_search
  /\ my_pv_cache_ (AuxEncode_and_Enqueue info_line 0 tt [] false pv_full_search)
       !! "796,796,405,82"%string = Some true.
Proof.
  pose proof (@dropped_pv_leaves_its_key_in_the_cache coordinate_externals
                info_line 0 tt [] false pv_full_search
                (mkEncoder 20 5000 5 true tt [796; 796; 405; 82] [796; 796; 405; 82]))
    as Hdrop.
  destruct Hdrop as (Hq & _ & _ & Hc & _).
  - reflexivity.
  - reflexivity.
  - unfold min_pv_size, size. simpl. lia.
  - reflexivity.
  - vm_compute. discriminate.
  - split; [exact Hq |]. rewrite Hc. apply lookup_insert_eq.
Defined.

(** ** Stop while the helper is being read *)

Lemma read_loop_app (inf : bool) (a b : list HelperLine) (st : ReadState) :
  read_loop inf (a ++ b) st
  = match read_loop inf a st with
    | Continue st' => read_loop inf b st'
    | r => r
    end.
Proof.
  revert st. induction a as [| ev a IH]; intros st; simpl; [reflexivity |].
  destruct (read_step inf ev st); auto.
Qed.

Lemma first_token_not_bestmove (ev : HelperLine) (st : ReadState) :
  not_bestmove ev -> token st <> "bestmove"%string ->
  match String.words (line ev) with t :: _ => t | [] => token st end
  <> "bestmove"%string.
Proof.
  unfold not_bestmove, first_word. intros Hev Htok.
  destruct (String.words (line ev)) as [| t ws]; [exact Htok |].
  simpl in Hev. congruence.
Qed.

Lemma read_step_quiet (inf : bool) (ev : HelperLine) (st st' : ReadState) :
  quiet st -> read_step inf ev st = Continue st' -> quiet st'.
Proof.
  intros [Htok Hq]. unfold read_step.
  destruct (String.eqb_spec
              (match String.words (line ev) with t :: _ => t | [] => token st end)
              "bestmove") as [Heq | Hne].
  { destruct (String.eqb _ "info"); discriminate. }
  destruct (stopping st) eqn:Hst; simpl.
  - destruct (second_stopping st); intros [= <-]; split; simpl; try done.
  - destruct (Hq eq_refl) as (Hs2 & Hw & Ha).
    destruct (stop_load ev).
    + destruct (negb _); intros [= <-]; split; simpl; try done.
    + destruct (_ && inf); intros [= <-]; split; simpl; try done.
Qed.

Lemma read_loop_quiet (inf : bool) (evs : list HelperLine) (st st' : ReadState) :
  quiet st -> read_loop inf evs st = Continue st' -> quiet st'.
Proof.
  revert st. induction evs as [| ev evs IH]; intros st Hq; simpl.
  - by intros [= <-].
  - destruct (read_step inf ev st) as [st1 | st1 | st1] eqn:Hstep; try discriminate.
    apply IH. by eapply read_step_quiet.
Qed.

(** Once the flag has been seen: the first further line is let pass, every
    later one is answered with another [stop]; the encoder is not called. *)
Lemma read_loop_draining (inf : bool) (post : list HelperLine) (st : ReadState) :
  stopping st = true -> token st <> "bestmove"%string ->
  Forall not_bestmove post ->
  exists st',
    read_loop inf post st = Continue st'
    /\ stopping st' = true /\ token st' <> "bestmove"%string
    /\ encoded st' = encoded st
    /\ written st'
       = written st
           ++ repeat "stop"%string
                (if second_stopping st then length post else Nat.pred (length post)).
Proof.
  revert st. induction post as [| ev post IH]; intros st Hst Htok Hpost.
  - exists st. simpl. repeat split; try done.
    destruct (second_stopping st); simpl; by rewrite app_nil_r.
  - apply Forall_cons in Hpost. destruct Hpost as [Hev Hpost].
    pose proof (first_token_not_bestmove ev st Hev Htok) as Hne.
    simpl. unfold read_step.
    destruct (String.eqb_spec
                (match String.words (line ev) with t :: _ => t | [] => token st end)
                "bestmove") as [Heq | _]; [done |].
    rewrite Hst. simpl.
    destruct (second_stopping st) eqn:Hs2.
    + match goal with
      | |- context [read_loop inf post ?s] =>
          destruct (IH s) as (st' & Hl & H1 & H2 & H3 & H4);
            [reflexivity | exact Hne | exact Hpost |]
      end.
      exists st'. rewrite Hl. simpl in *. repeat split; try done.
      rewrite H4. by rewrite <- app_assoc.
    + match goal with
      | |- context [read_loop inf post ?s] =>
          destruct (IH s) as (st' & Hl & H1 & H2 & H3 & H4);
            [reflexivity | exact Hne | exact Hpost |]
      end.
      exists st'. rewrite Hl. simpl in *. repeat split; try done.
Qed.

(** C9, as the code has it.  The helper's lines are [pre], during which the
    flag is not seen; [det], the turn on which the worker sees it; [post],
    the further lines before [bestmove]; and the [bestmove] line.  At [det]
    the worker writes [stop] unless the slot's flag is already set by another
    thread.  It lets the first line of [post] pass and writes one more [stop]
    for every later line of [post].  It then returns; from [det] on the
    encoder is not called. *)
Theorem stop_while_reading_the_helper (inf child_running : bool)
    (pre post rest : list HelperLine) (det bm : HelperLine) (st1 : ReadState) :
  read_loop inf pre read_init = Continue st1 ->
  stopping st1 = false ->
  stop_load det = true ->
  not_bestmove det ->
  Forall not_bestmove post ->
  first_word (line bm) = Some "bestmove"%string ->
  second_word (line bm) <> Some "info"%string ->
  exists st',
    DoAuxEngine_read inf child_running (pre ++ det :: post ++ bm :: rest) read_init
    = Returned st'
    /\ written st'
       = (if stopped_by_other det then [] else ["stop"%string])
           ++ repeat "stop"%string (Nat.pred (length post))
    /\ encoded st' = encoded st1.
Proof.
  intros Hpre Hst1 Hstop Hdet Hpost Hbm1 Hbm2.
  assert (quiet read_init) as Hq0 by (split; [discriminate | done]).
  destruct (read_loop_quiet inf pre _ _ Hq0 Hpre) as [Htok1 Hq1].
  destruct (Hq1 Hst1) as (Hs2 & Hw & Ha).
  pose proof (first_token_not_bestmove det st1 Hdet Htok1) as Hne.
  unfold DoAuxEngine_read. rewrite read_loop_app, Hpre. simpl.
  unfold read_step at 1.
  destruct (String.eqb_spec
              (match String.words (line det) with t :: _ => t | [] => token st1 end)
              "bestmove") as [Heq | _]; [done |].
  rewrite Hst1, Hstop, Ha, Hs2, Hw. simpl.
  set (st2 := if negb (stopped_by_other det) then _ else _).
  assert (exists st2', st2 = Continue st2' /\ stopping st2' = true
                       /\ token st2' <> "bestmove"%string
                       /\ second_stopping st2' = false
                       /\ encoded st2' = encoded st1
                       /\ written st2'
                          = if stopped_by_other det then [] else ["stop"%string])
    as (st2' & -> & Hst2 & Htok2 & Hs22 & He2 & Hw2).
  { subst st2. destruct (stopped_by_other det); simpl; eexists; repeat split; done. }
  rewrite read_loop_app.
  destruct (read_loop_draining inf post st2' Hst2 Htok2 Hpost)
    as (st3 & -> & Hst3 & Htok3 & He3 & Hw3).
  simpl. unfold read_step.
  unfold first_word in Hbm1. unfold second_word in Hbm2.
  destruct (String.words (line bm)) as [| t ws]; [discriminate |].
  simpl in Hbm1. injection Hbm1 as ->. simpl.
  destruct (String.eqb_spec
              (match ws with t :: _ => t | [] => "bestmove"%string end) "info")
    as [Heq | _].
  { destruct ws as [| t ws]; [discriminate |]. simpl in Hbm2. congruence. }
  simpl. rewrite Hst3. eexists. split; [reflexivity |]. simpl.
  rewrite Hw3, Hs22, Hw2, He3, He2. done.
Qed.

Lemma stop_while_reading_the_helper_witness :
  exists st',
    DoAuxEngine_read false true ([line1] ++ line2 :: [line3; line4] ++ line5 :: [])
      read_init = Returned st'
    /\ written st' = ["stop"%string] ++ repeat "stop"%string 1
    /\ encoded st' = [].
Proof.
  apply (stop_while_reading_the_helper false true [line1] [line3; line4] []
           line2 line5
           (mkReadState "info" (line line1) false false false false [] [])).
  - reflexivity.
  - reflexivity.
  - reflexivity.
  - vm_compute. discriminate.
  - repeat constructor; vm_compute; discriminate.
  - reflexivity.
  - vm_compute. discriminate.
Defined.

(** C9 as stated fails in both directions.  A helper that sends two more
    lines before [bestmove] is sent [stop] twice; a helper whose slot another
    thread has already marked stopped is sent no [stop] by the worker. *)
Lemma stop_is_not_written_exactly_once :
  (exists st',
     DoAuxEngine_read false true [line1; line2; line3; line4; line5] read_init
     = Returned st'
     /\ written st' = ["stop"%string; "stop"%string] /\ stops_sent st' = 2%nat)
  /\ (exists st',
        DoAuxEngine_read false true [line1; line2_stopped; line5] read_init
        = Returned st'
        /\ written st' = [] /\ stops_sent st' = 0%nat).
Proof. split; eexists; repeat split. Qed.

(** ** Truncation of the encoded PV *)

Lemma digits_prefix_strip (w : string) (ds : list Z) (rest : string) :
  digits_prefix w = (ds, rest) -> strip_int_chars rest = strip_int_chars w.
Proof.
  revert ds rest. induction w as [| c w IH]; intros ds rest; simpl.
  - by intros [= <- <-].
  - unfold is_int_char. destruct (is_digit c) eqn:Hd; simpl.
    + destruct (digits_prefix w) as [ds' rest'] eqn:Hw.
      intros [= <- <-]. by eapply IH.
    + intros [= <- <-]. simpl. unfold is_int_char. by rewrite Hd.
Qed.

Lemma parse_int_prefix_strip (w : string) (v : Z) (w' : string) :
  parse_int_prefix w = Some (v, w') -> strip_int_chars w' = strip_int_chars w.
Proof.
  unfold parse_int_prefix. destruct w as [| c r]; simpl.
  - discriminate.
  - unfold is_int_char.
    destruct (Ascii.eqb c "-") eqn:Hm; [| destruct (Ascii.eqb c "+") eqn:Hp].
    + destruct (digits_prefix r) as [[| d ds] rest] eqn:Hr; [discriminate |].
      intros [= <- <-]. rewrite orb_true_r. by eapply digits_prefix_strip.
    + destruct (digits_prefix r) as [[| d ds] rest] eqn:Hr; [discriminate |].
      intros [= <- <-]. rewrite orb_true_r. simpl. by eapply digits_prefix_strip.
    + destruct (digits_prefix (String c r)) as [[| d ds] rest] eqn:Hr;
        [discriminate |].
      intros [= <- <-]. rewrite (digits_prefix_strip _ _ _ Hr). simpl.
      unfold is_int_char. by rewrite Hm, Hp.
Qed.

Lemma skip_ws_Some (wsf : bool) (toks toks' : list string) :
  skip_ws wsf toks = Some toks' -> toks' = toks.
Proof. destruct toks; simpl; [destruct wsf |]; congruence. Qed.

Lemma next_token_Some (wsf : bool) (toks rest : list string) (pv : string) :
  next_token wsf toks = Some (pv, rest) -> toks = pv :: rest.
Proof.
  destruct toks as [| w toks]; simpl; [discriminate |].
  destruct (skip_ws wsf toks) as [r |] eqn:Hs; simpl; [| discriminate].
  intros [= <- <-]. by rewrite (skip_ws_Some _ _ _ Hs).
Qed.

(** An extraction that succeeds does not lengthen the stream and does not
    make it report a depth more often. *)
Lemma extract_int_Some (wsf : bool) (cur v : Z) (toks toks' : list string) :
  extract_int wsf cur toks = (v, Some toks') ->
  (length toks' <= length toks)%nat
  /\ (depth_reports toks' <= depth_reports toks)%nat.
Proof.
  unfold extract_int. destruct toks as [| w rest]; [discriminate |].
  destruct (parse_int_prefix w) as [[v0 w'] |] eqn:Hp; [| discriminate].
  destruct (INT_MAX <? v0); [discriminate |].
  destruct (v0 <? INT_MIN); [discriminate |].
  intros [= <- Hs]. apply skip_ws_Some in Hs. subst toks'.
  apply parse_int_prefix_strip in Hp.
  destruct (String.eqb w' ""); simpl.
  - split; lia.
  - unfold reports_depth. rewrite Hp. split; lia.
Qed.

Section Truncation.
Context `{Externals}.

Lemma encode_move_inv (b : bool) (moves : list Move) (m : Move) (e : Encoder) :
  encoder_inv b moves e ->
  pv_length e < depth_reached e -> pv_length e < max_pv_length ->
  encoder_inv b moves (encode_move m e).
Proof.
  intros (Hlen & Hcap & Hmoves & Hdepth) Hd Hc.
  unfold encoder_inv, encode_move, size in *. simpl.
  rewrite length_app, Hmoves, <- app_assoc. simpl.
  split; [lia |]. split; [lia |]. split; [reflexivity |].
  intros _. right. lia.
Qed.

Lemma pv_loop_inv (b : bool) (moves : list Move) (wsf : bool)
    (toks : list string) (e e' : Encoder) (o : option (list string)) :
  pv_loop wsf toks e = (e', o) ->
  encoder_inv b moves e ->
  encoder_inv b moves e'
  /\ depth_reached e' = depth_reached e
  /\ forall toks', o = Some toks' ->
       (length toks' < length toks)%nat
       /\ (depth_reports toks' <= depth_reports toks)%nat.
Proof.
  assert (forall (pv : string) (rest : list string) (e0 : Encoder),
            encoder_inv b moves e0 ->
            encoder_inv b moves e0
            /\ depth_reached e0 = depth_reached e0
            /\ forall toks', Some rest = Some toks' ->
                 (length toks' < length (pv :: rest))%nat
                 /\ (depth_reports toks' <= depth_reports (pv :: rest))%nat)
    as Hstay.
  { intros pv rest e0 Hinv. split; [exact Hinv |]. split; [reflexivity |].
    intros toks' [= <-]. simpl. split; lia. }
  revert e. induction toks as [| pv rest IH]; intros e; simpl.
  - intros [= <- <-] Hinv. split; [exact Hinv |]. split; [reflexivity |].
    intros toks' Ho. discriminate.
  - destruct (skip_ws wsf rest) as [r |].
    2: { intros [= <- <-] Hinv. split; [exact Hinv |]. split; [reflexivity |].
         intros toks' Ho. discriminate. }
    destruct (Z.ltb_spec (pv_length e) (depth_reached e)) as [Hd | Hd]; simpl;
      [destruct (Z.ltb_spec (pv_length e) max_pv_length) as [Hc | Hc] |]; simpl.
    + destruct (ParseMove pv (negb (flip e))) as [m |].
      * intros Hl Hinv.
        destruct (IH _ Hl (encode_move_inv b moves m e Hinv Hd Hc))
          as (Hinv' & Hdepth & Htoks).
        split; [exact Hinv' |]. split; [exact Hdepth |].
        intros toks' Ho. destruct (Htoks toks' Ho). split; lia.
      * intros [= <- <-]. apply Hstay.
    + intros [= <- <-]. apply Hstay.
    + intros [= <- <-]. apply Hstay.
Qed.

(** The inner loop reads at least one word when it hands the stream back. *)
Lemma pv_loop_shortens (wsf : bool) (toks toks' : list string) (e e' : Encoder) :
  pv_loop wsf toks e = (e', Some toks') -> (length toks' < length toks)%nat.
Proof.
  revert e. induction toks as [| w toks IH]; intros e; simpl; [discriminate |].
  destruct (skip_ws wsf toks); [| discriminate].
  destruct (_ && _); [destruct (ParseMove _ _) |].
  - intros Hl. apply IH in Hl. lia.
  - intros [= <- <-]. lia.
  - intros [= <- <-]. lia.
Qed.

Lemma depth_pending_mono (b : bool) (toks toks' : list string) (e e' : Encoder) :
  depth_pending b toks e ->
  (depth_reports toks' <= depth_reports toks)%nat ->
  depth_reached e' = depth_reached e ->
  depth_pending b toks' e'.
Proof.
  intros Hp Hmono Hd Hb. destruct (Hp Hb) as [Hle Hzero]. split; [lia |].
  intros Hone. rewrite Hd. apply Hzero. lia.
Qed.

(** Every turn of the outer loop keeps the invariant; its part on the depth
    needs the line to report its depth at most once. *)
Lemma encode_loop_inv (b : bool) (moves : list Move)
    (wsf require_some_depth : bool)
    (fuel : nat) (toks : list string) (e e' : Encoder) :
  encode_loop fuel wsf require_some_depth toks e = Some (Parsed e') ->
  depth_pending b toks e -> encoder_inv b moves e -> encoder_inv b moves e'.
Proof.
  revert toks e. induction fuel as [| fuel IH]; intros toks e; simpl;
    [discriminate |].
  destruct (next_token wsf toks) as [[pv rest] |] eqn:Hnext;
    [| by intros [= <-]].
  apply next_token_Some in Hnext. subst toks.
  destruct (String.eqb_spec pv "info") as [-> | _].
  { intros Hl Hp Hinv. apply (IH _ _ Hl); [| exact Hinv].
    eapply depth_pending_mono; [exact Hp | simpl; lia | reflexivity]. }
  destruct (String.eqb_spec pv "string") as [-> | _]; [discriminate |].
  destruct (String.eqb_spec pv "depth") as [-> | Hnd].
  { destruct (extract_int wsf (depth_reached e) rest) as [v o] eqn:Hx.
    intros Hl Hp Hinv.
    assert (encoder_inv b moves (set_depth_reached v e)) as Hinv'.
    { destruct Hinv as (Hlen & Hcap & Hmoves & Hdepth).
      unfold encoder_inv, size in *. simpl.
      split; [exact Hlen |]. split; [exact Hcap |]. split; [exact Hmoves |].
      intros Hb. destruct (Hp Hb) as [Hle Hzero].
      assert (depth_reached e = 0) as Hd by (apply Hzero; simpl in *; lia).
      left. destruct (Hdepth Hb); lia. }
    destruct o as [rest' |]; [| by injection Hl as <-].
    apply (IH _ _ Hl); [| exact Hinv'].
    destruct (extract_int_Some _ _ _ _ _ Hx) as [_ Hmono].
    intros Hb. destruct (Hp Hb) as [Hle _]. simpl in Hle. split; lia. }
  destruct (String.eqb_spec pv "nodes") as [-> | Hnn].
  { destruct (extract_int wsf (nodes_to_support e) rest) as [v o] eqn:Hx.
    intros Hl Hp Hinv.
    assert (encoder_inv b moves (set_nodes_to_support v e)) as Hinv' by exact Hinv.
    destruct o as [rest' |]; [| by injection Hl as <-].
    apply (IH _ _ Hl); [| exact Hinv'].
    destruct (extract_int_Some _ _ _ _ _ Hx) as [_ Hmono].
    eapply depth_pending_mono; [exact Hp | simpl; lia | reflexivity]. }
  assert (depth_reports rest <= depth_reports (pv :: rest))%nat as Hrest
    by (simpl; lia).
  destruct (String.eqb pv "pv" && _).
  - destruct (pv_loop wsf rest e) as [e1 o] eqn:Hpv.
    intros Hl Hp Hinv.
    destruct (pv_loop_inv b moves _ _ _ _ _ Hpv Hinv) as (Hinv1 & Hd1 & Htoks).
    destruct o as [rest' |]; [| by injection Hl as <-].
    apply (IH _ _ Hl); [| exact Hinv1].
    destruct (Htoks rest' eq_refl) as [_ Hmono].
    eapply depth_pending_mono; [exact Hp | lia | exact Hd1].
  - intros Hl Hp Hinv. apply (IH _ _ Hl); [| exact Hinv].
    eapply depth_pending_mono; [exact Hp | exact Hrest | reflexivity].
Qed.

(** The loop ends within as many turns as the line has words. *)
Lemma encode_loop_terminates (wsf require_some_depth : bool) (fuel : nat)
    (toks : list string) (e : Encoder) :
  (length toks < fuel)%nat ->
  exists r, encode_loop fuel wsf require_some_depth toks e = Some r.
Proof.
  revert toks e. induction fuel as [| fuel IH]; intros toks e Hfuel; [lia |].
  simpl.
  destruct (next_token wsf toks) as [[pv rest] |] eqn:Hnext; [| by eexists].
  apply next_token_Some in Hnext. subst toks. simpl in Hfuel.
  destruct (String.eqb pv "info"); [apply IH; lia |].
  destruct (String.eqb pv "string"); [by eexists |].
  destruct (String.eqb pv "depth").
  { destruct (extract_int wsf (depth_reached e) rest) as [v [rest' |]] eqn:Hx;
      [| by eexists].
    destruct (extract_int_Some _ _ _ _ _ Hx) as [Hlen _]. apply IH. lia. }
  destruct (String.eqb pv "nodes").
  { destruct (extract_int wsf (nodes_to_support e) rest) as [v [rest' |]] eqn:Hx;
      [| by eexists].
    destruct (extract_int_Some _ _ _ _ _ Hx) as [Hlen _]. apply IH. lia. }
  destruct (String.eqb pv "pv" && _); [| apply IH; lia].
  destruct (pv_loop wsf rest e) as [e1 [rest' |]] eqn:Hpv; [| by eexists].
  apply pv_loop_shortens in Hpv. apply IH. lia.
Qed.

Lemma encoder_inv_initially (b flip0 : bool) (board : ChessBoard)
    (moves : list Move) :
  encoder_inv b moves (mkEncoder 0 0 1 flip0 board moves []).
Proof.
  unfold encoder_inv, size, max_pv_length. simpl. rewrite app_nil_r.
  split; [lia |]. split; [lia |]. split; [reflexivity |].
  intros _. left. reflexivity.
Qed.


(** ** What the encoder stores of the usual line *)

Import Lines LineSamples.




Lemma encode_loop_S (fuel : nat) (wsf require_some_depth : bool)
    (toks : list string) (e : Encoder) :
  encode_loop (S fuel) wsf require_some_depth toks e
  = match next_token wsf toks with
    | None => Some (Parsed e)
    | Some (pv, rest) =>
        if String.eqb pv "info" then
          encode_loop fuel wsf require_some_depth rest e
        else if String.eqb pv "string" then Some NotForUs
        else if String.eqb pv "depth" then
          let '(v, o) := extract_int wsf (depth_reached e) rest in
          match o with
          | None => Some (Parsed (set_depth_reached v e))
          | Some rest' =>
              encode_loop fuel wsf require_some_depth rest'
                (set_depth_reached v e)
          end
        else if String.eqb pv "nodes" then
          let '(v, o) := extract_int wsf (nodes_to_support e) rest in
          match o with
          | None => Some (Parsed (set_nodes_to_support v e))
          | Some rest' =>
              encode_loop fuel wsf require_some_depth rest'
                (set_nodes_to_support v e)
          end
        else if String.eqb pv "pv"
                && (negb require_some_depth
                    || (1000 <=? nodes_to_support e)
                    || (10 <? depth_reached e)) then
          let '(e', o) := pv_loop wsf rest e in
          match o with
          | None => Some (Parsed e')
          | Some rest' => encode_loop fuel wsf require_some_depth rest' e'
          end
        else encode_loop fuel wsf require_some_depth rest e
    end.
Proof. reflexivity. Qed.

(** More turns than the loop needs change nothing. *)
Lemma encode_loop_more_fuel (wsf require_some_depth : bool) (fuel : nat) :
  forall toks e r fuel',
    encode_loop fuel wsf require_some_depth toks e = Some r ->
    (fuel <= fuel')%nat ->
    encode_loop fuel' wsf require_some_depth toks e = Some r.
Proof.
  induction fuel as [|fuel IH]; intros toks e r fuel' Hrun Hle;
    [discriminate|].
  destruct fuel' as [|fuel']; [lia|].
  rewrite encode_loop_S in Hrun |- *.
  destruct (next_token wsf toks) as [[pv rest]|]; [|exact Hrun].
  destruct (String.eqb pv "info"); [apply (IH _ _ _ _ Hrun); lia|].
  destruct (String.eqb pv "string"); [exact Hrun|].
  destruct (String.eqb pv "depth").
  { destruct (extract_int wsf (depth_reached e) rest) as [v [rest'|]];
      [apply (IH _ _ _ _ Hrun); lia|exact Hrun]. }
  destruct (String.eqb pv "nodes").
  { destruct (extract_int wsf (nodes_to_support e) rest) as [v [rest'|]];
      [apply (IH _ _ _ _ Hrun); lia|exact Hrun]. }
  destruct (String.eqb pv "pv" && _).
  { destruct (pv_loop wsf rest e) as [e' [rest'|]];
      [apply (IH _ _ _ _ Hrun); lia|exact Hrun]. }
  apply (IH _ _ _ _ Hrun); lia.
Qed.

Lemma keyword_false (w : string) :
  keyword w = false ->
  String.eqb w "info" = false /\ String.eqb w "string" = false
  /\ String.eqb w "depth" = false /\ String.eqb w "nodes" = false
  /\ String.eqb w "pv" = false.
Proof.
  unfold keyword. intros Hk.
  repeat (apply orb_false_iff in Hk as [Hk ?]). auto.
Qed.

(** Words that are no keywords are passed over, one per turn, as long as
    something follows them. *)
Lemma encode_loop_skips (wsf require_some_depth : bool) (mid : list string) :
  forall fuel rest e,
    Forall (fun w => keyword w = false) mid -> rest <> [] ->
    encode_loop (length mid + fuel) wsf require_some_depth (mid ++ rest) e
    = encode_loop fuel wsf require_some_depth rest e.
Proof.
  induction mid as [|w mid IH]; intros fuel rest e Hmid Hrest; [reflexivity|].
  inversion Hmid as [|? ? Hw Hmid']; subst.
  destruct (keyword_false w Hw) as (H1 & H2 & H3 & H4 & H5).
  cbn [length app Nat.add]. rewrite encode_loop_S.
  unfold next_token, skip_ws.
  destruct (mid ++ rest) eqn:Hnext;
    [apply app_eq_nil in Hnext as [_ ?]; contradiction|].
  cbn [fmap option_fmap option_map].
  rewrite H1, H2, H3, H4, H5. cbn [andb]. rewrite <- Hnext.
  apply IH; assumption.
Qed.

(** At the end of the line they are passed over until the input is
    exhausted. *)
Lemma encode_loop_skips_to_end (wsf require_some_depth : bool)
    (mid : list string) :
  forall e,
    Forall (fun w => keyword w = false) mid ->
    encode_loop (length mid + 1) wsf require_some_depth mid e
    = Some (Parsed e).
Proof.
  induction mid as [|w mid IH]; intros e Hmid; [reflexivity|].
  inversion Hmid as [|? ? Hw Hmid']; subst.
  destruct (keyword_false w Hw) as (H1 & H2 & H3 & H4 & H5).
  cbn [length Nat.add]. rewrite encode_loop_S.
  unfold next_token.
  destruct (skip_ws wsf mid) as [rest|] eqn:Hskip; [|reflexivity].
  apply skip_ws_Some in Hskip. subst rest.
  cbn [fmap option_fmap option_map].
  rewrite H1, H2, H3, H4, H5. cbn [andb]. apply IH, Hmid'.
Qed.

Lemma extract_int_word (wsf : bool) (cur : Z) (w : string) (v : Z)
    (rest : list string) :
  parse_int_prefix w = Some (v, EmptyString) ->
  INT_MIN <= v <= INT_MAX -> rest <> [] ->
  extract_int wsf cur (w :: rest) = (v, Some rest).
Proof.
  intros Hparse Hrange Hrest. unfold extract_int. rewrite Hparse.
  destruct (Z.ltb_spec INT_MAX v); [lia|].
  destruct (Z.ltb_spec v INT_MIN); [lia|].
  cbn [String.eqb]. unfold skip_ws.
  destruct rest; [contradiction|reflexivity].
Qed.

Lemma convert_moves_length (ws : list string) :
  forall board flip0 all,
    convert_moves board flip0 ws = Some all -> length all = length ws.
Proof.
  induction ws as [|w ws IH]; intros board flip0 all Hall.
  - cbn in Hall. injection Hall as <-. reflexivity.
  - cbn [convert_moves] in Hall.
    destruct (ParseMove w (negb flip0)); [|discriminate].
    destruct (convert_moves _ _ ws) as [all'|] eqn:Hall'; [|discriminate].
    cbn in Hall. injection Hall as <-. cbn [length]. f_equal.
    exact (IH _ _ _ Hall').
Qed.

(** The inner loop stores the converted words of the PV as far as there is
    room.  Where [std::ws] fails at the end of the input, the last word of
    the line is read but not stored. *)
Lemma pv_loop_stores (wsf : bool) (ws : list string) :
  forall e all,
    convert_moves (my_board e) (flip e) ws = Some all ->
    exists e' o,
      pv_loop wsf ws e = (e', o)
      /\ depth_reached e' = depth_reached e
      /\ nodes_to_support e' = nodes_to_support e
      /\ pv_moves e'
         = pv_moves e
             ++ take (room e) (if wsf then removelast all else all)
      /\ my_moves_from_the_white_side e'
         = my_moves_from_the_white_side e
             ++ take (room e) (if wsf then removelast all else all)
      /\ forall rest, o = Some rest -> exists k, rest = drop k ws.
Proof.
  induction ws as [|w ws IH]; intros e all Hall.
  - cbn in Hall. injection Hall as <-. exists e, None. cbn [pv_loop].
    destruct wsf; cbn [removelast]; rewrite take_nil, !app_nil_r;
      repeat split; try reflexivity; discriminate.
  - cbn [convert_moves] in Hall.
    destruct (ParseMove w (negb (flip e))) as [m|] eqn:Hparse; [|discriminate].
    destruct (convert_moves _ _ ws) as [all'|] eqn:Hall'; [|discriminate].
    cbn in Hall. injection Hall as <-.
    pose proof (convert_moves_length _ _ _ _ Hall') as Hlen.
    cbn [pv_loop].
    destruct (skip_ws wsf ws) as [ws0|] eqn:Hskip.
    2: { unfold skip_ws in Hskip. destruct ws; [|discriminate].
         destruct wsf; [|discriminate].
         destruct all'; [|discriminate]. exists e, None.
         cbn [removelast]. rewrite take_nil, !app_nil_r.
         repeat split; try reflexivity. discriminate. }
    apply skip_ws_Some in Hskip as Hsame. subst ws0.
    assert (Hne : wsf = true -> ws <> []).
    { intros -> ->. discriminate Hskip. }
    clear Hskip. unfold room.
    destruct (Z.ltb_spec (pv_length e) (depth_reached e)) as [Hd|Hd];
      destruct (Z.ltb_spec (pv_length e) max_pv_length) as [Hc|Hc];
      cbn [andb].
    2-4: (exists e, (Some ws);
          replace (Z.to_nat (Z.min (depth_reached e) max_pv_length
                             - pv_length e)) with O by lia;
          cbn [take]; rewrite !app_nil_r;
          repeat split; try reflexivity;
          intros rest [= <-]; exists 1%nat; reflexivity).
    rewrite Hparse.
    destruct (IH (encode_move m e) all' Hall')
      as (e' & o & Hrun & Hdepth & Hnodes & Hpv & Hmoves & Hrest).
    exists e', o. rewrite Hrun. split; [reflexivity|].
    cbn [encode_move depth_reached nodes_to_support pv_moves
         my_moves_from_the_white_side] in Hdepth, Hnodes, Hpv, Hmoves.
    split; [exact Hdepth|]. split; [exact Hnodes|].
    unfold room in Hpv, Hmoves.
    cbn [encode_move depth_reached pv_length] in Hpv, Hmoves.
    assert (Hstored :
              take (Z.to_nat (Z.min (depth_reached e) max_pv_length
                              - pv_length e))
                (if wsf then removelast (GetModernMove (my_board e) m :: all')
                 else GetModernMove (my_board e) m :: all')
              = GetModernMove (my_board e) m
                  :: take (Z.to_nat (Z.min (depth_reached e) max_pv_length
                                     - (pv_length e + 1)))
                       (if wsf then removelast all' else all')).
    { replace (Z.to_nat (Z.min (depth_reached e) max_pv_length - pv_length e))
        with (S (Z.to_nat (Z.min (depth_reached e) max_pv_length
                           - (pv_length e + 1)))) by lia.
      destruct wsf; [|reflexivity].
      specialize (Hne eq_refl).
      destruct ws as [|w' ws']; [contradiction|].
      destruct all' as [|a all']; [discriminate|]. reflexivity. }
    rewrite Hstored, Hpv, Hmoves, <- !app_assoc.
    split; [reflexivity|]. split; [reflexivity|].
    intros rest Ho. destruct (Hrest rest Ho) as [k ->].
    exists (S k). reflexivity.
Qed.

Lemma encode_usual_line (wsf require_some_depth : bool) (wd wn : string)
    (mid1 mid2 ws : list string) (d n : Z) (all : list Move) (e0 : Encoder) :
  parse_int_prefix wd = Some (d, EmptyString) -> INT_MIN <= d <= INT_MAX ->
  parse_int_prefix wn = Some (n, EmptyString) -> INT_MIN <= n <= INT_MAX ->
  Forall (fun w => keyword w = false) mid1 ->
  Forall (fun w => keyword w = false) mid2 ->
  Forall (fun w => keyword w = false) ws ->
  convert_moves (my_board e0) (flip e0) ws = Some all ->
  require_some_depth = false \/ 1000 <= n \/ 10 < d ->
  exists fuel e,
    encode_loop fuel wsf require_some_depth
      (usual_line wd wn mid1 mid2 ws) e0 = Some (Parsed e)
    /\ depth_reached e = d /\ nodes_to_support e = n
    /\ pv_moves e
       = pv_moves e0
           ++ take (Z.to_nat (Z.min d max_pv_length - pv_length e0))
                (if wsf then removelast all else all)
    /\ my_moves_from_the_white_side e
       = my_moves_from_the_white_side e0
           ++ take (Z.to_nat (Z.min d max_pv_length - pv_length e0))
                (if wsf then removelast all else all).
Proof.
  intros Hwd Hd Hwn Hn Hmid1 Hmid2 Hws Hall Hreq.
  set (e2 := set_nodes_to_support n (set_depth_reached d e0)).
  destruct (pv_loop_stores wsf ws e2 all Hall)
    as (e' & o & Hpv & Hdepth & Hnodes & Hstored & Hmoves & Hrest).
  assert (Hhead :
            forall fuel,
              encode_loop (S (S (length mid1 + S (length mid2 + fuel)))) wsf
                require_some_depth (usual_line wd wn mid1 mid2 ws) e0
              = encode_loop fuel wsf require_some_depth
                  ("pv"%string :: ws) e2).
  { intros fuel. unfold usual_line.
    rewrite encode_loop_S. cbn [next_token skip_ws fmap option_fmap option_map].
    cbn [String.eqb Ascii.eqb Bool.eqb].
    rewrite encode_loop_S. cbn [next_token skip_ws fmap option_fmap option_map].
    cbn [String.eqb Ascii.eqb Bool.eqb].
    rewrite (extract_int_word _ _ wd d _ Hwd Hd)
      by (destruct mid1; discriminate).
    rewrite (encode_loop_skips _ _ mid1 _ _ _ Hmid1) by discriminate.
    rewrite encode_loop_S. cbn [next_token skip_ws fmap option_fmap option_map].
    cbn [String.eqb Ascii.eqb Bool.eqb].
    rewrite (extract_int_word _ _ wn n _ Hwn Hn)
      by (destruct mid2; discriminate).
    rewrite (encode_loop_skips _ _ mid2 _ _ _ Hmid2) by discriminate.
    reflexivity. }
  assert (Haccept : negb require_some_depth
                    || (1000 <=? nodes_to_support e2)
                    || (10 <? depth_reached e2) = true).
  { unfold e2. cbn [nodes_to_support depth_reached set_nodes_to_support
                    set_depth_reached].
    destruct Hreq as [->|[Hbig|Hdeep]]; [reflexivity| |].
    - destruct (Z.leb_spec 1000 n); [|lia]. apply orb_true_iff. left.
      apply orb_true_r.
    - destruct (Z.ltb_spec 10 d); [|lia]. apply orb_true_r. }
  assert (Hfacts :
            depth_reached e' = d /\ nodes_to_support e' = n
            /\ pv_moves e'
               = pv_moves e0
                   ++ take (Z.to_nat (Z.min d max_pv_length - pv_length e0))
                        (if wsf then removelast all else all)
            /\ my_moves_from_the_white_side e'
               = my_moves_from_the_white_side e0
                   ++ take (Z.to_nat (Z.min d max_pv_length - pv_length e0))
                        (if wsf then removelast all else all)).
  { unfold room, e2 in *.
    cbn [depth_reached nodes_to_support pv_moves pv_length
         my_moves_from_the_white_side set_nodes_to_support set_depth_reached]
      in *.
    auto. }
  exists (S (S (length mid1 + S (length mid2 + S (length ws + 1))))), e'.
  split; [|exact Hfacts].
  rewrite Hhead, encode_loop_S. unfold next_token.
  destruct (skip_ws wsf ws) as [ws0|] eqn:Hskip.
  - apply skip_ws_Some in Hskip as Hsame. subst ws0.
    cbn [fmap option_fmap option_map].
    cbn [String.eqb Ascii.eqb Bool.eqb andb].
    rewrite Haccept, Hpv.
    destruct o as [rest|]; [|reflexivity].
    destruct (Hrest rest eq_refl) as [k ->].
    apply (encode_loop_more_fuel wsf require_some_depth
             (length (drop k ws) + 1)); [|rewrite length_drop; lia].
    apply encode_loop_skips_to_end. apply Forall_drop. exact Hws.
  - cbn [fmap option_fmap option_map].
    unfold skip_ws in Hskip. destruct ws; [|discriminate].
    destruct wsf; [|discriminate].
    cbn [pv_loop] in Hpv. injection Hpv as <- <-. reflexivity.
Qed.

(** C8, as the code has it.  The encoder reaches the end of every line.
    The moves it has then stored are fewer than 99 and, on a line that
    reports its depth at most once, none or fewer than that depth.  On the
    usual line, [info depth d .. nodes n .. pv m1 m2 ..] with nothing after
    the PV, the moves it stores are exactly the first [min d 99 - 1] moves of
    the PV, converted one after the other; where [std::ws] fails at the end
    of the input the last word of the line is left out before.  What is
    pushed afterwards is not these moves alone but the moves from the root
    to the node followed by them. *)
Theorem AuxEncode_truncates_at_depth_and_cap (s : Search)
    (pv_as_string : string) (depth : Z) (board : ChessBoard)
    (moves : list Move) (require_some_depth : bool) :
  exists r,
    encode_line s pv_as_string depth board moves require_some_depth = Some r
    /\ (forall e, r = Parsed e ->
          size (pv_moves e) < 99
          /\ my_moves_from_the_white_side e = moves ++ pv_moves e
          /\ ((depth_reports (String.words pv_as_string) <= 1)%nat ->
              size (pv_moves e) = 0 \/ size (pv_moves e) < depth_reached e))
    /\ (forall wd wn mid1 mid2 ws d n all,
          String.words pv_as_string = usual_line wd wn mid1 mid2 ws ->
          parse_int_prefix wd = Some (d, EmptyString) ->
          INT_MIN <= d <= INT_MAX ->
          parse_int_prefix wn = Some (n, EmptyString) ->
          INT_MIN <= n <= INT_MAX ->
          Forall (fun w => keyword w = false) (mid1 ++ mid2 ++ ws) ->
          convert_moves board
            (xorb (played_history_IsBlackToMove s) (Z.rem depth 2 =? 0)) ws
          = Some all ->
          require_some_depth = false \/ 1000 <= n \/ 10 < d ->
          exists e,
            r = Parsed e
            /\ depth_reached e = d /\ nodes_to_support e = n
            /\ pv_moves e
               = take (Z.to_nat (Z.min d 99 - 1))
                   (if ws_fails_at_end pv_as_string then removelast all
                    else all)).
Proof.
  unfold encode_line.
  set (e0 := mkEncoder 0 0 1
               (xorb (played_history_IsBlackToMove s) (Z.rem depth 2 =? 0))
               board moves []).
  destruct (encode_loop_terminates (ws_fails_at_end pv_as_string)
              require_some_depth (S (length (String.words pv_as_string)))
              (String.words pv_as_string) e0) as [r Hr]; [lia|].
  exists r. split; [exact Hr|]. split.
  - intros e ->.
    pose proof (encode_loop_inv false moves _ _ _ _ _ _ Hr) as Hcap.
    destruct Hcap as (Hlen & Hcap & Hmoves & _);
      [intros Hb; discriminate|apply encoder_inv_initially|].
    unfold max_pv_length in Hcap.
    split; [lia|]. split; [exact Hmoves|].
    intros Honce.
    pose proof (encode_loop_inv true moves _ _ _ _ _ _ Hr) as Hdepth.
    destruct Hdepth as (_ & _ & _ & Hdepth);
      [intros _; split; [exact Honce|reflexivity]
      |apply encoder_inv_initially|].
    destruct (Hdepth eq_refl); lia.
  - intros wd wn mid1 mid2 ws d n all Hwords Hwd Hd Hwn Hn Hkw Hall Hreq.
    apply Forall_app in Hkw as [Hmid1 Hkw].
    apply Forall_app in Hkw as [Hmid2 Hws].
    destruct (encode_usual_line (ws_fails_at_end pv_as_string)
                require_some_depth wd wn mid1 mid2 ws d n all
                e0 Hwd Hd Hwn Hn Hmid1 Hmid2 Hws Hall Hreq)
      as (fuel & e & Hrun & Hdepth & Hnodes & Hstored & _).
    exists e. rewrite Hwords in Hr.
    assert (r = Parsed e) as ->.
    { destruct (Nat.le_ge_cases fuel
                  (S (length (usual_line wd wn mid1 mid2 ws)))) as [Hle|Hge].
      - pose proof (encode_loop_more_fuel _ _ _ _ _ _ _ Hrun Hle) as Hrun'.
        rewrite Hrun' in Hr. injection Hr as <-. reflexivity.
      - pose proof (encode_loop_more_fuel _ _ _ _ _ _ _ Hr Hge) as Hr'.
        rewrite Hrun in Hr'. injection Hr' as <-. reflexivity. }
    split; [reflexivity|]. split; [exact Hdepth|]. split; [exact Hnodes|].
    rewrite Hstored. reflexivity.
Qed.

End Truncation.

Import Lines LineSamples.

Lemma AuxEncode_truncates_at_depth_and_cap_witness :
  exists e,
    @encode_line sentry_externals idle_search open_line 3 tt
      [e2e4; e7e5; g1f3] false = Some (Parsed e)
    /\ size (pv_moves e) < 99
    /\ (size (pv_moves e) = 0 \/ size (pv_moves e) < depth_reached e)
    /\ depth_reached e = 9
    /\ pv_moves e = [3364; 3364; 4013; 3690; 3929].
Proof.
  destruct (@AuxEncode_truncates_at_depth_and_cap sentry_externals
              idle_search open_line 3 tt [e2e4; e7e5; g1f3] false)
    as (r & Hr & Hbound & Hexact).
  destruct (Hexact "9"%string "5000"%string ["seldepth"; "7"]%string
              ["nps"; "900"]%string
              ["e2e4"; "e7e5"; "g1f3"; "b8c6"; "f1b5"; "a7a6"]%string
              9 5000 [3364; 3364; 4013; 3690; 3929; 3112])
    as (e & -> & Hdepth & _ & Hstored).
  - reflexivity.
  - reflexivity.
  - unfold INT_MIN, INT_MAX. lia.
  - reflexivity.
  - unfold INT_MIN, INT_MAX. lia.
  - repeat constructor.
  - reflexivity.
  - left. reflexivity.
  - exists e. split; [exact Hr|].
    destruct (Hbound e eq_refl) as (Hcap & _ & Hshort).
    split; [exact Hcap|]. split; [apply Hshort; vm_compute; lia|].
    split; [exact Hdepth|exact Hstored].
Defined.

(** C8 as it was stated fails on the record that is pushed: a line that
    reports depth 5, queried for a node three plies below the root, puts a
    record of seven moves onto the PV queue; and on a line that reports a
    second, smaller depth after its PV the stored moves outnumber the depth
    last reported. *)
Lemma pushed_record_exceeds_the_reported_depth :
  (exists e record,
     @encode_line sentry_externals idle_search six_move_line 3 tt
       [e2e4; e7e5; g1f3] false = Some (Parsed e)
     /\ fast_track_extend_and_evaluate_queue_
          (@AuxEncode_and_Enqueue sentry_externals six_move_line 3 tt
             [e2e4; e7e5; g1f3] false idle_search) = [record]
     /\ depth_reached e = 5 /\ size record = 7)
  /\ (exists e,
        @encode_line sentry_externals idle_search two_depths_line 0 tt []
          false = Some (Parsed e)
        /\ depth_reached e = 3 /\ size (pv_moves e) = 4).
Proof.
  split.
  - exists (@mkEncoder sentry_externals 5 5000 5 false tt
              [796; 3364; 405; 3364; 3364; 4013; 3690]
              [3364; 3364; 4013; 3690]),
           [796; 3364; 405; 3364; 3364; 4013; 3690].
    split; [reflexivity|]. split; [reflexivity|].
    split; reflexivity.
  - exists (@mkEncoder sentry_externals 3 5000 5 true tt
              [796; 796; 405; 82] [796; 796; 405; 82]).
    split; [reflexivity|]. split; reflexivity.
Qed.

(* ===================================================================== *)
(** * Further properties: chess/position.cc                               *)
(* ===================================================================== *)

Import History BoardSamples.

(** ** The R-mobility walk *)

Lemma Rmobility_loop_window (pre window suffix : list Position.Position)
    (st : RmobilityState) :
  Rmobility_loop (pre ++ window ++ suffix) (length window)
    (Z.of_nat (length suffix)) st
  = Some (fold_left (fun st p => Rmobility_step p st) (rev window) st).
Proof.
  revert suffix st.
  induction window as [|x w IH] using rev_ind; intros suffix st.
  - reflexivity.
  - rewrite rev_unit, length_app, Nat.add_1_r. cbn [Rmobility_loop fold_left].
    unfold GetPositionAt.
    rewrite !length_app. cbn [length].
    replace (Z.of_nat (length pre + (length w + 1 + length suffix))
             - Z.of_nat (length suffix) - 1)
      with (Z.of_nat (length pre + length w)) by lia.
    destruct (Z.ltb_spec (Z.of_nat (length pre + length w)) 0) as [Hneg|_];
      [lia|].
    rewrite Nat2Z.id.
    replace (pre ++ (w ++ [x]) ++ suffix) with ((pre ++ w) ++ x :: suffix)
      by (rewrite <- !app_assoc; reflexivity).
    unfold PositionHistory.
    rewrite list_lookup_middle by (rewrite length_app; reflexivity).
    rewrite <- app_assoc.
    replace (Z.of_nat (length suffix) + 1)
      with (Z.of_nat (length (x :: suffix))) by (cbn [length]; lia).
    apply IH.
Qed.

Lemma Rmobility_loop_out_of_range (h : PositionHistory) (k : nat) (i : Z)
    (st : RmobilityState) :
  (0 < k)%nat -> 1 <= i -> Z.of_nat (length h) < i + Z.of_nat k ->
  Rmobility_loop h k i st = None.
Proof.
  revert i st. induction k as [|k IH]; intros i st Hk Hi Hlen; [lia|].
  cbn [Rmobility_loop]. unfold GetPositionAt.
  destruct (Z.ltb_spec (Z.of_nat (length h) - i - 1) 0) as [|Hidx];
    [reflexivity|].
  destruct (h !! Z.to_nat (Z.of_nat (length h) - i - 1)) as [p|];
    [|reflexivity].
  apply IH; lia.
Qed.

Lemma Rmobility_window_result (pre window : list Position.Position)
    (l : Position.Position) :
  GetRule50Ply l = Z.of_nat (length window) ->
  ComputeGameResultRmobility (pre ++ window ++ [l])
  = Some (result (fold_left (fun st p => Rmobility_step p st) (rev window)
                    {| best_number_of_legal_moves := 10;
                       is_black_to_move := IsBlackToMove l;
                       result := 21 |})).
Proof.
  intros Hr. unfold ComputeGameResultRmobility.
  rewrite app_assoc, last_snoc, <- app_assoc, Hr, Nat2Z.id.
  change 1 with (Z.of_nat (length [l])).
  rewrite Rmobility_loop_window. reflexivity.
Qed.

(** Every history with a last position splits into the positions the walk
    leaves out, those it visits and the last one, provided the counter does
    not reach before the first position. *)
Lemma history_window (h : PositionHistory) (l : Position.Position) :
  last h = Some l -> GetRule50Ply l <= Z.of_nat (length h) - 1 ->
  exists pre window,
    h = pre ++ window ++ [l]
    /\ length window = Z.to_nat (GetRule50Ply l).
Proof.
  intros Hl Hr. apply last_Some in Hl as [init ->].
  rewrite length_app in Hr. cbn [length] in Hr.
  exists (take (length init - Z.to_nat (GetRule50Ply l)) init),
         (drop (length init - Z.to_nat (GetRule50Ply l)) init).
  split.
  - rewrite app_assoc, take_drop. reflexivity.
  - rewrite length_drop. lia.
Qed.

Lemma Rmobility_defined_iff (h : PositionHistory) (l : Position.Position) :
  last h = Some l ->
  (is_Some (ComputeGameResultRmobility h)
   <-> GetRule50Ply l <= Z.of_nat (length h) - 1).
Proof.
  intros Hl. split.
  - intros [r Hr].
    destruct (Z.le_gt_cases (GetRule50Ply l) (Z.of_nat (length h) - 1))
      as [|Hgt]; [assumption|exfalso].
    assert (0 < length h)%nat by (destruct h; [discriminate|cbn; lia]).
    unfold ComputeGameResultRmobility in Hr. rewrite Hl in Hr.
    rewrite Rmobility_loop_out_of_range in Hr by lia. discriminate.
  - intros Hr.
    destruct (history_window h l Hl Hr) as (pre & window & -> & Hlen).
    destruct (Z.le_gt_cases (GetRule50Ply l) 0) as [Hneg|Hpos].
    + unfold ComputeGameResultRmobility. rewrite Hl.
      replace (Z.to_nat (GetRule50Ply l)) with O by lia.
      cbn. eauto.
    + rewrite Rmobility_window_result by lia. eauto.
Qed.

(** X1.  [ComputeGameResultRmobility] stays inside [positions_] exactly
    when the fifty-move counter of the last position is at most the number
    of positions before it; beyond that, [GetPositionAt] is called with a
    negative index. *)
Theorem Rmobility_reads_inside_history_iff (h : PositionHistory)
    (l : Position.Position) :
  last h = Some l ->
  (is_Some (ComputeGameResultRmobility h)
   <-> GetRule50Ply l <= Z.of_nat (length h) - 1).
Proof. apply Rmobility_defined_iff. Qed.


Lemma Rmobility_reads_inside_history_iff_witness :
  last (squeezed_history 9 true) = Some (mkPosition 20 false 100 false 0)
  /\ (is_Some (ComputeGameResultRmobility (squeezed_history 9 true))
      <-> GetRule50Ply (mkPosition 20 false 100 false 0)
          <= Z.of_nat (length (squeezed_history 9 true)) - 1).
Proof.
  split; [reflexivity|].
  apply (Rmobility_reads_inside_history_iff (squeezed_history 9 true)).
  reflexivity.
Defined.

Lemma result_as_int_range (b : bool) (L : Z) (c : bool) :
  0 <= L <= 9 -> 1 <= result_as_int b L c <= 40.
Proof.
  intros HL. unfold result_as_int.
  destruct b, c; cbn [b2z negb]; rewrite Z.mod_small; lia.
Qed.

Lemma Rmobility_fold_range (ps : list Position.Position) (st : RmobilityState) :
  1 <= result st <= 40 ->
  1 <= result (fold_left (fun st p => Rmobility_step p st) ps st) <= 40.
Proof.
  revert st. induction ps as [|p ps IH]; intros st Hst; [exact Hst|].
  cbn [fold_left]. apply IH. unfold Rmobility_step.
  destruct (Z.ltb_spec (Z.of_nat (legal_moves_size p)) 10);
    destruct (Z.leb_spec (Z.of_nat (legal_moves_size p))
                (best_number_of_legal_moves st));
    cbn [andb result]; try exact Hst.
  apply result_as_int_range. lia.
Qed.

Lemma Rmobility_fold_side (ps : list Position.Position) (st : RmobilityState) :
  is_black_to_move (fold_left (fun st p => Rmobility_step p st) ps st)
  = xorb (is_black_to_move st) (Nat.odd (length ps)).
Proof.
  revert st. induction ps as [|p ps IH]; intros st.
  - cbn. destruct (is_black_to_move st); reflexivity.
  - cbn [fold_left length]. rewrite IH, Nat.odd_succ, <- Nat.negb_odd.
    unfold Rmobility_step.
    destruct ((Z.of_nat (legal_moves_size p) <? 10)
              && (Z.of_nat (legal_moves_size p)
                  <=? best_number_of_legal_moves st));
      cbn [is_black_to_move];
      destruct (is_black_to_move st), (Nat.odd (length ps)); reflexivity.
Qed.

Lemma Rmobility_fold_best_ge (m : Z) (ps : list Position.Position)
    (st : RmobilityState) :
  Forall (fun q => m <= Z.of_nat (legal_moves_size q)) ps ->
  m <= best_number_of_legal_moves st ->
  m <= best_number_of_legal_moves
         (fold_left (fun st p => Rmobility_step p st) ps st).
Proof.
  revert st. induction ps as [|p ps IH]; intros st Hps Hst; [exact Hst|].
  inversion Hps as [|? ? Hp Hps']; subst.
  cbn [fold_left]. apply IH; [exact Hps'|]. unfold Rmobility_step.
  destruct ((Z.of_nat (legal_moves_size p) <? 10)
            && (Z.of_nat (legal_moves_size p)
                <=? best_number_of_legal_moves st));
    cbn [best_number_of_legal_moves]; assumption.
Qed.

Lemma Rmobility_fold_no_update (ps : list Position.Position)
    (st : RmobilityState) :
  Forall (fun q => best_number_of_legal_moves st
                   < Z.of_nat (legal_moves_size q)
                   \/ 10 <= Z.of_nat (legal_moves_size q)) ps ->
  result (fold_left (fun st p => Rmobility_step p st) ps st) = result st.
Proof.
  revert st. induction ps as [|p ps IH]; intros st Hps; [reflexivity|].
  inversion Hps as [|? ? Hp Hps']; subst.
  cbn [fold_left].
  assert (Hstep : Rmobility_step p st
                  = {| best_number_of_legal_moves := best_number_of_legal_moves st;
                       is_black_to_move := negb (is_black_to_move st);
                       result := result st |}).
  { unfold Rmobility_step.
    destruct (Z.ltb_spec (Z.of_nat (legal_moves_size p)) 10);
      destruct (Z.leb_spec (Z.of_nat (legal_moves_size p))
                  (best_number_of_legal_moves st));
      cbn [andb]; try reflexivity.
    lia. }
  rewrite Hstep, IH; [reflexivity|exact Hps'].
Qed.

(** X2.  Whatever the history, the value [ComputeGameResultRmobility]
    hands to [static_cast<GameResult>] lies between 1 and 40: it is never 0
    ([UNDECIDED]) and never 41. *)
Theorem Rmobility_result_between_1_and_40 (h : PositionHistory) (r : Z) :
  ComputeGameResultRmobility h = Some r -> 1 <= r <= 40.
Proof.
  intros Hr.
  destruct (last h) as [l|] eqn:Hl;
    [|unfold ComputeGameResultRmobility in Hr; rewrite Hl in Hr; discriminate].
  assert (Hin : GetRule50Ply l <= Z.of_nat (length h) - 1).
  { apply (Rmobility_defined_iff h l Hl). eauto. }
  destruct (Z.le_gt_cases (GetRule50Ply l) 0) as [Hneg|Hpos].
  - unfold ComputeGameResultRmobility in Hr. rewrite Hl in Hr.
    replace (Z.to_nat (GetRule50Ply l)) with O in Hr by lia.
    cbn in Hr. injection Hr as <-. lia.
  - destruct (history_window h l Hl Hin) as (pre & window & -> & Hlen).
    rewrite Rmobility_window_result in Hr by lia.
    injection Hr as <-. apply Rmobility_fold_range. cbn. lia.
Qed.

Lemma Rmobility_result_between_1_and_40_witness :
  ComputeGameResultRmobility (squeezed_history 9 true) = Some 21
  /\ 1 <= 21 <= 40.
Proof.
  split; [reflexivity|].
  apply (Rmobility_result_between_1_and_40 (squeezed_history 9 true) 21).
  reflexivity.
Defined.

(** X3.  When none of the positions the walk visits leaves fewer than ten
    legal moves, the result is [DRAW] (21). *)
Theorem Rmobility_without_goal_is_draw (pre window : list Position.Position)
    (l : Position.Position) :
  GetRule50Ply l = Z.of_nat (length window) ->
  Forall (fun q => 10 <= Z.of_nat (legal_moves_size q)) window ->
  ComputeGameResultRmobility (pre ++ window ++ [l]) = Some 21.
Proof.
  intros Hr Hw. rewrite Rmobility_window_result by exact Hr.
  rewrite Rmobility_fold_no_update; [reflexivity|].
  apply List.Forall_rev.
  eapply List.Forall_impl; [|exact Hw]. intros q Hq. right. exact Hq.
Qed.

Lemma Rmobility_without_goal_is_draw_witness :
  ComputeGameResultRmobility
    ([] ++ [mkPosition 20 false 0 false 0; mkPosition 12 true 1 true 0]
        ++ [mkPosition 30 false 2 false 0]) = Some 21.
Proof.
  apply (Rmobility_without_goal_is_draw []
           [mkPosition 20 false 0 false 0; mkPosition 12 true 1 true 0]
           (mkPosition 30 false 2 false 0)).
  - reflexivity.
  - repeat constructor; cbn; lia.
Defined.

(** X4.  Among the visited positions, the one that decides the result is
    the oldest of those with the fewest legal moves (fewer than ten): the
    walk goes backwards and a tie replaces the goal.  The side credited is
    the side to move of the last position, switched once per position
    visited before. *)
Theorem Rmobility_oldest_smallest_goal_wins
    (pre older newer : list Position.Position) (p l : Position.Position) :
  GetRule50Ply l = Z.of_nat (length (older ++ p :: newer)) ->
  Z.of_nat (legal_moves_size p) < 10 ->
  Forall (fun q => Z.of_nat (legal_moves_size p)
                   < Z.of_nat (legal_moves_size q)) older ->
  Forall (fun q => Z.of_nat (legal_moves_size p)
                   <= Z.of_nat (legal_moves_size q)) newer ->
  ComputeGameResultRmobility (pre ++ (older ++ p :: newer) ++ [l])
  = Some (result_as_int (xorb (IsBlackToMove l) (Nat.odd (length newer)))
            (Z.of_nat (legal_moves_size p)) (IsUnderCheck p)).
Proof.
  intros Hr Hp Holder Hnewer.
  rewrite Rmobility_window_result by exact Hr.
  rewrite rev_app_distr. cbn [rev]. rewrite <- app_assoc. cbn [app].
  rewrite fold_left_app. cbn [fold_left].
  set (st0 := {| best_number_of_legal_moves := 10;
                 is_black_to_move := IsBlackToMove l; result := 21 |}).
  set (st1 := fold_left (fun st q => Rmobility_step q st) (rev newer) st0).
  assert (Hbest : Z.of_nat (legal_moves_size p)
                  <= best_number_of_legal_moves st1).
  { apply Rmobility_fold_best_ge; [|cbn; lia].
    apply List.Forall_rev. exact Hnewer. }
  assert (Hside : is_black_to_move st1
                  = xorb (IsBlackToMove l) (Nat.odd (length newer))).
  { unfold st1. rewrite Rmobility_fold_side, length_rev. reflexivity. }
  assert (Hstep : Rmobility_step p st1
                  = {| best_number_of_legal_moves := Z.of_nat (legal_moves_size p);
                       is_black_to_move := negb (is_black_to_move st1);
                       result := result_as_int (is_black_to_move st1)
                                   (Z.of_nat (legal_moves_size p))
                                   (IsUnderCheck p) |}).
  { unfold Rmobility_step.
    destruct (Z.ltb_spec (Z.of_nat (legal_moves_size p)) 10); [|lia].
    destruct (Z.leb_spec (Z.of_nat (legal_moves_size p))
                (best_number_of_legal_moves st1)); [|lia].
    reflexivity. }
  rewrite Hstep, Rmobility_fold_no_update.
  - cbn [result]. rewrite Hside. reflexivity.
  - cbn [best_number_of_legal_moves].
    apply List.Forall_rev.
    eapply List.Forall_impl; [|exact Holder]. intros q Hq. left. exact Hq.
Qed.

Lemma Rmobility_oldest_smallest_goal_wins_witness :
  ComputeGameResultRmobility
    ([] ++ ([mkPosition 20 false 0 false 0]
              ++ mkPosition 3 true 1 true 0
              :: [mkPosition 3 false 2 false 0; mkPosition 7 false 3 true 0])
        ++ [mkPosition 30 false 4 false 0])
  = Some 33.
Proof.
  apply (Rmobility_oldest_smallest_goal_wins []
           [mkPosition 20 false 0 false 0]
           [mkPosition 3 false 2 false 0; mkPosition 7 false 3 true 0]
           (mkPosition 3 true 1 true 0) (mkPosition 30 false 4 false 0)).
  - reflexivity.
  - cbn; lia.
  - repeat constructor; cbn; lia.
  - repeat constructor; cbn; lia.
Defined.

(** ** Repetitions *)

Section HistoryFacts.
Context `{BoardOps}.

Lemma repetitions_loop_S (h : list HPosition) (lst : HPosition) (f : nat)
    (idx : Z) :
  repetitions_loop (S f) h lst idx
  = if idx <? 0 then Some (0, 0)
    else
      match h !! Z.to_nat idx with
      | None => None
      | Some pos =>
          if board_eqb (us_board_ pos) (us_board_ lst)
          then Some (1 + repetitions_ pos, Z.of_nat (length h) - 1 - idx)
          else if rule50_ply_ pos <? 2 then Some (0, 0)
          else repetitions_loop f h lst (idx - 2)
      end.
Proof. reflexivity. Qed.

(** What [repetitions_loop] returns when entered at [idx]: nothing found, or
    the nearest position at or below [idx], at an even distance from it,
    whose board is that of [lst]. *)
Lemma repetitions_loop_spec (h : list HPosition) (lst : HPosition) (f : nat) :
  forall idx : Z,
    idx < Z.of_nat (length h) -> idx < 2 * Z.of_nat f ->
    exists r c,
      repetitions_loop (S f) h lst idx = Some (r, c)
      /\ ((r = 0 /\ c = 0)
          \/ exists j pos,
               0 <= j <= idx /\ (exists k, idx - j = 2 * k)
               /\ h !! Z.to_nat j = Some pos
               /\ board_eqb (us_board_ pos) (us_board_ lst) = true
               /\ r = 1 + repetitions_ pos
               /\ c = Z.of_nat (length h) - 1 - j
               /\ forall j' pos',
                    j < j' <= idx -> (exists k, idx - j' = 2 * k) ->
                    h !! Z.to_nat j' = Some pos' ->
                    board_eqb (us_board_ pos') (us_board_ lst) = false
                    /\ 2 <= rule50_ply_ pos').
Proof.
  induction f as [|f IH]; intros idx Hlen Hfuel.
  - exists 0, 0. rewrite repetitions_loop_S.
    destruct (Z.ltb_spec idx 0); [|lia]. split; [reflexivity|left; split; reflexivity].
  - rewrite repetitions_loop_S.
    destruct (Z.ltb_spec idx 0) as [|Hidx];
      [exists 0, 0; split; [reflexivity|left; split; reflexivity]|].
    destruct (lookup_lt_is_Some_2 h (Z.to_nat idx) ltac:(lia)) as [pos Hpos].
    rewrite Hpos.
    destruct (board_eqb (us_board_ pos) (us_board_ lst)) eqn:Heq.
    + exists (1 + repetitions_ pos), (Z.of_nat (length h) - 1 - idx).
      split; [reflexivity|right]. exists idx, pos.
      split; [lia|]. split; [exists 0; lia|].
      split; [exact Hpos|]. split; [exact Heq|]. split; [reflexivity|].
      split; [reflexivity|].
      intros j' pos' Hj'. lia.
    + destruct (Z.ltb_spec (rule50_ply_ pos) 2) as [|Hr50];
        [exists 0, 0; split; [reflexivity|left; split; reflexivity]|].
      destruct (IH (idx - 2) ltac:(lia) ltac:(lia))
        as (r & c & Hloop & Hres).
      exists r, c. split; [exact Hloop|].
      destruct Hres as [Hzero|(j & p & Hj & [k Hk] & Hp & Hb & Hr & Hc & Hnear)];
        [left; exact Hzero|right].
      exists j, p.
      split; [lia|]. split; [exists (k + 1); lia|].
      split; [exact Hp|]. split; [exact Hb|]. split; [exact Hr|].
      split; [exact Hc|].
      intros j' pos' Hj' [k' Hk'] Hpos'.
      destruct (Z.eq_dec j' idx) as [->|Hne].
      * rewrite Hpos in Hpos'. injection Hpos' as <-. split; [exact Heq|lia].
      * apply (Hnear j' pos'); [lia|exists (k' - 1); lia|exact Hpos'].
Qed.

Lemma ComputeLastMoveRepetitions_spec (h : list HPosition) (l : HPosition) :
  last h = Some l ->
  exists r c,
    ComputeLastMoveRepetitions h = Some (r, c)
    /\ ((r = 0 /\ c = 0)
        \/ (4 <= rule50_ply_ l /\ Z.even c = true
            /\ 2 <= c <= Z.of_nat (length h) - 1
            /\ (exists pos,
                  h !! Z.to_nat (Z.of_nat (length h) - 1 - c) = Some pos
                  /\ board_eqb (us_board_ pos) (us_board_ l) = true
                  /\ r = 1 + repetitions_ pos)
            /\ forall c' pos',
                 2 <= c' < c -> Z.even c' = true ->
                 h !! Z.to_nat (Z.of_nat (length h) - 1 - c') = Some pos' ->
                 board_eqb (us_board_ pos') (us_board_ l) = false
                 /\ 2 <= rule50_ply_ pos')).
Proof.
  intros Hl. unfold ComputeLastMoveRepetitions. rewrite Hl.
  destruct (Z.ltb_spec (rule50_ply_ l) 4) as [|Hr50];
    [exists 0, 0; split; [reflexivity|left; split; reflexivity]|].
  destruct (repetitions_loop_spec h l (length h) (Z.of_nat (length h) - 3)
              ltac:(lia) ltac:(lia)) as (r & c & Hloop & Hres).
  exists r, c. split; [exact Hloop|].
  destruct Hres as [Hzero|(j & p & Hj & [k Hk] & Hp & Hb & Hr & Hc & Hnear)];
    [left; exact Hzero|right].
  split; [exact Hr50|].
  split; [apply Z.even_spec; exists (k + 1); lia|].
  split; [lia|]. split.
  - exists p. replace (Z.of_nat (length h) - 1 - c) with j by lia.
    repeat split; assumption.
  - intros c' pos' Hc' Heven Hpos'. apply Z.even_spec in Heven as [k' Hk'].
    apply (Hnear (Z.of_nat (length h) - 1 - c') pos');
      [lia|exists (k' - 1); lia|exact Hpos'].
Qed.

(** X5.  [ComputeLastMoveRepetitions] always returns on a history that is
    not empty, and a cycle length other than 0 is that of a real repetition:
    it is even and at least 2, the fifty-move counter of the last position
    is at least 4, the position that many plies back has the board of the
    last position, and the count returned is one more than the count stored
    for that position. *)
Theorem ComputeLastMoveRepetitions_reports_real_repetition
    (h : list HPosition) (l : HPosition) :
  last h = Some l ->
  exists r c,
    ComputeLastMoveRepetitions h = Some (r, c)
    /\ (c = 0 -> r = 0)
    /\ (c <> 0 ->
        4 <= rule50_ply_ l /\ Z.even c = true
        /\ 2 <= c <= Z.of_nat (length h) - 1
        /\ exists pos,
             h !! Z.to_nat (Z.of_nat (length h) - 1 - c) = Some pos
             /\ board_eqb (us_board_ pos) (us_board_ l) = true
             /\ r = 1 + repetitions_ pos).
Proof.
  intros Hl.
  destruct (ComputeLastMoveRepetitions_spec h l Hl)
    as (r & c & Hrun & [[-> ->]|(Hr50 & Heven & Hc & Hpos & _)]).
  - exists 0, 0. split; [exact Hrun|]. split; [reflexivity|lia].
  - exists r, c. split; [exact Hrun|]. split; [lia|].
    intros _. split; [exact Hr50|]. split; [exact Heven|].
    split; [exact Hc|exact Hpos].
Qed.

(** X6.  The repetition reported is the nearest one: every position at a
    smaller even distance, from 2 on, has another board than the last
    position (and a fifty-move counter of at least 2). *)
Theorem ComputeLastMoveRepetitions_reports_nearest_repetition
    (h : list HPosition) (r c c' : Z) (pos' : HPosition) :
  ComputeLastMoveRepetitions h = Some (r, c) ->
  2 <= c' < c -> Z.even c' = true ->
  h !! Z.to_nat (Z.of_nat (length h) - 1 - c') = Some pos' ->
  (exists l, last h = Some l
             /\ board_eqb (us_board_ pos') (us_board_ l) = false)
  /\ 2 <= rule50_ply_ pos'.
Proof.
  intros Hrun Hc' Heven Hpos'.
  destruct (last h) as [l|] eqn:Hl;
    [|unfold ComputeLastMoveRepetitions in Hrun; rewrite Hl in Hrun;
      discriminate].
  destruct (ComputeLastMoveRepetitions_spec h l Hl)
    as (r0 & c0 & Hrun0 & Hres).
  rewrite Hrun in Hrun0. injection Hrun0 as <- <-.
  destruct Hres as [[_ ->]|(_ & _ & _ & _ & Hnear)]; [lia|].
  destruct (Hnear c' pos' Hc' Heven Hpos') as [Hb Hr50].
  split; [exists l; split; [reflexivity|exact Hb]|exact Hr50].
Qed.

End HistoryFacts.

Lemma ComputeLastMoveRepetitions_reports_real_repetition_witness :
  exists r c,
    ComputeLastMoveRepetitions repeated_history = Some (r, c)
    /\ (c = 0 -> r = 0)
    /\ (c <> 0 ->
        4 <= rule50_ply_ (position 0 8 2 4 8) /\ Z.even c = true
        /\ 2 <= c <= Z.of_nat (length repeated_history) - 1
        /\ exists pos,
             repeated_history
               !! Z.to_nat (Z.of_nat (length repeated_history) - 1 - c)
             = Some pos
             /\ board_eqb (us_board_ pos)
                  (us_board_ (position 0 8 2 4 8)) = true
             /\ r = 1 + repetitions_ pos).
Proof.
  apply (ComputeLastMoveRepetitions_reports_real_repetition
           repeated_history (position 0 8 2 4 8)).
  reflexivity.
Defined.

Lemma ComputeLastMoveRepetitions_reports_nearest_repetition_witness :
  (exists l, last repeated_history = Some l
             /\ board_eqb (us_board_ (position 3 6 1 4 6)) (us_board_ l)
                = false)
  /\ 2 <= rule50_ply_ (position 3 6 1 4 6).
Proof.
  apply (ComputeLastMoveRepetitions_reports_nearest_repetition
           repeated_history 2 4 2 (position 3 6 1 4 6)).
  - reflexivity.
  - lia.
  - reflexivity.
  - reflexivity.
Defined.

(** ** Recorded games *)

Section PlayedGames.
Context `{BoardOps}.

Lemma Append_spec (m : Move) (h : list HPosition) (l : HPosition) :
  last h = Some l ->
  exists r c,
    ComputeLastMoveRepetitions (h ++ [Position_after l m]) = Some (r, c)
    /\ Append m h = Some (h ++ [SetRepetitions r c (Position_after l m)]).
Proof.
  intros Hl.
  destruct (ComputeLastMoveRepetitions_spec (h ++ [Position_after l m])
              (Position_after l m) (last_snoc _ _)) as (r & c & Hrun & _).
  exists r, c. split; [exact Hrun|].
  unfold Append. rewrite Hl. cbv zeta. rewrite Hrun. reflexivity.
Qed.

Lemma Position_after_rule50 (l : HPosition) (m : Move) :
  rule50_ply_ (Position_after l m) = 0
  \/ rule50_ply_ (Position_after l m) = rule50_ply_ l + 1.
Proof.
  unfold Position_after.
  destruct (Board_ApplyMove (us_board_ l) m) as [them [|]]; cbn; auto.
Qed.

(** The fifty-move counter along a recorded game: either no position has
    counter 0 and the counter has grown by one per move from its first
    value, or some position has counter 0 and the counter of the last
    position is at most the number of positions before it. *)
Lemma Append_all_counter (r0 : Z) (moves : list Move) :
  0 <= r0 ->
  forall h l,
    last h = Some l ->
    (0 < r0 /\ rule50_ply_ l = r0 + Z.of_nat (length h) - 1
     /\ Forall (fun p => rule50_ply_ p <> 0) h)
    \/ (0 <= rule50_ply_ l <= Z.of_nat (length h) - 1
        /\ Exists (fun p => rule50_ply_ p = 0) h) ->
    exists h' l',
      Append_all moves h = Some h'
      /\ last h' = Some l'
      /\ length h' = (length h + length moves)%nat
      /\ ((0 < r0 /\ rule50_ply_ l' = r0 + Z.of_nat (length h') - 1
           /\ Forall (fun p => rule50_ply_ p <> 0) h')
          \/ (0 <= rule50_ply_ l' <= Z.of_nat (length h') - 1
              /\ Exists (fun p => rule50_ply_ p = 0) h')).
Proof.
  intros Hr0. induction moves as [|m moves IH]; intros h l Hl Hinv.
  - exists h, l. cbn [Append_all length]. rewrite Nat.add_0_r. auto.
  - cbn [Append_all].
    destruct (Append_spec m h l Hl) as (r & c & _ & ->).
    set (x := SetRepetitions r c (Position_after l m)).
    assert (Hlen : (0 < length h)%nat) by (destruct h; [discriminate|cbn; lia]).
    destruct (IH (h ++ [x]) x (last_snoc _ _)) as (h' & l' & Hrun & Hl' & Hlen' & Hinv').
    { rewrite length_app. cbn [length].
      change (rule50_ply_ x) with (rule50_ply_ (Position_after l m)).
      destruct (Position_after_rule50 l m) as [Hz|Hs].
      - right. split; [lia|].
        apply Exists_app. right. apply Exists_cons_hd. exact Hz.
      - destruct Hinv as [(Hpos & Hcount & Hnone)|[Hbound Hsome]].
        + left. split; [exact Hpos|]. split; [lia|].
          apply Forall_app. split; [exact Hnone|].
          apply Forall_cons. split; [|apply Forall_nil_2].
          change (rule50_ply_ x) with (rule50_ply_ (Position_after l m)). lia.
        + right. split; [lia|]. apply Exists_app. left. exact Hsome. }
    exists h', l'. split; [exact Hrun|]. split; [exact Hl'|].
    split; [|exact Hinv'].
    rewrite Hlen', length_app. cbn [length]. lia.
Qed.

Lemma observe_history (h : list HPosition) (l : HPosition) :
  last h = Some l ->
  last (map observe h) = Some (observe l)
  /\ length (map observe h) = length h.
Proof.
  intros Hl. apply last_Some in Hl as [init ->].
  split; [|apply length_map].
  rewrite map_app. cbn [map]. apply last_snoc.
Qed.

(** X7.  In a game recorded by [Reset] and [Append], with a first
    fifty-move counter that is not negative, the R-mobility walk stays
    inside the history exactly when some recorded position has counter 0:
    always after [Reset] with counter 0, and after [Reset] with a positive
    counter only once a move has reset it. *)
Theorem Rmobility_on_recorded_game (board : Board) (r0 game_ply : Z)
    (moves : list Move) :
  0 <= r0 ->
  exists h,
    play board r0 game_ply moves = Some h
    /\ length h = S (length moves)
    /\ (is_Some (ComputeGameResultRmobility (map observe h))
        <-> Exists (fun p => rule50_ply_ p = 0) h).
Proof.
  intros Hr0. unfold play, Reset.
  destruct (Append_all_counter r0 moves Hr0
              [Position_of_board board r0 game_ply]
              (Position_of_board board r0 game_ply) eq_refl)
    as (h & l & Hrun & Hl & Hlen & Hinv).
  { cbn [length rule50_ply_ Position_of_board].
    destruct (Z.eq_dec r0 0) as [->|Hne].
    - right. split; [lia|]. apply Exists_cons_hd. reflexivity.
    - left. split; [lia|]. split; [lia|].
      apply Forall_cons. split; [exact Hne|apply Forall_nil_2]. }
  exists h. split; [exact Hrun|]. split; [exact Hlen|].
  destruct (observe_history h l Hl) as [Hlast Hmaplen].
  rewrite (Rmobility_defined_iff _ _ Hlast), Hmaplen.
  change (GetRule50Ply (observe l)) with (rule50_ply_ l).
  destruct Hinv as [(Hpos & Hcount & Hnone)|[Hbound Hsome]].
  - split; [intros Hle; lia|].
    intros Hsome. exfalso. rewrite Forall_forall in Hnone.
    apply Exists_exists in Hsome as (p & Hp & Hz). exact (Hnone p Hp Hz).
  - split; [intros _; exact Hsome|intros _; lia].
Qed.

End PlayedGames.

Lemma Rmobility_on_recorded_game_witness :
  exists h,
    play (0 : Z) 5 0 (round_trip ++ [100]) = Some h
    /\ length h = S (length (round_trip ++ [100]))
    /\ (is_Some (ComputeGameResultRmobility (map observe h))
        <-> Exists (fun p => rule50_ply_ p = 0) h).
Proof.
  apply (@Rmobility_on_recorded_game counter_boards 0 5 0 (round_trip ++ [100])).
  lia.
Defined.

Section RepetitionCounts.
Context `{BoardOps}.

Lemma filter_length_mono {A : Type} (f g : A -> bool) (l : list A) :
  (forall q, f q = true -> g q = true) ->
  (length (List.filter f l) <= length (List.filter g l))%nat.
Proof.
  intros Hfg. induction l as [|a l IH]; [reflexivity|].
  cbn [List.filter]. destruct (f a) eqn:Hf.
  - rewrite (Hfg a Hf). cbn [length]. lia.
  - destruct (g a); cbn [length]; lia.
Qed.

(** One [Append] keeps the stored counts within the number of earlier
    positions with an equal board. *)
Lemma Append_counts (m : Move) (h h' : list HPosition) :
  (forall a b c, board_eqb a b = true -> board_eqb b c = true ->
                 board_eqb a c = true) ->
  (forall i p, h !! i = Some p ->
               0 <= repetitions_ p <= equal_boards_before h i p) ->
  Append m h = Some h' ->
  forall i p, h' !! i = Some p ->
              0 <= repetitions_ p <= equal_boards_before h' i p.
Proof.
  intros Htrans Hinv Happ i p Hp.
  destruct (last h) as [l|] eqn:Hl;
    [|unfold Append in Happ; rewrite Hl in Happ; discriminate].
  destruct (Append_spec m h l Hl) as (r & c & Hrun & Happ').
  rewrite Happ' in Happ. injection Happ as <-.
  set (x0 := Position_after l m) in *.
  destruct (Nat.lt_ge_cases i (length h)) as [Hi|Hi].
  - rewrite lookup_app_l in Hp by exact Hi.
    unfold equal_boards_before. rewrite take_app_le by lia.
    apply (Hinv i p Hp).
  - rewrite lookup_app_r in Hp by exact Hi.
    destruct (i - length h)%nat as [|k] eqn:Hk; [|destruct k; discriminate].
    cbn in Hp. injection Hp as <-.
    assert (i = length h) as -> by lia.
    unfold equal_boards_before. rewrite take_app_length.
    cbn [repetitions_ SetRepetitions us_board_].
    destruct (ComputeLastMoveRepetitions_spec (h ++ [x0]) x0 (last_snoc _ _))
      as (r1 & c1 & Hrun1 & Hres).
    rewrite Hrun in Hrun1. injection Hrun1 as <- <-.
    destruct Hres as [[-> _]|(_ & _ & Hc & (pos & Hpos & Hb & ->) & _)]; [lia|].
    rewrite length_app in Hc, Hpos. cbn [length] in Hc, Hpos.
    set (j := Z.to_nat (Z.of_nat (length h + 1) - 1 - c)) in *.
    assert (Hj : (j < length h)%nat) by (unfold j; lia).
    rewrite lookup_app_l in Hpos by exact Hj.
    pose proof (Hinv j pos Hpos) as Hcount. unfold equal_boards_before in Hcount.
    rewrite <- (take_drop_middle h j pos Hpos).
    rewrite List.filter_app. cbn [List.filter]. rewrite Hb.
    rewrite length_app. cbn [length].
    pose proof (filter_length_mono
                  (fun q => board_eqb (us_board_ q) (us_board_ pos))
                  (fun q => board_eqb (us_board_ q) (us_board_ x0))
                  (take j h)
                  (fun q Hq => Htrans _ _ _ Hq Hb)) as Hmono.
    lia.
Qed.

Lemma Append_all_counts (moves : list Move) :
  (forall a b c, board_eqb a b = true -> board_eqb b c = true ->
                 board_eqb a c = true) ->
  forall h h',
    (forall i p, h !! i = Some p ->
                 0 <= repetitions_ p <= equal_boards_before h i p) ->
    Append_all moves h = Some h' ->
    forall i p, h' !! i = Some p ->
                0 <= repetitions_ p <= equal_boards_before h' i p.
Proof.
  intros Htrans. induction moves as [|m moves IH]; intros h h' Hinv Hrun.
  - cbn in Hrun. injection Hrun as <-. exact Hinv.
  - cbn [Append_all] in Hrun.
    destruct (Append m h) as [h1|] eqn:Happ; [|discriminate].
    apply (IH h1 h'); [|exact Hrun].
    exact (Append_counts m h h1 Htrans Hinv Happ).
Qed.

Lemma Append_all_returns (moves : list Move) :
  forall h l, last h = Some l ->
              exists h', Append_all moves h = Some h'.
Proof.
  induction moves as [|m moves IH]; intros h l Hl; [exists h; reflexivity|].
  cbn [Append_all]. destruct (Append_spec m h l Hl) as (r & c & _ & ->).
  apply (IH _ _ (last_snoc _ _)).
Qed.

(** X8.  Where equality of boards is transitive, the repetition count
    [Append] stores with a position of a recorded game is never negative and
    never more than the number of earlier positions with an equal board. *)
Theorem stored_repetitions_are_earlier_equal_boards (board : Board)
    (r0 game_ply : Z) (moves : list Move) :
  (forall a b c, board_eqb a b = true -> board_eqb b c = true ->
                 board_eqb a c = true) ->
  exists h,
    play board r0 game_ply moves = Some h
    /\ forall i p, h !! i = Some p ->
                   0 <= repetitions_ p <= equal_boards_before h i p.
Proof.
  intros Htrans.
  destruct (Append_all_returns moves
              [Position_of_board board r0 game_ply]
              (Position_of_board board r0 game_ply) eq_refl) as [h Hrun].
  exists h. split; [exact Hrun|].
  apply (Append_all_counts moves Htrans
           [Position_of_board board r0 game_ply] h); [|exact Hrun].
  intros i p Hp. destruct i as [|i]; [|destruct i; discriminate].
  cbn in Hp. injection Hp as <-.
  unfold equal_boards_before. cbn. lia.
Qed.

End RepetitionCounts.

Lemma stored_repetitions_are_earlier_equal_boards_witness :
  exists h,
    play (0 : Z) 0 0 (round_trip ++ round_trip) = Some h
    /\ forall i p, h !! i = Some p ->
                   0 <= repetitions_ p <= equal_boards_before h i p.
Proof.
  apply (@stored_repetitions_are_earlier_equal_boards counter_boards 0 0 0
           (round_trip ++ round_trip)).
  intros a b c Hab Hbc. cbn in *.
  apply Z.eqb_eq in Hab, Hbc. apply Z.eqb_eq. congruence.
Defined.

Section Scans.
Context `{BoardOps}.

Lemma did_repeat_scan_snoc (init : list HPosition) (x : HPosition) :
  DidRepeatSinceLastZeroingMove (init ++ [x])
  = if 0 <? repetitions_ x then true
    else if rule50_ply_ x =? 0 then false
    else DidRepeatSinceLastZeroingMove init.
Proof.
  unfold DidRepeatSinceLastZeroingMove. rewrite rev_unit. reflexivity.
Qed.

(** X9.  [DidRepeatSinceLastZeroingMove] answers true exactly when some
    position has a repetition count above 0 and no later position has
    fifty-move counter 0. *)
Theorem DidRepeatSinceLastZeroingMove_iff (h : list HPosition) :
  DidRepeatSinceLastZeroingMove h = true
  <-> exists i p,
        h !! i = Some p /\ 0 < repetitions_ p
        /\ forall j q, (i < j)%nat -> h !! j = Some q -> rule50_ply_ q <> 0.
Proof.
  induction h as [|x init IH] using rev_ind.
  - split; [discriminate|]. intros (i & p & Hp & _). destruct i; discriminate.
  - rewrite did_repeat_scan_snoc.
    destruct (Z.ltb_spec 0 (repetitions_ x)) as [Hrep|Hrep].
    + split; [intros _|reflexivity].
      exists (length init), x. split; [apply list_lookup_middle; reflexivity|].
      split; [exact Hrep|].
      intros j q Hj Hq. apply lookup_lt_Some in Hq.
      rewrite length_app in Hq. cbn [length] in Hq. lia.
    + destruct (Z.eqb_spec (rule50_ply_ x) 0) as [Hz|Hnz].
      * split; [discriminate|]. intros (i & p & Hp & Hpos & Hlater). exfalso.
        destruct (Nat.lt_ge_cases i (length init)) as [Hi|Hi].
        -- apply (Hlater (length init) x Hi); [|exact Hz].
           apply list_lookup_middle. reflexivity.
        -- pose proof (lookup_lt_Some _ _ _ Hp) as Hlt.
           rewrite length_app in Hlt. cbn [length] in Hlt.
           assert (i = length init) as -> by lia.
           rewrite list_lookup_middle in Hp by reflexivity.
           injection Hp as <-. lia.
      * rewrite IH. split.
        -- intros (i & p & Hp & Hpos & Hlater). exists i, p.
           split; [apply lookup_app_l_Some; exact Hp|]. split; [exact Hpos|].
           intros j q Hj Hq.
           destruct (Nat.lt_ge_cases j (length init)) as [Hjl|Hjl].
           ++ rewrite lookup_app_l in Hq by exact Hjl. exact (Hlater j q Hj Hq).
           ++ pose proof (lookup_lt_Some _ _ _ Hq) as Hlt.
              rewrite length_app in Hlt. cbn [length] in Hlt.
              assert (j = length init) as -> by lia.
              rewrite list_lookup_middle in Hq by reflexivity.
              injection Hq as <-. exact Hnz.
        -- intros (i & p & Hp & Hpos & Hlater).
           destruct (Nat.lt_ge_cases i (length init)) as [Hi|Hi].
           ++ exists i, p. rewrite lookup_app_l in Hp by exact Hi.
              split; [exact Hp|]. split; [exact Hpos|].
              intros j q Hj Hq. apply (Hlater j q Hj).
              apply lookup_app_l_Some. exact Hq.
           ++ pose proof (lookup_lt_Some _ _ _ Hp) as Hlt.
              rewrite length_app in Hlt. cbn [length] in Hlt.
              assert (i = length init) as -> by lia.
              rewrite list_lookup_middle in Hp by reflexivity.
              injection Hp as <-. lia.
Qed.

Lemma hash_scan_app (l1 l2 : list HPosition) :
  forall positions hash,
    0 <= positions <= Z.of_nat (length l1) ->
    hash_scan (l1 ++ l2) positions hash = hash_scan l1 positions hash.
Proof.
  induction l1 as [|p l1 IH]; intros positions hash Hk.
  - cbn [length] in Hk. assert (positions = 0) as -> by lia.
    destruct l2; reflexivity.
  - cbn [app hash_scan]. destruct (Z.eqb_spec positions 0); [reflexivity|].
    apply IH. cbn [length] in Hk. lia.
Qed.

(** X10.  [HashLast(positions)] depends on the last [positions] positions
    only: what comes before them in the history does not change the hash. *)
Theorem HashLast_reads_last_positions_only (pre suf : list HPosition)
    (positions : Z) :
  suf <> [] -> 0 <= positions <= Z.of_nat (length suf) ->
  HashLast (pre ++ suf) positions = HashLast suf positions.
Proof.
  intros Hne Hk. unfold HashLast.
  rewrite last_app. destruct (last suf) as [l|] eqn:Hl.
  - rewrite rev_app_distr, hash_scan_app by (rewrite length_rev; exact Hk).
    reflexivity.
  - apply last_None in Hl. contradiction.
Qed.

End Scans.

Lemma HashLast_reads_last_positions_only_witness :
  HashLast (take 5 repeated_history ++ drop 5 repeated_history) 3
  = HashLast (drop 5 repeated_history) 3.
Proof.
  apply (HashLast_reads_last_positions_only (take 5 repeated_history)
           (drop 5 repeated_history) 3).
  - discriminate.
  - split; [lia|]. vm_compute. discriminate.
Defined.

(** ** The FEN of a position *)

Lemma expand_fen_row_app (a b : string) :
  expand_fen_row (a ++ b) = expand_fen_row a ++ expand_fen_row b.
Proof.
  induction a as [|c a IH]; [reflexivity|].
  change (String c a ++ b)%string with (String c (a ++ b)%string).
  cbn [expand_fen_row]. rewrite IH, app_assoc. reflexivity.
Qed.

Lemma expand_fen_row_count (n : Z) :
  1 <= n <= 9 ->
  expand_fen_row (pretty n) = repeat "000"%char (Z.to_nat n).
Proof.
  intros Hn. assert (Hk : (1 <= Z.to_nat n <= 9)%nat) by lia.
  rewrite <- (Z2Nat.id n) at 1 by lia.
  destruct (Z.to_nat n) as [|[|[|[|[|[|[|[|[|[|k]]]]]]]]]]; try lia;
    reflexivity.
Qed.

(** The loop over a row keeps what has been written so far, read back and
    followed by the empty squares counted, equal to the squares passed. *)
Lemma fen_row_loop_expand (squares : list ascii) :
  forall emptycounter result,
    0 <= emptycounter ->
    emptycounter + Z.of_nat (length squares) <= 9 ->
    Forall (fun c => is_digit c = false) squares ->
    let '(emptycounter', result') :=
      fen_row_loop squares emptycounter result in
    0 <= emptycounter' <= 9
    /\ expand_fen_row result' ++ repeat "000"%char (Z.to_nat emptycounter')
       = (expand_fen_row result ++ repeat "000"%char (Z.to_nat emptycounter))
           ++ squares.
Proof.
  induction squares as [|piece squares IH];
    intros emptycounter result Hec Hlen Hsq.
  - cbn [fen_row_loop length] in *. rewrite app_nil_r. split; [lia|reflexivity].
  - inversion Hsq as [|? ? Hpiece Hsq']; subst.
    cbn [length] in Hlen. cbn [fen_row_loop].
    unfold is_NUL, NUL. destruct (Ascii.eqb_spec piece "000"%char) as [->|Hnul].
    + rewrite andb_false_r. cbn [negb].
      specialize (IH (emptycounter + 1) result ltac:(lia) ltac:(lia) Hsq').
      destruct (fen_row_loop squares (emptycounter + 1) result)
        as [emptycounter' result'].
      destruct IH as [Hb IH]. split; [exact Hb|]. rewrite IH.
      replace (Z.to_nat (emptycounter + 1)) with (Z.to_nat emptycounter + 1)%nat
        by lia.
      rewrite repeat_app. cbn [repeat]. rewrite <- !app_assoc. reflexivity.
    + cbn [negb]. rewrite andb_true_r.
      destruct (Z.ltb_spec 0 emptycounter) as [Hpos|Hzero].
      * specialize (IH 0 ((result ++ pretty emptycounter)
                            ++ String piece EmptyString)%string
                      ltac:(lia) ltac:(lia) Hsq').
        destruct (fen_row_loop squares 0 _) as [emptycounter' result'].
        destruct IH as [Hb IH]. split; [exact Hb|]. rewrite IH.
        rewrite !expand_fen_row_app, expand_fen_row_count by lia.
        cbn [expand_fen_row Z.to_nat repeat]. rewrite Hpiece.
        rewrite !app_nil_r, <- !app_assoc. reflexivity.
      * assert (emptycounter = 0) as -> by lia.
        specialize (IH 0 (result ++ String piece EmptyString)%string
                      ltac:(lia) ltac:(lia) Hsq').
        destruct (fen_row_loop squares 0 _) as [emptycounter' result'].
        destruct IH as [Hb IH]. split; [exact Hb|]. rewrite IH.
        rewrite !expand_fen_row_app.
        cbn [expand_fen_row Z.to_nat repeat]. rewrite Hpiece.
        rewrite !app_nil_r, <- !app_assoc. reflexivity.
Qed.

Lemma fen_row_expand (squares : list ascii) :
  (length squares <= 9)%nat ->
  Forall (fun c => is_digit c = false) squares ->
  expand_fen_row (fen_row squares) = squares.
Proof.
  intros Hlen Hsq. unfold fen_row.
  pose proof (fen_row_loop_expand squares 0 EmptyString ltac:(lia) ltac:(lia)
                Hsq) as Hloop.
  destruct (fen_row_loop squares 0 EmptyString) as [emptycounter result].
  destruct Hloop as [Hb Hloop]. cbn in Hloop.
  destruct (Z.ltb_spec 0 emptycounter) as [Hpos|Hzero].
  - rewrite expand_fen_row_app, expand_fen_row_count by lia. exact Hloop.
  - assert (emptycounter = 0) as -> by lia.
    cbn in Hloop. rewrite app_nil_r in Hloop. exact Hloop.
Qed.

Section Fen.
Context `{BoardOps}.

Lemma GetPieceAt_not_a_digit (board : Board) (row col : Z) :
  is_digit (GetPieceAt board row col) = false.
Proof.
  unfold GetPieceAt.
  destruct (ours board row col || theirs board row col); [|reflexivity].
  destruct (pawns board row col), (kings board row col),
    (bishops board row col), (queens board row col), (rooks board row col),
    (theirs board row col); reflexivity.
Qed.

(** X11.  The text [GetFen] writes for a row of the board reads back as the
    eight squares of that row: runs of empty squares become one digit, and a
    piece letter stands for itself. *)
Theorem GetFen_row_reads_back (board : Board) (row : Z) :
  expand_fen_row (fen_row (row_squares board row)) = row_squares board row.
Proof.
  apply fen_row_expand.
  - unfold row_squares. rewrite length_map. cbn. lia.
  - unfold row_squares. apply List.Forall_map.
    apply Forall_forall. intros col _. apply GetPieceAt_not_a_digit.
Qed.

End Fen.

(** ** The result of a recorded game *)

Section RecordedResult.
Context `{BoardOps}.

(** X26.  On a game recorded by [Reset] with fifty-move counter 0 and
    [Append], [ComputeGameResult] always returns.  It names checkmate or
    stalemate when the last position has no legal move, whatever the
    counters; otherwise it is [UNDECIDED] as long as the counter is below
    100 and the last position has occurred fewer than three times; otherwise
    it is the value of the R-mobility walk, which lies between 1 and 40 and
    so is never [UNDECIDED]. *)
Theorem ComputeGameResult_on_recorded_game (board : Board) (game_ply : Z)
    (moves : list Move) :
  exists h l o,
    play board 0 game_ply moves = Some h
    /\ last h = Some l
    /\ ComputeGameResult (map observe h) = Some o
    /\ match o with
       | Enumerator UNDECIDED =>
           GenerateLegalMoves_size (us_board_ l) <> O
           /\ rule50_ply_ l < 100 /\ repetitions_ l < 2
       | Enumerator r =>
           GenerateLegalMoves_size (us_board_ l) = O
           /\ r = (if Board_IsUnderCheck (us_board_ l)
                   then if flipped (us_board_ l) then WHITE_WON else BLACK_WON
                   else if flipped (us_board_ l) then WHITE_STALEMATE
                        else BLACK_STALEMATE)
       | Cast r =>
           GenerateLegalMoves_size (us_board_ l) <> O
           /\ (100 <= rule50_ply_ l \/ 2 <= repetitions_ l)
           /\ 1 <= r <= 40
       end.
Proof.
  unfold play, Reset.
  destruct (Append_all_counter 0 moves ltac:(lia)
              [Position_of_board board 0 game_ply]
              (Position_of_board board 0 game_ply) eq_refl)
    as (h & l & Hrun & Hl & _ & Hinv).
  { right. cbn. split; [lia|]. apply Exists_cons_hd. reflexivity. }
  destruct Hinv as [(Hpos & _)|[Hbound _]]; [lia|].
  destruct (observe_history h l Hl) as [Hlast Hlen].
  assert (Hdef : is_Some (ComputeGameResultRmobility (map observe h))).
  { apply (Rmobility_defined_iff _ _ Hlast). rewrite Hlen. exact (proj2 Hbound). }
  destruct Hdef as [r Hr].
  assert (Hrange : 1 <= r <= 40).
  { destruct (Z.le_gt_cases (GetRule50Ply (observe l)) 0) as [Hneg|Hgt].
    - unfold ComputeGameResultRmobility in Hr. rewrite Hlast in Hr.
      replace (Z.to_nat (GetRule50Ply (observe l))) with O in Hr by lia.
      cbn in Hr. injection Hr as <-. lia.
    - destruct (history_window _ _ Hlast
                  ltac:(rewrite Hlen; exact (proj2 Hbound)))
        as (pre & window & Hsplit & Hwlen).
      rewrite Hsplit, Rmobility_window_result in Hr by lia.
      injection Hr as <-. apply Rmobility_fold_range. cbn. lia. }
  exists h, l. unfold ComputeGameResult. rewrite Hlast, Hr.
  cbn [legal_moves_size IsUnderCheck IsBlackToMove GetRule50Ply GetRepetitions
       observe fmap option_fmap option_map].
  destruct (Nat.eqb_spec (GenerateLegalMoves_size (us_board_ l)) 0) as [Hz|Hnz].
  - destruct (Board_IsUnderCheck (us_board_ l)), (flipped (us_board_ l));
      eexists; (split; [exact Hrun|]); (split; [exact Hl|]);
      (split; [reflexivity|]); cbn; auto.
  - destruct (Z.leb_spec 100 (rule50_ply_ l)) as [H100|H100].
    + exists (Cast r). repeat split; try assumption; try lia.
    + destruct (Z.leb_spec 2 (repetitions_ l)) as [Hrep|Hrep].
      * exists (Cast r). repeat split; try assumption; try lia.
      * exists (Enumerator UNDECIDED). repeat split; assumption.
Qed.

End RecordedResult.

(* ===================================================================== *)
(** * Further properties: mcts/auxengine.cc                               *)
(* ===================================================================== *)

Import Worker.

(** ** The options sent to a helper *)

Lemma append_String (c : ascii) (a b : string) :
  (String c a ++ b)%string = String c (a ++ b)%string.
Proof. reflexivity. Qed.

Lemma append_empty_l (b : string) : (EmptyString ++ b)%string = b.
Proof. reflexivity. Qed.

Lemma split_at_delim_found (d : ascii) (k rest : string) :
  lacks d k = true ->
  split_at_delim d (k ++ String d rest)%string = (k, Some rest).
Proof.
  induction k as [|c k IH]; intros Hk.
  - rewrite append_empty_l. cbn [split_at_delim].
    rewrite Ascii.eqb_refl. reflexivity.
  - cbn [lacks] in Hk. apply andb_true_iff in Hk as [Hc Hk].
    rewrite append_String. cbn [split_at_delim].
    apply negb_true_iff in Hc. rewrite Hc, (IH Hk). reflexivity.
Qed.

Lemma split_at_delim_none (d : ascii) (v : string) :
  lacks d v = true -> split_at_delim d v = (v, None).
Proof.
  induction v as [|c v IH]; intros Hv; [reflexivity|].
  cbn [lacks] in Hv. apply andb_true_iff in Hv as [Hc Hv].
  cbn [split_at_delim]. apply negb_true_iff in Hc.
  rewrite Hc, (IH Hv). reflexivity.
Qed.

Lemma setoption_loop_not_good (fuel : nat) (iss : IStream) (token : string)
    (out : list string) :
  good iss = false ->
  setoption_loop (S fuel) iss token out = Some out.
Proof.
  intros Hg. cbn [setoption_loop]. unfold getline. rewrite Hg. reflexivity.
Qed.

Lemma append_assoc (a b c : string) :
  ((a ++ b) ++ c)%string = (a ++ (b ++ c))%string.
Proof.
  induction a as [|x a IH]; [reflexivity|].
  rewrite !append_String, IH. reflexivity.
Qed.

Lemma render_options_cons (k v : string) (p : string * string)
    (ps : list (string * string)) :
  render_options ((k, v) :: p :: ps)
  = (k ++ String "=" (v ++ String ";" (render_options (p :: ps))))%string.
Proof.
  change (render_options ((k, v) :: p :: ps))
    with ((k ++ String "=" v) ++ String ";" (render_options (p :: ps)))%string.
  rewrite append_assoc, append_String. reflexivity.
Qed.

Lemma setoption_loop_render (ps : list (string * string)) :
  forall fuel token out,
    Forall (fun p => lacks "=" (fst p) = true /\ lacks ";" (snd p) = true) ps ->
    (length ps < fuel)%nat ->
    setoption_loop fuel (mkIStream (render_options ps) false false) token out
    = Some (out ++ map setoption_command ps).
Proof.
  induction ps as [|[k v] ps IH]; intros fuel token out Hps Hfuel.
  - destruct fuel as [|fuel]; [lia|]. rewrite app_nil_r. reflexivity.
  - inversion Hps as [|? ? [Hk Hv] Hps']; subst. cbn [fst snd] in Hk, Hv.
    destruct fuel as [|fuel]; [cbn [length] in Hfuel; lia|].
    cbn [length] in Hfuel.
    destruct ps as [|p ps].
    + cbn [setoption_loop]. unfold getline at 1. cbn [good eofbit failbit buffer negb andb].
      change (render_options [(k, v)]) with (k ++ String "=" v)%string.
      rewrite (split_at_delim_found "=" k v Hk). cbn [failbit].
      unfold getline. cbn [good eofbit failbit buffer negb andb].
      rewrite (split_at_delim_none ";" v Hv).
      destruct fuel as [|fuel]; [lia|].
      rewrite setoption_loop_not_good by reflexivity. reflexivity.
    + rewrite render_options_cons.
      cbn [setoption_loop]. unfold getline at 1. cbn [good eofbit failbit buffer negb andb].
      rewrite (split_at_delim_found "=" k _ Hk). cbn [failbit].
      unfold getline. cbn [good eofbit failbit buffer negb andb].
      rewrite (split_at_delim_found ";" v _ Hv).
      rewrite (IH fuel v _ Hps') by (cbn [length] in *; lia).
      rewrite <- app_assoc. reflexivity.
Qed.

Lemma length_append (a b : string) :
  String.length (a ++ b) = (String.length a + String.length b)%nat.
Proof.
  induction a as [|c a IH]; [reflexivity|].
  rewrite append_String. cbn [String.length]. rewrite IH. reflexivity.
Qed.

Lemma render_options_length (ps : list (string * string)) :
  (length ps <= String.length (render_options ps))%nat.
Proof.
  induction ps as [|[k v] ps IH]; [cbn; lia|].
  destruct ps as [|p ps].
  - change (render_options [(k, v)]) with (k ++ String "=" v)%string.
    rewrite length_append. cbn [String.length length]. lia.
  - rewrite render_options_cons, length_append. cbn [String.length].
    rewrite length_append. cbn [String.length length] in *. lia.
Qed.

(** X12.  An option string that lists names without [=] and values
    without [;] as [name=value], joined by [;], is sent to the helper as one
    [setoption] command per pair, in order, followed by [uci]. *)
Theorem send_options_sends_each_pair (pairs : list (string * string)) :
  Forall (fun p => lacks "=" (fst p) = true /\ lacks ";" (snd p) = true)
    pairs ->
  send_options (render_options pairs)
  = Some (map setoption_command pairs ++ ["uci"%string]).
Proof.
  intros Hps. unfold send_options.
  rewrite (setoption_loop_render pairs _ _ [] Hps)
    by (pose proof (render_options_length pairs); lia).
  reflexivity.
Qed.

Lemma send_options_sends_each_pair_witness :
  send_options "Threads=2;SyzygyPath=/tb;Hash=64"
  = Some ["setoption name Threads value 2";
          "setoption name SyzygyPath value /tb";
          "setoption name Hash value 64"; "uci"]%string.
Proof.
  apply (send_options_sends_each_pair
           [("Threads", "2"); ("SyzygyPath", "/tb"); ("Hash", "64")]%string).
  repeat constructor.
Defined.

(** X13.  An option string without any [=] that is not empty is sent as
    one [setoption] command in which the whole string is both the name and
    the value: the second [getline] fails and leaves [token] as it was. *)
Theorem send_options_without_equals_sign (bar : string) :
  lacks "=" bar = true -> bar <> EmptyString ->
  send_options bar
  = Some [String.concat "" ["setoption name "; bar; " value "; bar];
          "uci"%string].
Proof.
  intros Hbar Hne. unfold send_options.
  destruct bar as [|c bar]; [contradiction|].
  cbn [String.length setoption_loop]. unfold getline at 1.
  cbn [good eofbit failbit buffer negb andb].
  rewrite (split_at_delim_none "=" _ Hbar). cbn [failbit String.eqb].
  unfold getline. cbn [good eofbit failbit buffer negb andb].
  destruct (String.length bar); reflexivity.
Qed.

Lemma send_options_without_equals_sign_witness :
  send_options "Ponder"
  = Some ["setoption name Ponder value Ponder"; "uci"]%string.
Proof.
  apply (send_options_without_equals_sign "Ponder"); [reflexivity|discriminate].
Defined.

(** ** The handshake *)

(** What one turn of the handshake loop does on a line: it ends the loop on
    [uciok], it answers a line that announces [SyzygyPath] when a tablebase
    is configured, and it does nothing else. *)
Lemma handshake_step_cases (syzygy_paths : option string) (l : string) :
  handshake_step syzygy_paths l
  = if bool_decide (first_word l = Some "uciok"%string) then (true, [])
    else (false,
          match syzygy_paths with
          | Some paths =>
              if announces_SyzygyPath l
              then [String.append "setoption name SyzygyPath value " paths]
              else []
          | None => []
          end).
Proof.
  unfold handshake_step, announces_SyzygyPath, first_word.
  destruct (String.words l) as [|w1 ws]; cbn [lookup list_lookup].
  - rewrite bool_decide_eq_false_2 by discriminate. cbn.
    destruct syzygy_paths; reflexivity.
  - destruct (String.eqb_spec w1 "uciok") as [->|Hne].
    + rewrite bool_decide_eq_true_2 by reflexivity. reflexivity.
    + rewrite bool_decide_eq_false_2 by (intros [= Heq]; contradiction).
      destruct (String.eqb_spec w1 "option") as [->|Hopt].
      * destruct ws as [|w2 ws]; [destruct syzygy_paths; reflexivity|].
        destruct (String.eqb_spec w2 "name") as [->|Hname];
          [|destruct syzygy_paths, ws; reflexivity].
        destruct ws as [|w3 ws]; [destruct syzygy_paths; reflexivity|].
        cbn [andb String.eqb Ascii.eqb Bool.eqb].
        destruct syzygy_paths; [|reflexivity].
        destruct (String.eqb w3 "SyzygyPath"); reflexivity.
      * destruct ws as [|w2 [|w3 ws]]; destruct syzygy_paths; reflexivity.
Qed.

(** X14.  The handshake loop ends at the first line whose first word is
    [uciok] and leaves the lines after it unread.  When a tablebase is
    configured it has by then written [setoption name SyzygyPath value]
    followed by the paths once for every earlier line whose first three
    words are [option name SyzygyPath], and nothing else; without a
    tablebase it has written nothing. *)
Theorem handshake_ends_at_first_uciok (syzygy_paths : option string)
    (pre : list string) (l : string) (post : list string) :
  Forall (fun x => first_word x <> Some "uciok"%string) pre ->
  first_word l = Some "uciok"%string ->
  handshake syzygy_paths (pre ++ l :: post)
  = (match syzygy_paths with
     | Some paths =>
         map (fun _ => String.append "setoption name SyzygyPath value " paths)
           (List.filter announces_SyzygyPath pre)
     | None => []
     end,
     post).
Proof.
  intros Hpre Hl. induction pre as [|x pre IH].
  - cbn [app handshake List.filter map]. rewrite handshake_step_cases.
    rewrite bool_decide_eq_true_2 by exact Hl.
    destruct syzygy_paths; reflexivity.
  - inversion Hpre as [|? ? Hx Hpre']; subst.
    cbn [app handshake]. rewrite handshake_step_cases.
    rewrite bool_decide_eq_false_2 by exact Hx.
    rewrite (IH Hpre'). cbn [List.filter].
    destruct syzygy_paths as [paths|]; [|reflexivity].
    destruct (announces_SyzygyPath x); reflexivity.
Qed.

Lemma handshake_ends_at_first_uciok_witness :
  handshake (Some "/tb"%string)
    (["id name helper"; "option name SyzygyPath type string default";
      "option name Hash type spin"]%string
       ++ "uciok"%string :: ["readyok"%string])
  = (["setoption name SyzygyPath value /tb"%string], ["readyok"%string]).
Proof.
  apply (handshake_ends_at_first_uciok (Some "/tb"%string)
           ["id name helper"; "option name SyzygyPath type string default";
            "option name Hash type spin"]%string
           "uciok"%string ["readyok"%string]).
  - repeat constructor; discriminate.
  - reflexivity.
Defined.

(** ** The node queue while the search runs *)

Lemma AuxMaybeEnqueueNode_running (n : Node) (s : Search) :
  stop_ s = false -> final_purge_run s = false ->
  stop_ (AuxMaybeEnqueueNode n s) = false
  /\ final_purge_run (AuxMaybeEnqueueNode n s) = false
  /\ number_of_times_called_AuxMaybeEnqueueNode_ (AuxMaybeEnqueueNode n s)
     = number_of_times_called_AuxMaybeEnqueueNode_ s + 1
  /\ aux_engine_move (AuxMaybeEnqueueNode n s)
     = <[addr_of n := PENDING]> (aux_engine_move s)
  /\ persistent_queue_of_nodes (AuxMaybeEnqueueNode n s)
     = persistent_queue_of_nodes s
         ++ (if size (persistent_queue_of_nodes s) <? 15000 then [n] else []).
Proof.
  intros Hstop Hpurge. unfold AuxMaybeEnqueueNode. rewrite Hstop.
  cbn [final_purge_run with_calls]. rewrite Hpurge. cbn [negb].
  cbn [persistent_queue_of_nodes SetAuxEngineMove with_aux_engine_move
       with_calls].
  destruct (size (persistent_queue_of_nodes s) <? 15000);
    cbn; rewrite ?app_nil_r; auto.
Qed.

(** X15.  While the search runs and the final purge has not, a series of
    calls of the enqueue gate serves the nodes first come, first served: the
    queue is extended by as many of them, from the first on, as fit below
    15,000 entries, every node of the series is tagged [PENDING] whether it
    was queued or not, and the call counter grows by the number of calls. *)
Theorem AuxMaybeEnqueueNode_first_come_first_served (ns : list Node)
    (s : Search) :
  stop_ s = false -> final_purge_run s = false ->
  let s' := fold_left (fun s n => AuxMaybeEnqueueNode n s) ns s in
  persistent_queue_of_nodes s'
  = persistent_queue_of_nodes s
      ++ take (Z.to_nat (15000 - size (persistent_queue_of_nodes s))) ns
  /\ (forall n, In n ns -> GetAuxEngineMove s' n = Some PENDING)
  /\ number_of_times_called_AuxMaybeEnqueueNode_ s'
     = number_of_times_called_AuxMaybeEnqueueNode_ s + size ns.
Proof.
  revert s. induction ns as [|n ns IH]; intros s Hstop Hpurge; cbn zeta.
  - cbn [fold_left]. rewrite take_nil, app_nil_r.
    split; [reflexivity|]. split; [intros n []|]. unfold size. cbn. lia.
  - cbn [fold_left].
    destruct (AuxMaybeEnqueueNode_running n s Hstop Hpurge)
      as (Hstop1 & Hpurge1 & Hcalls1 & Htags1 & Hq1).
    destruct (IH (AuxMaybeEnqueueNode n s) Hstop1 Hpurge1)
      as (Hq & Htags & Hcalls).
    split; [|split].
    + rewrite Hq, Hq1. unfold size.
      destruct (Z.ltb_spec (Z.of_nat (length (persistent_queue_of_nodes s)))
                  15000) as [Hlt|Hge].
      * rewrite length_app. cbn [length].
        replace (Z.to_nat (15000 - Z.of_nat (length (persistent_queue_of_nodes s))))
          with (S (Z.to_nat (15000 - Z.of_nat
                                   (length (persistent_queue_of_nodes s) + 1))))
          by lia.
        cbn [take]. rewrite <- app_assoc. reflexivity.
      * rewrite app_nil_r.
        replace (Z.to_nat (15000 - Z.of_nat (length (persistent_queue_of_nodes s))))
          with O by lia.
        reflexivity.
    + intros m [<-|Hm]; [|exact (Htags m Hm)].
      destruct (in_dec Pos.eq_dec (addr_of n) (map addr_of ns)) as [Hin|Hout].
      * apply in_map_iff in Hin as (m & Haddr & Hm).
        unfold GetAuxEngineMove. rewrite <- Haddr. exact (Htags m Hm).
      * clear -Hout Htags1 Hstop1 Hpurge1.
        assert (Hkeep : forall ms t,
                  stop_ t = false -> final_purge_run t = false ->
                  ~ In (addr_of n) (map addr_of ms) ->
                  aux_engine_move
                    (fold_left (fun s n => AuxMaybeEnqueueNode n s) ms t)
                    !! addr_of n
                  = aux_engine_move t !! addr_of n).
        { induction ms as [|m ms IHms]; intros t Ht1 Ht2 Hnot; [reflexivity|].
          cbn [fold_left].
          destruct (AuxMaybeEnqueueNode_running m t Ht1 Ht2)
            as (Hs & Hp & _ & Htg & _).
          rewrite IHms;
            [|exact Hs|exact Hp
             |cbn [map] in Hnot; intros Hc; apply Hnot; right; exact Hc].
          rewrite Htg. apply lookup_insert_ne.
          cbn [map] in Hnot. intros Heq. apply Hnot. left. exact Heq. }
        unfold GetAuxEngineMove.
        rewrite (Hkeep ns _ Hstop1 Hpurge1 Hout), Htags1.
        apply lookup_insert_eq.
    + rewrite Hcalls, Hcalls1. unfold size. cbn [length]. lia.
Qed.

Lemma AuxMaybeEnqueueNode_first_come_first_served_witness :
  let s' := fold_left (fun s n => AuxMaybeEnqueueNode n s) [node3; node4]
              idle_search in
  persistent_queue_of_nodes s'
  = persistent_queue_of_nodes idle_search
      ++ take (Z.to_nat (15000 - size (persistent_queue_of_nodes idle_search)))
           [node3; node4]
  /\ (forall n, In n [node3; node4] -> GetAuxEngineMove s' n = Some PENDING)
  /\ number_of_times_called_AuxMaybeEnqueueNode_ s'
     = number_of_times_called_AuxMaybeEnqueueNode_ idle_search
       + size [node3; node4].
Proof.
  apply (AuxMaybeEnqueueNode_first_come_first_served [node3; node4]
           idle_search); reflexivity.
Defined.







(** ** The two purges of the node queue, one after the other *)

Lemma Node_parent_ind (P : Node -> Prop) :
  (forall a e, P (mkNode a None e)) ->
  (forall a p e, P p -> P (mkNode a (Some p) e)) ->
  forall n, P n.
Proof.
  intros Hroot Hchild. fix IH 1. intros [a [p|] e].
  - apply Hchild, IH.
  - apply Hroot.
Qed.

Lemma depth_below_child (root : Node) (a : positive) (p : Node)
    (e : option Move) :
  depth_below root (mkNode a (Some p) e)
  = if ptr_eqb (mkNode a (Some p) e) root then Some 0
    else Z.succ <$> depth_below root p.
Proof. reflexivity. Qed.

Section TwoPurges.
Context `{Externals}.

Lemma AuxWait_node_loop_pairs (s : Search) (q : list Node) :
  AuxWait_node_loop s q
  = flatten_pairs
      (omap (fun n => (fun w => (n, w)) <$> AuxWait_witness s n) q).
Proof.
  induction q as [|n q IH]; [reflexivity|].
  cbn [AuxWait_node_loop omap list_omap].
  destruct (AuxWait_witness s n) as [w|]; cbn [fmap option_fmap option_map];
    rewrite IH; reflexivity.
Qed.

Lemma targets_witnessed_by_filter (s : Search) (r : Node) (q : list Node) :
  targets_witnessed_by r
    (omap (fun n => (fun w => (n, w)) <$> AuxWait_witness s n) q)
  = List.filter (witnessed_by s r) q.
Proof.
  unfold targets_witnessed_by, witnessed_by.
  induction q as [|n q IH]; [reflexivity|].
  cbn [omap list_omap List.filter].
  destruct (AuxWait_witness s n) as [w|]; cbn [fmap option_fmap option_map];
    [|exact IH].
  rewrite filter_cons. cbn [snd].
  destruct (ptr_eqb w r) eqn:Hw.
  - rewrite decide_True by reflexivity. cbn [map fst]. rewrite IH. reflexivity.
  - rewrite decide_False by discriminate. exact IH.
Qed.

Lemma AuxWait_purge_nodes_queue (s : Search) :
  persistent_queue_of_nodes (AuxWait_purge_nodes s)
  = AuxWait_node_loop s (persistent_queue_of_nodes s).
Proof.
  unfold AuxWait_purge_nodes, size.
  destruct (persistent_queue_of_nodes s) as [|n q] eqn:Hq; [exact Hq|].
  reflexivity.
Qed.

Lemma flatten_pairs_length (pairs : list (Node * Node)) :
  length (flatten_pairs pairs) = (2 * length pairs)%nat.
Proof.
  induction pairs as [|p pairs IH]; [reflexivity|].
  cbn [flatten_pairs flat_map length app] in *. unfold flatten_pairs in IH.
  rewrite IH. lia.
Qed.

(** X17.  When the node queue goes unchanged from [AuxWait] to thread
    zero of the next move and its size is recorded in
    [size_of_queue_at_start], the start-of-move purge finds a witness behind
    every target, never reads an empty queue, and leaves exactly the nodes
    of the old queue whose witness is the new root, in their order. *)
Theorem purges_keep_the_nodes_below_the_new_root (s s' : Search) :
  persistent_queue_of_nodes s'
  = persistent_queue_of_nodes (AuxWait_purge_nodes s) ->
  size_of_queue_at_start s' = size (persistent_queue_of_nodes s') ->
  final_purge_run s' = false ->
  AuxEngineWorker_purge_nodes s'
  = Some (with_node_queue
            (List.filter (witnessed_by s (root_node_ s'))
               (persistent_queue_of_nodes s)) s').
Proof.
  intros Hq Hsize Hfinal.
  rewrite AuxWait_purge_nodes_queue, AuxWait_node_loop_pairs in Hq.
  set (pairs := omap (fun n => (fun w => (n, w)) <$> AuxWait_witness s n)
                  (persistent_queue_of_nodes s)) in *.
  rewrite <- (targets_witnessed_by_filter s (root_node_ s')). fold pairs.
  unfold AuxEngineWorker_purge_nodes. rewrite Hfinal, Hsize, Hq.
  unfold size. rewrite flatten_pairs_length.
  destruct (Z.ltb_spec 0 (Z.of_nat (2 * length pairs))) as [Hpos|Hzero].
  - replace ((Z.of_nat (2 * length pairs) + 1) / 2)
      with ((2 * Z.of_nat (length pairs) + 1) / 2) by (f_equal; lia).
    rewrite half_of_twice.
    rewrite <- (app_nil_r (flatten_pairs pairs)).
    rewrite start_purge_loop_spec. reflexivity.
  - assert (pairs = []) as Hnil by (destruct pairs; [reflexivity|cbn in Hzero; lia]).
    rewrite Hnil in *. cbn in Hq. destruct s'. cbn in Hq. subst.
    reflexivity.
Qed.

Lemma AuxWait_witness_spec (s : Search) (n w : Node) :
  AuxWait_witness s n = Some w ->
  is_Some (depth_below w n)
  /\ exists a p g mv e,
       w = mkNode a (Some p) e
       /\ GetParent p = Some g /\ GetOwnEdge p = Some mv
       /\ ptr_eqb g (root_node_ s) = true
       /\ Edge_GetMove mv (played_history_IsBlackToMove s) = final_bestmove_ s.
Proof.
  induction n as [a e|a p e IH] using Node_parent_ind.
  - cbn [AuxWait_witness]. destruct (ptr_eqb _ _); discriminate.
  - cbn [AuxWait_witness].
    destruct (ptr_eqb (mkNode a (Some p) e) (root_node_ s)); [discriminate|].
    destruct p as [ap [g|] [mv|]]; try discriminate.
    destruct (ptr_eqb g (root_node_ s)) eqn:Hg.
    + destruct (Z.eqb_spec (Edge_GetMove mv (played_history_IsBlackToMove s))
                  (final_bestmove_ s)) as [Hmv|]; [|discriminate].
      intros [= <-]. split.
      * rewrite depth_below_child. unfold ptr_eqb. rewrite Pos.eqb_refl. eauto.
      * exists a, (mkNode ap (Some g) (Some mv)), g, mv, e.
        repeat split; assumption.
    + intros Hw. destruct (IH Hw) as [[d Hd] Hrest]. split; [|exact Hrest].
      rewrite depth_below_child.
      destruct (ptr_eqb (mkNode a (Some (mkNode ap (Some g) (Some mv))) e) w);
        [eauto|].
      rewrite Hd. cbn. eauto.
Qed.

(** X18.  The witness the end-of-move purge stores behind a node it keeps
    is the node itself or one of its ancestors, namely the one whose
    grandparent is the root and whose parent was reached by the move
    played. *)
Theorem AuxWait_witness_is_ancestor_two_plies_below_root (s : Search)
    (n w : Node) :
  AuxWait_witness s n = Some w ->
  is_Some (depth_below w n)
  /\ exists p g mv,
       GetParent w = Some p /\ GetParent p = Some g
       /\ GetOwnEdge p = Some mv
       /\ ptr_eqb g (root_node_ s) = true
       /\ Edge_GetMove mv (played_history_IsBlackToMove s) = final_bestmove_ s.
Proof.
  intros Hw.
  destruct (AuxWait_witness_spec s n w Hw)
    as [Hd (a & p & g & mv & e & -> & Hp & Hmv & Hg & Hplayed)].
  split; [exact Hd|]. exists p, g, mv. repeat split; assumption.
Qed.

End TwoPurges.

Lemma purges_keep_the_nodes_below_the_new_root_witness :
  AuxEngineWorker_purge_nodes next_move_search
  = Some (with_node_queue
            (List.filter (witnessed_by finished_search (root_node_ next_move_search))
               (persistent_queue_of_nodes finished_search))
            next_move_search).
Proof.
  apply (@purges_keep_the_nodes_below_the_new_root coordinate_externals
           finished_search next_move_search); reflexivity.
Defined.

Lemma AuxWait_witness_is_ancestor_two_plies_below_root_witness :
  is_Some (depth_below node4 node6)
  /\ exists p g mv,
       GetParent node4 = Some p /\ GetParent p = Some g
       /\ GetOwnEdge p = Some mv
       /\ ptr_eqb g (root_node_ finished_search) = true
       /\ Edge_GetMove mv (played_history_IsBlackToMove finished_search)
          = final_bestmove_ finished_search.
Proof.
  apply (@AuxWait_witness_is_ancestor_two_plies_below_root
           coordinate_externals finished_search node6 node4).
  reflexivity.
Defined.

(** ** The moves sent to the helper *)

Lemma even_odd_of_nat (d : nat) :
  Z.even (Z.of_nat d) = Nat.even d /\ Z.odd (Z.of_nat d) = Nat.odd d.
Proof.
  induction d as [|d [IHe IHo]]; [split; reflexivity|].
  rewrite Nat2Z.inj_succ, Z.even_succ, Z.odd_succ, Nat.even_succ, Nat.odd_succ.
  split; assumption.
Qed.

Lemma rem_2_of_nat (d : nat) : (Z.rem (Z.of_nat d) 2 =? 0) = Nat.even d.
Proof.
  rewrite Z.rem_mod_nonneg by lia. rewrite Zmod_even.
  destruct (even_odd_of_nat d) as [-> _]. destruct (Nat.even d); reflexivity.
Qed.

Lemma flip_at_depth (d i : nat) :
  (i < d)%nat ->
  xorb (Nat.even d) (Nat.odd (d - 1 - i)) = Nat.odd i.
Proof.
  intros Hi. replace d with (i + 1 + (d - 1 - i))%nat at 1 by lia.
  rewrite !Nat.even_add. cbn [Nat.even].
  rewrite <- !Nat.negb_even.
  destruct (Nat.even i), (Nat.even (d - 1 - i)); reflexivity.
Qed.

Section MovesToTheNode.
Context `{Externals}.

Lemma edges_below_child (root : Node) (a : positive) (p : Node) (mv : Move) :
  ptr_eqb (mkNode a (Some p) (Some mv)) root = false ->
  edges_below root (mkNode a (Some p) (Some mv))
  = (fun es => es ++ [mv]) <$> edges_below root p.
Proof. intros Hne. cbn [edges_below]. rewrite Hne. reflexivity. Qed.

Lemma collect_moves_child (root : Node) (a : positive) (p : Node) (mv : Move)
    (flip : bool) :
  ptr_eqb (mkNode a (Some p) (Some mv)) root = false ->
  collect_moves root (mkNode a (Some p) (Some mv)) flip
  = (fun r => (Edge_GetMove mv flip :: fst r, Edge_GetMove mv false :: snd r))
      <$> collect_moves root p (negb flip).
Proof. intros Hne. cbn [collect_moves]. rewrite Hne. reflexivity. Qed.

(** What the loop collects, read from the root down: the move of the edge
    at place [i] was taken with the value [flip] had after as many turns as
    edges lie below it. *)
Lemma collect_moves_spec (root : Node) (n : Node) :
  forall flip es,
    edges_below root n = Some es ->
    depth_below root n = Some (size es)
    /\ exists a b,
         collect_moves root n flip = Some (a, b)
         /\ rev b = map (fun mv => Edge_GetMove mv false) es
         /\ length a = length es
         /\ forall i mv,
              es !! i = Some mv ->
              rev a !! i
              = Some (Edge_GetMove mv
                        (xorb flip (Nat.odd (length es - 1 - i)))).
Proof.
  induction n as [a e|a p e IH] using Node_parent_ind; intros flip es Hes.
  - cbn [edges_below collect_moves depth_below] in *.
    destruct (ptr_eqb (mkNode a None e) root); [|discriminate].
    injection Hes as <-. split; [reflexivity|].
    exists [], []. repeat split. intros i mv Hi. destruct i; discriminate.
  - destruct (ptr_eqb (mkNode a (Some p) e) root) eqn:Hroot.
    + cbn [edges_below collect_moves] in *. rewrite depth_below_child.
      rewrite Hroot in *. injection Hes as <-. split; [reflexivity|].
      exists [], []. repeat split. intros i mv Hi. destruct i; discriminate.
    + destruct e as [mv|]; [|cbn [edges_below] in Hes; rewrite Hroot in Hes;
                              discriminate].
      rewrite edges_below_child in Hes by exact Hroot.
      destruct (edges_below root p) as [esp|] eqn:Hesp; [|discriminate].
      cbn in Hes. injection Hes as <-.
      destruct (IH (negb flip) esp eq_refl)
        as (Hdepth & ap & bp & Hrun & Hb & Hlen & Hmoves).
      split.
      { rewrite depth_below_child, Hroot, Hdepth. cbn.
        unfold size. rewrite length_app. cbn [length]. f_equal. lia. }
      rewrite collect_moves_child by exact Hroot. rewrite Hrun.
      eexists _, _. split; [reflexivity|]. cbn [fst snd rev].
      split; [rewrite Hb, map_app; reflexivity|].
      split; [rewrite length_app; cbn [length]; lia|].
      intros i m Hi. rewrite length_app. cbn [length].
      destruct (Nat.lt_ge_cases i (length esp)) as [Hlt|Hge].
      * rewrite lookup_app_l in Hi by exact Hlt.
        rewrite lookup_app_l by (rewrite length_rev; lia).
        rewrite (Hmoves i m Hi).
        replace (length esp + 1 - 1 - i)%nat
          with (S (length esp - 1 - i)) by lia.
        rewrite Nat.odd_succ, <- Nat.negb_odd.
        destruct flip, (Nat.odd (length esp - 1 - i)); reflexivity.
      * pose proof (lookup_lt_Some _ _ _ Hi) as Hbound.
        rewrite length_app in Hbound. cbn [length] in Hbound.
        assert (i = length esp) as -> by lia.
        rewrite list_lookup_middle in Hi by reflexivity. injection Hi as <-.
        rewrite list_lookup_middle by (rewrite length_rev; lia).
        replace (length esp + 1 - 1 - length esp)%nat with O by lia.
        cbn [Nat.odd Nat.even negb]. rewrite xorb_false_r. reflexivity.
Qed.

(** X19.  For a node below the root, [DoAuxEngine] collects one move per
    edge on the way from the root down to it.  Whatever the depth of the
    node, the move of the edge at depth [k] is taken from the side of the
    opponent exactly when this differs from black being to move at the root
    for an odd [k]: the first move with [IsBlackToMove()], the second with
    its negation, and so on.  The second vector holds the same moves as the
    edges store them. *)
Theorem DoAuxEngine_moves_alternate_from_the_root (s : Search) (n : Node)
    (es : list Move) :
  edges_below (root_node_ s) n = Some es ->
  depth_below (root_node_ s) n = Some (size es)
  /\ exists ms,
       DoAuxEngine_moves s n (size es)
       = Some (ms, map (fun mv => Edge_GetMove mv false) es)
       /\ length ms = length es
       /\ forall i mv,
            es !! i = Some mv ->
            ms !! i
            = Some (Edge_GetMove mv
                      (xorb (played_history_IsBlackToMove s) (Nat.odd i))).
Proof.
  intros Hes. unfold DoAuxEngine_moves, size. rewrite rem_2_of_nat.
  destruct (collect_moves_spec (root_node_ s) n
              (xorb (played_history_IsBlackToMove s) (Nat.even (length es)))
              es Hes) as (Hdepth & a & b & Hrun & Hb & Hlen & Hmoves).
  split; [exact Hdepth|].
  exists (rev a). rewrite Hrun. cbn [fmap option_fmap option_map fst snd].
  rewrite Hb. split; [reflexivity|].
  split; [rewrite length_rev; exact Hlen|].
  intros i mv Hi. rewrite (Hmoves i mv Hi).
  rewrite xorb_assoc, flip_at_depth; [reflexivity|].
  apply lookup_lt_Some in Hi. exact Hi.
Qed.

End MovesToTheNode.

Lemma DoAuxEngine_moves_alternate_from_the_root_witness :
  depth_below (root_node_ idle_search) node6 = Some (size [e2e4; e7e5; g1f3])
  /\ exists ms,
       DoAuxEngine_moves idle_search node6 (size [e2e4; e7e5; g1f3])
       = Some (ms, map (fun mv => Edge_GetMove mv false) [e2e4; e7e5; g1f3])
       /\ length ms = length [e2e4; e7e5; g1f3]
       /\ forall i mv,
            [e2e4; e7e5; g1f3] !! i = Some mv ->
            ms !! i
            = Some (Edge_GetMove mv
                      (xorb (played_history_IsBlackToMove idle_search)
                         (Nat.odd i))).
Proof.
  apply (@DoAuxEngine_moves_alternate_from_the_root coordinate_externals
           idle_search node6 [e2e4; e7e5; g1f3]).
  reflexivity.
Defined.

(** ** The PV queue, its two side queues and the cache *)

Section PVQueues.
Context `{Externals}.

Lemma encode_line_reads_side_to_move_only (s1 s2 : Search)
    (pv_as_string : string) (depth : Z) (board : ChessBoard)
    (moves : list Move) (require_some_depth : bool) :
  played_history_IsBlackToMove s1 = played_history_IsBlackToMove s2 ->
  encode_line s1 pv_as_string depth board moves require_some_depth
  = encode_line s2 pv_as_string depth board moves require_some_depth.
Proof. intros Hb. unfold encode_line. rewrite Hb. reflexivity. Qed.

Lemma enqueue_pv_frame (depth : Z) (e : Encoder) (s : Search) :
  stop_ (enqueue_pv depth e s) = stop_ s
  /\ played_history_IsBlackToMove (enqueue_pv depth e s)
     = played_history_IsBlackToMove s.
Proof.
  unfold enqueue_pv.
  destruct (min_pv_size <=? size (pv_moves e)); [|auto].
  destruct (my_pv_cache_ s !! pv_key (pv_moves e)); [auto|].
  cbn [fast_track_extend_and_evaluate_queue_ with_pv_cache].
  destruct (size (fast_track_extend_and_evaluate_queue_ s) <? 20000); auto.
Qed.

Lemma enqueue_pv_caches (depth : Z) (e : Encoder) (s : Search) :
  (min_pv_size <=? size (pv_moves e)) = true ->
  is_Some (my_pv_cache_ (enqueue_pv depth e s) !! pv_key (pv_moves e)).
Proof.
  intros Hsize. unfold enqueue_pv. rewrite Hsize.
  destruct (my_pv_cache_ s !! pv_key (pv_moves e)) eqn:Hkey; [eauto|].
  cbn [fast_track_extend_and_evaluate_queue_ with_pv_cache].
  destruct (size (fast_track_extend_and_evaluate_queue_ s) <? 20000);
    cbn [my_pv_cache_ with_pv_cache with_pv_side_queues with_pv_queue];
    rewrite lookup_insert_eq; eauto.
Qed.

Lemma enqueue_pv_twice (depth : Z) (e : Encoder) (s : Search) :
  enqueue_pv depth e (enqueue_pv depth e s) = enqueue_pv depth e s.
Proof.
  destruct (min_pv_size <=? size (pv_moves e)) eqn:Hsize.
  - apply enqueue_pv_known_key, enqueue_pv_caches, Hsize.
  - unfold enqueue_pv. rewrite Hsize. reflexivity.
Qed.

(** X20.  [AuxEncode_and_Enqueue] is idempotent: a second call with the
    same line, on the state the first call left, changes nothing, whether
    the first call queued the PV, dropped it at the cap, or ignored the
    line. *)
Theorem AuxEncode_and_Enqueue_twice (pv_as_string : string) (depth : Z)
    (board : ChessBoard) (moves : list Move) (require_some_depth : bool)
    (s : Search) :
  AuxEncode_and_Enqueue pv_as_string depth board moves require_some_depth
    (AuxEncode_and_Enqueue pv_as_string depth board moves require_some_depth s)
  = AuxEncode_and_Enqueue pv_as_string depth board moves require_some_depth s.
Proof.
  unfold AuxEncode_and_Enqueue at 2.
  destruct (stop_ s) eqn:Hstop;
    [unfold AuxEncode_and_Enqueue; rewrite Hstop; reflexivity|].
  destruct (encode_line s pv_as_string depth board moves require_some_depth)
    as [[|e]|] eqn:Hline;
    try (unfold AuxEncode_and_Enqueue; rewrite Hstop, Hline; reflexivity).
  destruct (enqueue_pv_frame depth e s) as [Hstop' Hblack].
  unfold AuxEncode_and_Enqueue. rewrite Hstop', Hstop.
  rewrite (encode_line_reads_side_to_move_only _ s) by exact Hblack.
  rewrite Hline. apply enqueue_pv_twice.
Qed.

(** X21.  [AuxEncode_and_Enqueue] extends the PV queue and its two side
    queues together: either all three are left as they were, or each gets
    one entry more, the PV queue the moves from the root followed by the
    encoded moves, [starting_depth_of_PVs_] the depth passed in, and
    [amount_of_support_for_PVs_] the node count read from the line. *)
Theorem AuxEncode_and_Enqueue_pushes_on_three_queues (pv_as_string : string)
    (depth : Z) (board : ChessBoard) (moves : list Move)
    (require_some_depth : bool) (s : Search) :
  let s' := AuxEncode_and_Enqueue pv_as_string depth board moves
              require_some_depth s in
  (fast_track_extend_and_evaluate_queue_ s'
   = fast_track_extend_and_evaluate_queue_ s
   /\ starting_depth_of_PVs_ s' = starting_depth_of_PVs_ s
   /\ amount_of_support_for_PVs_ s' = amount_of_support_for_PVs_ s)
  \/ exists e,
       encode_line s pv_as_string depth board moves require_some_depth
       = Some (Parsed e)
       /\ fast_track_extend_and_evaluate_queue_ s'
          = fast_track_extend_and_evaluate_queue_ s ++ [moves ++ pv_moves e]
       /\ starting_depth_of_PVs_ s' = starting_depth_of_PVs_ s ++ [depth]
       /\ amount_of_support_for_PVs_ s'
          = amount_of_support_for_PVs_ s ++ [nodes_to_support e].
Proof.
  cbn zeta. unfold AuxEncode_and_Enqueue.
  destruct (stop_ s); [left; auto|].
  destruct (encode_line s pv_as_string depth board moves require_some_depth)
    as [[|e]|] eqn:Hline; try (left; auto; fail).
  unfold enqueue_pv.
  destruct (min_pv_size <=? size (pv_moves e)); [|left; auto].
  destruct (my_pv_cache_ s !! pv_key (pv_moves e)); [left; auto|].
  cbn [fast_track_extend_and_evaluate_queue_ with_pv_cache].
  destruct (size (fast_track_extend_and_evaluate_queue_ s) <? 20000);
    [|left; auto].
  right. exists e. split; [reflexivity|].
  assert (Hmoves : my_moves_from_the_white_side e = moves ++ pv_moves e).
  { unfold encode_line in Hline.
    destruct (encode_loop_inv false moves _ _ _ _ _ _ Hline)
      as (_ & _ & Hm & _);
      [intros Hb; discriminate|apply encoder_inv_initially|exact Hm]. }
  cbn. rewrite Hmoves. auto.
Qed.

(** X22.  A line that reports its depth at most once and a depth of 4 or
    less is never queued and never cached: the encoder stops one move short
    of the reported depth, and a PV of fewer than four moves is ignored. *)
Theorem AuxEncode_and_Enqueue_ignores_depth_up_to_4 (pv_as_string : string)
    (depth : Z) (board : ChessBoard) (moves : list Move)
    (require_some_depth : bool) (s : Search) :
  (depth_reports (String.words pv_as_string) <= 1)%nat ->
  exists r,
    encode_line s pv_as_string depth board moves require_some_depth = Some r
    /\ forall e, r = Parsed e ->
         (size (pv_moves e) = 0 \/ size (pv_moves e) < depth_reached e)
         /\ (depth_reached e <= 4 ->
             AuxEncode_and_Enqueue pv_as_string depth board moves
               require_some_depth s = s).
Proof.
  intros Honce.
  destruct (encode_line s pv_as_string depth board moves require_some_depth)
    as [r|] eqn:Hline.
  - exists r. split; [reflexivity|]. intros e ->.
    assert (Hinv : encoder_inv true moves e).
    { unfold encode_line in Hline.
      apply (encode_loop_inv true moves _ _ _ _ _ _ Hline);
        [intros _; split; [exact Honce|reflexivity]
        |apply encoder_inv_initially]. }
    destruct Hinv as (Hlen & _ & _ & Hdepth).
    specialize (Hdepth eq_refl).
    split; [lia|].
    intros Hshallow. unfold AuxEncode_and_Enqueue.
    destruct (stop_ s); [reflexivity|]. rewrite Hline. unfold enqueue_pv.
    destruct (Z.leb_spec min_pv_size (size (pv_moves e))) as [Hbig|];
      [|reflexivity].
    unfold min_pv_size in Hbig. lia.
  - exfalso. unfold encode_line in Hline.
    destruct (encode_loop_terminates (ws_fails_at_end pv_as_string)
                require_some_depth (S (length (String.words pv_as_string)))
                (String.words pv_as_string)
                (mkEncoder 0 0 1
                   (xorb (played_history_IsBlackToMove s) (Z.rem depth 2 =? 0))
                   board moves [])) as [r Hr]; [lia|].
    rewrite Hr in Hline. discriminate.
Qed.

Lemma AuxWait_purge_nodes_frame (s : Search) :
  AuxWait_purge_nodes s
  = with_node_queue (persistent_queue_of_nodes (AuxWait_purge_nodes s)) s.
Proof.
  unfold AuxWait_purge_nodes.
  destruct (0 <? size (persistent_queue_of_nodes s)); [reflexivity|].
  destruct s; reflexivity.
Qed.

Lemma join_all_true (mutex : MutexEnd) (threads : list ThreadEnd) :
  join_all mutex threads = true
  <-> Forall (fun t => t = Returns) threads
      /\ (threads = [] \/ mutex = Released).
Proof.
  induction threads as [|t threads IH]; cbn [join_all].
  - split; [|reflexivity]. intros _. split; [apply Forall_nil_2|].
    left. reflexivity.
  - destruct mutex, t; rewrite ?IH; split.
    + intros [Hall _]. split; [|right; reflexivity].
      apply Forall_cons. split; [reflexivity|exact Hall].
    + intros [Hall _]. split; [inversion Hall; assumption|].
      right. reflexivity.
    + discriminate.
    + intros [Hall _]. inversion Hall; discriminate.
    + discriminate.
    + intros [_ [Hnil|Hkept]]; discriminate.
    + discriminate.
    + intros [_ [Hnil|Hkept]]; discriminate.
Qed.

Lemma Forall_Returns_or_Hangs (threads : list ThreadEnd) :
  Forall (fun t => t = Returns) threads
  \/ Exists (fun t => t = Hangs) threads.
Proof.
  induction threads as [|[|] threads [IH|IH]].
  - left. apply Forall_nil_2.
  - left. apply Forall_cons. split; [reflexivity|exact IH].
  - right. apply Exists_cons_tl. exact IH.
  - right. apply Exists_cons_hd. reflexivity.
  - right. apply Exists_cons_hd. reflexivity.
Qed.

Lemma locks_return_true (m : Mutexes) :
  locks_return m = true
  <-> my_pv_cache_mutex_ m = Released /\ auxengine_mutex_ m = Released
      /\ pure_stats_mutex_ m = Released
      /\ fast_track_extend_and_evaluate_queue_mutex_ m = Released.
Proof.
  unfold locks_return.
  destruct (my_pv_cache_mutex_ m), (auxengine_mutex_ m),
    (pure_stats_mutex_ m), (fast_track_extend_and_evaluate_queue_mutex_ m);
    split; try discriminate; try (intros _; repeat split; reflexivity);
    intros (? & ? & ? & ?); discriminate.
Qed.

(** What the part of [AuxWait] after the join leaves behind. *)
Lemma AuxWait_after_join_spec (GetN auxengine_num_updates : Z)
    (st : AuxStats) (s : Search) :
  exists st' s',
    AuxWait_after_join GetN auxengine_num_updates st s = Some (st', s')
    /\ my_pv_cache_ s' = ∅
    /\ fast_track_extend_and_evaluate_queue_ s' = []
    /\ aux_engine_move s' = aux_engine_move s
    /\ starting_depth_of_PVs_ s' = starting_depth_of_PVs_ s
    /\ amount_of_support_for_PVs_ s' = amount_of_support_for_PVs_ s
    /\ AuxEngineQueueSizeAtMoveSelectionTime st'
       = size (persistent_queue_of_nodes s)
    /\ Total_number_of_nodes st' = 0
    /\ Number_of_nodes_added_by_AuxEngine st' = 0
    /\ initial_purge_run st' = false
    /\ forall pv_as_string depth board moves require_some_depth e,
         encode_line s pv_as_string depth board moves require_some_depth
         = Some (Parsed e) ->
         min_pv_size <= size (pv_moves e) ->
         fast_track_extend_and_evaluate_queue_
           (AuxEncode_and_Enqueue pv_as_string depth board moves
              require_some_depth (with_stop false s'))
         = [my_moves_from_the_white_side e].
Proof.
  unfold AuxWait_after_join. cbv zeta. rewrite AuxWait_purge_nodes_frame.
  set (q := persistent_queue_of_nodes (AuxWait_purge_nodes (with_pv_cache ∅ s))).
  unfold AuxWait_purge_pvs.
  cbn [fast_track_extend_and_evaluate_queue_ with_node_queue with_pv_cache
       persistent_queue_of_nodes].
  destruct (fast_track_extend_and_evaluate_queue_ s) as [|pv pvs] eqn:Hq.
  - eexists _, _. split; [reflexivity|].
    cbn [my_pv_cache_ fast_track_extend_and_evaluate_queue_ aux_engine_move
         starting_depth_of_PVs_ amount_of_support_for_PVs_ with_node_queue
         with_pv_cache AuxEngineQueueSizeAtMoveSelectionTime
         Total_number_of_nodes Number_of_nodes_added_by_AuxEngine
         initial_purge_run].
    repeat (split; [first [reflexivity|exact Hq]|]).
    intros pv_as_string depth board moves require_some_depth e Hline Hsize.
    unfold AuxEncode_and_Enqueue. cbn [stop_ with_stop].
    rewrite (encode_line_reads_side_to_move_only _ s) by reflexivity.
    rewrite Hline. unfold enqueue_pv.
    destruct (Z.leb_spec min_pv_size (size (pv_moves e))); [|lia].
    cbn [my_pv_cache_ with_stop with_node_queue with_pv_cache].
    rewrite lookup_empty.
    cbn [fast_track_extend_and_evaluate_queue_ with_stop with_node_queue
         with_pv_cache].
    rewrite Hq. reflexivity.
  - eexists _, _. split; [reflexivity|].
    cbn [my_pv_cache_ fast_track_extend_and_evaluate_queue_ aux_engine_move
         starting_depth_of_PVs_ amount_of_support_for_PVs_ with_node_queue
         with_pv_cache with_pv_queue AuxEngineQueueSizeAtMoveSelectionTime
         Total_number_of_nodes Number_of_nodes_added_by_AuxEngine
         initial_purge_run].
    repeat (split; [reflexivity|]).
    intros pv_as_string depth board moves require_some_depth e Hline Hsize.
    unfold AuxEncode_and_Enqueue. cbn [stop_ with_stop with_pv_queue].
    rewrite (encode_line_reads_side_to_move_only _ s) by reflexivity.
    rewrite Hline. unfold enqueue_pv.
    destruct (Z.leb_spec min_pv_size (size (pv_moves e))); [|lia].
    cbn [my_pv_cache_ with_stop with_node_queue with_pv_cache with_pv_queue].
    rewrite lookup_empty. reflexivity.
Qed.

(** X23.  [AuxWait] first joins the helper threads, each under
    [threads_mutex_], and then locks four more mutexes.  It never returns
    exactly when one of the threads never returns, or there is a thread and
    [threads_mutex_] is never released, or one of the four other mutexes is
    never released.  In every other case it returns: it leaves the PV cache
    and the PV queue empty and does not touch the tags nor the two side
    queues of the PV queue, which keep their entries; it records the size
    the node queue had before the purge, resets the two node counters and
    clears [initial_purge_run].  Once the search runs again, every line
    whose encoding has four moves or more is queued, as the only PV,
    whatever was cached or dropped before. *)
Theorem AuxWait_forgets_every_PV (auxengine_threads_ : list ThreadEnd)
    (m : Mutexes) (GetN auxengine_num_updates : Z) (st : AuxStats)
    (s : Search) :
  (AuxWait auxengine_threads_ m GetN auxengine_num_updates st s = Blocked
   <-> Exists (fun t => t = Hangs) auxengine_threads_
       \/ (auxengine_threads_ <> [] /\ threads_mutex_ m = Kept)
       \/ my_pv_cache_mutex_ m = Kept
       \/ auxengine_mutex_ m = Kept
       \/ pure_stats_mutex_ m = Kept
       \/ fast_track_extend_and_evaluate_queue_mutex_ m = Kept)
  /\ (AuxWait auxengine_threads_ m GetN auxengine_num_updates st s <> Blocked
      -> exists st' s',
        AuxWait auxengine_threads_ m GetN auxengine_num_updates st s
        = Finished st' s'
        /\ my_pv_cache_ s' = ∅
        /\ fast_track_extend_and_evaluate_queue_ s' = []
        /\ aux_engine_move s' = aux_engine_move s
        /\ starting_depth_of_PVs_ s' = starting_depth_of_PVs_ s
        /\ amount_of_support_for_PVs_ s' = amount_of_support_for_PVs_ s
        /\ AuxEngineQueueSizeAtMoveSelectionTime st'
           = size (persistent_queue_of_nodes s)
        /\ Total_number_of_nodes st' = 0
        /\ Number_of_nodes_added_by_AuxEngine st' = 0
        /\ initial_purge_run st' = false
        /\ forall pv_as_string depth board moves require_some_depth e,
             encode_line s pv_as_string depth board moves require_some_depth
             = Some (Parsed e) ->
             min_pv_size <= size (pv_moves e) ->
             fast_track_extend_and_evaluate_queue_
               (AuxEncode_and_Enqueue pv_as_string depth board moves
                  require_some_depth (with_stop false s'))
             = [my_moves_from_the_white_side e]).
Proof.
  unfold AuxWait.
  destruct (AuxWait_after_join_spec GetN auxengine_num_updates st s)
    as (st' & s' & Hrun & Hrest).
  rewrite Hrun.
  destruct (join_all (threads_mutex_ m) (rev auxengine_threads_)) eqn:Hjoin;
    [destruct (locks_return m) eqn:Hlocks|]; cbn [andb].
  - apply join_all_true in Hjoin as [Hall Hmutex].
    apply List.Forall_rev in Hall. rewrite rev_involutive in Hall.
    apply locks_return_true in Hlocks as (Hc & Ha & Hp & Hf).
    split; [|intros _; exists st', s'; split; [reflexivity|exact Hrest]].
    split; [discriminate|].
    intros [Hhang|[[Hne Hkept]|[Hk|[Hk|[Hk|Hk]]]]]; exfalso.
    + apply Exists_exists in Hhang as (t & Hin & ->).
      rewrite Forall_forall in Hall. discriminate (Hall _ Hin).
    + destruct Hmutex as [Hnil|Hrel]; [|congruence].
      apply Hne. rewrite <- (rev_involutive auxengine_threads_), Hnil.
      reflexivity.
    + congruence.
    + congruence.
    + congruence.
    + congruence.
  - split; [|intros Hno; contradiction Hno; reflexivity].
    split; [|reflexivity]. intros _. right. right.
    unfold locks_return in Hlocks.
    destruct (my_pv_cache_mutex_ m); [|left; reflexivity].
    destruct (auxengine_mutex_ m); [|right; left; reflexivity].
    destruct (pure_stats_mutex_ m); [|right; right; left; reflexivity].
    destruct (fast_track_extend_and_evaluate_queue_mutex_ m);
      [discriminate|right; right; right; reflexivity].
  - split; [|intros Hno; contradiction Hno; reflexivity].
    split; [|reflexivity]. intros _.
    destruct (Forall_Returns_or_Hangs auxengine_threads_) as [Hall|Hhang];
      [|left; exact Hhang].
    right. left.
    destruct auxengine_threads_ as [|t threads].
    { discriminate Hjoin. }
    split; [discriminate|].
    destruct (threads_mutex_ m); [|reflexivity].
    assert (join_all Released (rev (t :: threads)) = true) as Habs.
    { apply join_all_true. split; [|right; reflexivity].
      apply List.Forall_rev. exact Hall. }
    rewrite Habs in Hjoin. discriminate Hjoin.
Qed.

End PVQueues.

Lemma AuxWait_forgets_every_PV_witness :
  exists st' s',
    AuxWait [Returns; Returns] LineSamples.free_mutexes 100 7
      (mkAuxStats 0 0 40 3 true) pv_search = Finished st' s'
    /\ my_pv_cache_ s' = ∅
    /\ fast_track_extend_and_evaluate_queue_ s' = []
    /\ Total_number_of_nodes st' = 0
    /\ initial_purge_run st' = false.
Proof.
  destruct (@AuxWait_forgets_every_PV coordinate_externals
              [Returns; Returns] LineSamples.free_mutexes 100 7
              (mkAuxStats 0 0 40 3 true) pv_search) as [_ Hreturns].
  destruct Hreturns
    as (st' & s' & Hrun & Hcache & Hqueue & _ & _ & _ & _ & Htotal & _
        & Hpurge & _).
  - cbv. discriminate.
  - exists st', s'. repeat split; assumption.
Defined.

Lemma AuxEncode_and_Enqueue_ignores_depth_up_to_4_witness :
  exists r,
    encode_line idle_search (line line4) 0 tt [] false = Some r
    /\ forall e, r = Parsed e ->
         (size (pv_moves e) = 0 \/ size (pv_moves e) < depth_reached e)
         /\ (depth_reached e <= 4 ->
             AuxEncode_and_Enqueue (line line4) 0 tt [] false idle_search
             = idle_search).
Proof.
  apply (@AuxEncode_and_Enqueue_ignores_depth_up_to_4 coordinate_externals
           (line line4) 0 tt [] false idle_search).
  vm_compute. lia.
Defined.

(** ** A query that is not stopped *)

Lemma read_step_undisturbed (inf : bool) (ev : HelperLine) (st : ReadState) :
  stopping st = false -> stop_load ev = false ->
  not_bestmove ev -> token st <> "bestmove"%string ->
  exists tok,
    tok <> "bestmove"%string
    /\ info_turns (token st) [ev]
       = (if String.eqb tok "info" then [ev] else [])
    /\ (forall evs, info_turns (token st) (ev :: evs)
                    = info_turns (token st) [ev] ++ info_turns tok evs)
    /\ read_step inf ev st
       = Continue
           (mkReadState tok (line ev) false
              (second_stopping st) (third_stopping st) (auxengine_stopped_ st)
              (written st)
              (encoded st ++ (if inf
                              then map (fun ev => (line ev, true))
                                     (info_turns (token st) [ev])
                              else []))).
Proof.
  intros Hst Hload Hnb Htok. unfold read_step.
  pose proof (first_token_not_bestmove ev st Hnb Htok) as Hfirst.
  set (tok := match String.words (line ev) with
              | t :: _ => t
              | [] => token st
              end) in *.
  exists tok. split; [exact Hfirst|].
  split; [cbn [info_turns]; fold tok; rewrite app_nil_r; reflexivity|].
  split.
  { intros evs. cbn [info_turns]. fold tok. rewrite app_nil_r. reflexivity. }
  destruct (String.eqb_spec tok "bestmove") as [Heq|_]; [contradiction|].
  rewrite Hst, Hload. cbn [negb info_turns]. fold tok. rewrite app_nil_r.
  destruct (String.eqb tok "info"), inf; cbn [andb map];
    rewrite ?app_nil_r; reflexivity.
Qed.

Lemma read_loop_undisturbed (inf : bool) (pre : list HelperLine) :
  forall st,
    stopping st = false -> token st <> "bestmove"%string ->
    Forall (fun ev => not_bestmove ev /\ stop_load ev = false) pre ->
    exists st',
      read_loop inf pre st = Continue st'
      /\ stopping st' = false
      /\ written st' = written st
      /\ prev_line st' = match last pre with
                         | Some ev => line ev
                         | None => prev_line st
                         end
      /\ encoded st'
         = encoded st
             ++ (if inf
                 then map (fun ev => (line ev, true))
                        (info_turns (token st) pre)
                 else []).
Proof.
  induction pre as [|ev pre IH]; intros st Hst Htok Hpre.
  - exists st. cbn. destruct inf; rewrite app_nil_r; auto.
  - inversion Hpre as [|? ? (Hnb & Hload) Hpre']; subst.
    cbn [read_loop].
    destruct (read_step_undisturbed inf ev st Hst Hload Hnb Htok)
      as (tok & Htok' & _ & Hturns & ->).
    match goal with
    | |- context [read_loop inf pre ?s] =>
        destruct (IH s eq_refl Htok' Hpre')
          as (st' & Hrun & Hst' & Hw & Hprev & Henc)
    end.
    exists st'. split; [exact Hrun|]. split; [exact Hst'|].
    split; [exact Hw|]. split.
    + rewrite Hprev. cbn [prev_line].
      destruct pre as [|ev' pre]; [reflexivity|].
      change (last (ev :: ev' :: pre)) with (last (ev' :: pre)).
      destruct (last (ev' :: pre)) eqn:Hl; [reflexivity|].
      apply last_None in Hl. discriminate.
    + rewrite Henc. cbn [encoded token]. rewrite <- app_assoc. f_equal.
      rewrite (Hturns pre).
      destruct inf; [rewrite map_app|]; reflexivity.
Qed.

(** The turn that reads [bestmove]: it writes [stop] and locks a mutex it
    holds when the next word is [info], and leaves the loop otherwise. *)
Lemma read_step_bestmove (inf : bool) (bm : HelperLine) (st : ReadState) :
  first_word (line bm) = Some "bestmove"%string ->
  exists tok,
    read_step inf bm st
    = if bool_decide (second_word (line bm) = Some "info"%string)
      then Deadlock
             (mkReadState tok (prev_line st) (stopping st) (second_stopping st)
                (third_stopping st) (auxengine_stopped_ st)
                (written st ++ ["stop"%string]) (encoded st))
      else Break
             (mkReadState tok (prev_line st) (stopping st) (second_stopping st)
                (third_stopping st) (auxengine_stopped_ st) (written st)
                (encoded st)).
Proof.
  unfold first_word, second_word, read_step. intros Hfirst.
  destruct (String.words (line bm)) as [|t ws]; [discriminate|].
  cbn [lookup list_lookup] in Hfirst. injection Hfirst as ->.
  cbn [String.eqb Ascii.eqb Bool.eqb].
  destruct ws as [|t2 ws]; cbn [lookup list_lookup].
  - rewrite bool_decide_eq_false_2 by discriminate. eexists. reflexivity.
  - destruct (String.eqb_spec t2 "info") as [->|Hne].
    + rewrite bool_decide_eq_true_2 by reflexivity. eexists. reflexivity.
    + rewrite bool_decide_eq_false_2 by (intros [= Heq]; contradiction).
      eexists. reflexivity.
Qed.

Lemma info_turns_of_worded_lines (token : string) (evs : list HelperLine) :
  Forall (fun ev => first_word (line ev) <> None) evs ->
  info_turns token evs
  = List.filter
      (fun ev => bool_decide (first_word (line ev) = Some "info"%string)) evs.
Proof.
  revert token. induction evs as [|ev evs IH]; intros token Hall.
  - reflexivity.
  - inversion Hall as [|? ? Hword Hall']; subst.
    cbn [info_turns List.filter]. unfold first_word in *.
    destruct (String.words (line ev)) as [|w ws]; [contradiction Hword; reflexivity|].
    cbn [lookup list_lookup]. rewrite (IH w Hall').
    destruct (String.eqb_spec w "info") as [->|Hne].
    + rewrite bool_decide_true by reflexivity. reflexivity.
    + rewrite bool_decide_false by congruence. reflexivity.
Qed.

(** X24.  A query during which the worker never sees the stop flag, up to
    the first line that starts with [bestmove].  What it has done by then: in
    the continuous query of the root it has called the encoder, requiring
    some depth, on every line read with [info] in [token] (the first word of
    the line, or of the line before when the line has no word); in a
    time-limited query it has not called it; it has written nothing.  How it
    ends: when [bestmove] is followed by [info] it writes [stop] and never
    returns; otherwise, when no line came before [bestmove] or the last one
    was empty, it returns at once; otherwise it throws when the helper no
    longer runs, and else calls the encoder on the last line before
    [bestmove], not requiring any depth, and returns.  The lines after
    [bestmove] are left unread.  When every line before [bestmove] has a
    word, the lines read with [info] in [token] are those whose first word
    is [info]. *)
Theorem query_that_is_not_stopped (infinite_exploration child_running : bool)
    (pre : list HelperLine) (bm : HelperLine) (post : list HelperLine) :
  Forall (fun ev => not_bestmove ev /\ stop_load ev = false) pre ->
  first_word (line bm) = Some "bestmove"%string ->
  (let infos := if infinite_exploration
                then map (fun ev => (line ev, true)) (info_turns "" pre)
                else [] in
   let last_line := match last pre with
                    | Some ev => line ev
                    | None => EmptyString
                    end in
   exists st,
     DoAuxEngine_read infinite_exploration child_running (pre ++ bm :: post)
       read_init
     = (if bool_decide (second_word (line bm) = Some "info"%string)
        then Stuck st
        else if String.eqb last_line "" then Returned st
        else if child_running then Returned st else Threw st)
     /\ written st
        = (if bool_decide (second_word (line bm) = Some "info"%string)
           then ["stop"%string] else [])
     /\ encoded st
        = infos
            ++ (if bool_decide (second_word (line bm) = Some "info"%string)
                then []
                else if String.eqb last_line "" then []
                else if child_running then [(last_line, false)] else []))
  /\ (Forall (fun ev => first_word (line ev) <> None) pre ->
      info_turns "" pre
      = List.filter
          (fun ev => bool_decide (first_word (line ev) = Some "info"%string))
          pre).
Proof.
  intros Hpre Hbm. split; [|apply info_turns_of_worded_lines]. cbv zeta.
  destruct (read_loop_undisturbed infinite_exploration pre read_init eq_refl
              ltac:(discriminate) Hpre)
    as (st1 & Hrun & Hst & Hw & Hprev & Henc).
  destruct (read_step_bestmove infinite_exploration bm st1 Hbm) as [tok Hstep].
  unfold DoAuxEngine_read. rewrite read_loop_app, Hrun.
  cbn [read_loop]. rewrite Hstep.
  cbn [read_init prev_line written encoded token] in Hprev, Hw, Henc.
  destruct (bool_decide (second_word (line bm) = Some "info"%string)).
  - eexists. split; [reflexivity|]. cbn [written encoded].
    rewrite Hw, Henc, app_nil_r. auto.
  - cbn [stopping prev_line]. rewrite Hst, Hprev.
    destruct (String.eqb _ "").
    + eexists. split; [reflexivity|]. cbn [written encoded].
      rewrite Hw, Henc, app_nil_r. auto.
    + destruct child_running; cbn [negb].
      * eexists. split; [reflexivity|]. cbn [written encoded].
        rewrite Hw, Henc. auto.
      * eexists. split; [reflexivity|]. cbn [written encoded].
        rewrite Hw, Henc, app_nil_r. auto.
Qed.

Lemma query_that_is_not_stopped_witness :
  exists st,
    DoAuxEngine_read true true
      ([line1; mkHelperLine "info depth 2 nodes 60 pv e2e4 e7e5" false false]
         ++ line5 :: [line1]) read_init
    = Returned st
    /\ written st = []
    /\ encoded st
       = [("info depth 1 nodes 20 pv e2e4"%string, true);
          ("info depth 2 nodes 60 pv e2e4 e7e5"%string, true);
          ("info depth 2 nodes 60 pv e2e4 e7e5"%string, false)].
Proof.
  refine (proj1 (query_that_is_not_stopped true true
           [line1; mkHelperLine "info depth 2 nodes 60 pv e2e4 e7e5" false false]
           line5 [line1] _ _)).
  - repeat constructor; discriminate.
  - reflexivity.
Defined.

(** X25.  A helper whose first line starts with [bestmove]: when the next
    word is [info] the worker writes [stop] and never returns; otherwise the
    query returns without writing to the helper and without calling the
    encoder, whether the helper still runs or not. *)
Theorem query_answered_at_once (infinite_exploration child_running : bool)
    (bm : HelperLine) (post : list HelperLine) :
  first_word (line bm) = Some "bestmove"%string ->
  exists st,
    DoAuxEngine_read infinite_exploration child_running (bm :: post) read_init
    = (if bool_decide (second_word (line bm) = Some "info"%string)
       then Stuck st else Returned st)
    /\ written st
       = (if bool_decide (second_word (line bm) = Some "info"%string)
          then ["stop"%string] else [])
    /\ encoded st = [].
Proof.
  intros Hbm.
  destruct (read_step_bestmove infinite_exploration bm read_init Hbm)
    as [tok Hstep].
  unfold DoAuxEngine_read. cbn [read_loop]. rewrite Hstep.
  destruct (bool_decide (second_word (line bm) = Some "info"%string)).
  - eexists. split; [reflexivity|]. auto.
  - cbn. eexists. split; [reflexivity|]. auto.
Qed.

Lemma query_answered_at_once_witness :
  exists st,
    DoAuxEngine_read false false
      (mkHelperLine "bestmove info" false false :: [line1]) read_init
    = Stuck st
    /\ written st = ["stop"%string] /\ encoded st = [].
Proof.
  apply (query_answered_at_once false false
           (mkHelperLine "bestmove info" false false) [line1]).
  reflexivity.
Defined.

(** ** The start-of-move purge and the recorded size *)

Lemma start_purge_loop_None (root : Node) (k : nat) :
  forall q temp,
    start_purge_loop root k q temp = None <-> (length q < 2 * k)%nat.
Proof.
  induction k as [|k IH]; intros q temp.
  - cbn. split; [discriminate|lia].
  - cbn [start_purge_loop].
    destruct q as [|n [|w q]]; cbn [length];
      [split; [lia|reflexivity]|split; [lia|reflexivity]|].
    rewrite IH. lia.
Qed.

(** X27.  The start-of-move purge takes two entries off the queue for
    every two counted in [size_of_queue_at_start]: it calls [front()] on an
    empty queue exactly when that size, rounded up to an even number, is
    more than the queue holds, and otherwise leaves the entries beyond that
    size in place, in front of the nodes it keeps. *)
Theorem AuxEngineWorker_purge_nodes_needs_the_recorded_size (s : Search) :
  final_purge_run s = false -> 0 < size_of_queue_at_start s ->
  (AuxEngineWorker_purge_nodes s = None
   <-> size (persistent_queue_of_nodes s)
       < 2 * ((size_of_queue_at_start s + 1) / 2))
  /\ forall s',
       AuxEngineWorker_purge_nodes s = Some s' ->
       exists kept,
         persistent_queue_of_nodes s'
         = drop (2 * Z.to_nat ((size_of_queue_at_start s + 1) / 2))
             (persistent_queue_of_nodes s) ++ kept.
Proof.
  intros Hfinal Hsize. unfold AuxEngineWorker_purge_nodes.
  rewrite Hfinal. destruct (Z.ltb_spec 0 (size_of_queue_at_start s)); [|lia].
  set (k := Z.to_nat ((size_of_queue_at_start s + 1) / 2)).
  assert (Hk : Z.of_nat k = (size_of_queue_at_start s + 1) / 2).
  { unfold k. apply Z2Nat.id. apply Z.div_pos; lia. }
  pose proof (start_purge_loop_None (root_node_ s) k
                (persistent_queue_of_nodes s) []) as Hnone.
  split.
  - destruct (start_purge_loop (root_node_ s) k (persistent_queue_of_nodes s) [])
      as [[rest temp]|] eqn:Hloop.
    + split; [discriminate|]. intros Hlt. exfalso.
      assert (Hn : (length (persistent_queue_of_nodes s) < 2 * k)%nat)
        by (unfold size in Hlt; lia).
      apply Hnone in Hn. discriminate.
    + split; [intros _|reflexivity].
      assert (Hn : (length (persistent_queue_of_nodes s) < 2 * k)%nat)
        by (apply Hnone; reflexivity).
      unfold size. lia.
  - intros s'.
    destruct (start_purge_loop (root_node_ s) k (persistent_queue_of_nodes s) [])
      as [[rest temp]|] eqn:Hloop; [|discriminate].
    intros [= <-]. exists temp. cbn [persistent_queue_of_nodes with_node_queue].
    f_equal. clear -Hloop. revert Hloop.
    generalize (persistent_queue_of_nodes s). generalize (@nil Node).
    induction k as [|k IH]; intros temp0 q Hloop.
    + cbn in Hloop. injection Hloop as <- <-. reflexivity.
    + cbn [start_purge_loop] in Hloop.
      destruct q as [|n [|w q]]; try discriminate.
      replace (2 * S k)%nat with (S (S (2 * k))) by lia. cbn [drop].
      exact (IH _ _ Hloop).
Qed.

Lemma AuxEngineWorker_purge_nodes_needs_the_recorded_size_witness :
  (AuxEngineWorker_purge_nodes next_move_search = None
   <-> size (persistent_queue_of_nodes next_move_search)
       < 2 * ((size_of_queue_at_start next_move_search + 1) / 2))
  /\ forall s',
       AuxEngineWorker_purge_nodes next_move_search = Some s' ->
       exists kept,
         persistent_queue_of_nodes s'
         = drop (2 * Z.to_nat ((size_of_queue_at_start next_move_search + 1) / 2))
             (persistent_queue_of_nodes next_move_search) ++ kept.
Proof.
  apply (AuxEngineWorker_purge_nodes_needs_the_recorded_size next_move_search).
  - reflexivity.
  - reflexivity.
Defined.
